(** * GCP cost calculator: the estimation engine of [scripts/cost-calculator.py]

    A shallow embedding of [GCPCostCalculator]: the static pricing table, the
    three per-service cost functions, the scenario aggregator
    [calculate_scenario_cost] and [compare_scenarios].

    Python's numbers are kept as the program has them: [int] is unbounded
    ([Z]), [float] is IEEE 754 binary64 with round-to-nearest-even
    ([spec_float] at precision 53, [emax] 1024), a decimal literal denotes the
    nearest double, and an [int] meeting a [float] in an arithmetic operation
    is converted first (which raises [OverflowError] when it does not fit).
    Exceptions are an explicit error result; dictionaries are association
    lists in insertion order. *)

From Stdlib Require Import ZArith QArith Qabs Qpower Lqa List String Bool Lia.
From Stdlib Require Import Floats.SpecFloat.
Import ListNotations.

Local Open Scope string_scope.
Local Open Scope Z_scope.

(** ** Exceptions *)

Inductive exn : Type :=
| ValueError (msg : string)
| KeyError (key : string)
| OverflowError
| ZeroDivisionError.

Inductive result (A : Type) : Type :=
| Ok (a : A)
| Raise (e : exn).

Arguments Ok {A} a.
Arguments Raise {A} e.

Definition bind {A B : Type} (c : result A) (k : A -> result B) : result B :=
  match c with
  | Ok a => k a
  | Raise e => Raise e
  end.

Notation "x <- c ;; k" := (bind c (fun x => k))
  (at level 61, c at next level, right associativity).

Definition is_ok {A : Type} (c : result A) : bool :=
  match c with Ok _ => true | Raise _ => false end.

(** ** Python's [float]: binary64 *)

Definition float : Type := spec_float.

Module Float.

Definition prec : Z := 53.
Definition emax : Z := 1024.

Definition add : float -> float -> float := SFadd prec emax.
Definition mul : float -> float -> float := SFmul prec emax.

(** The integer [n] as an exact, not yet rounded, binary number. *)
Definition exact (n : positive) (neg : bool) : float := S754_finite neg n 0.

(** [float(n)] for an [int]: the nearest double, ties to even;
    [OverflowError] when that is not finite. *)
Definition of_int (n : Z) : result float :=
  match binary_normalize prec emax n 0 false with
  | S754_infinity _ => Raise OverflowError
  | f => Ok f
  end.

(** [a / b] on two [int]s: the correctly rounded quotient of the exact
    integers, [0.0] (signed) for a zero dividend. *)
Definition int_truediv (a b : Z) : result float :=
  match b with
  | Z0 => Raise ZeroDivisionError
  | _ =>
    match a with
    | Z0 => Ok (S754_zero (b <? 0))
    | _ =>
      match SFdiv prec emax (exact (Z.to_pos (Z.abs a)) (a <? 0))
                            (exact (Z.to_pos (Z.abs b)) (b <? 0)) with
      | S754_infinity _ => Raise OverflowError
      | f => Ok f
      end
    end
  end.

(** [x / y] on two [float]s; Python raises on a zero divisor. *)
Definition div (x y : float) : result float :=
  match y with
  | S754_zero _ => Raise ZeroDivisionError
  | _ => Ok (SFdiv prec emax x y)
  end.

(** The decimal literal [m * 10^-k] with [m > 0], e.g. [24.27] is
    [lit 2427 2]: the double nearest to that rational. *)
Definition lit (m : positive) (k : nat) : float :=
  SFdiv prec emax (exact m false) (exact (Z.to_pos (10 ^ Z.of_nat k)) false).

Definition zero : float := S754_zero false.

End Float.

(** ** Python values that occur as costs: [int] or [float] *)

Inductive pyval : Type :=
| PInt (n : Z)
| PFloat (x : float).

(** [float * int]: the [int] operand is converted first. *)
Definition mul_float_int (x : float) (n : Z) : result float :=
  y <- Float.of_int n ;; Ok (Float.mul x y).

Definition mul_int_float (n : Z) (x : float) : result float :=
  y <- Float.of_int n ;; Ok (Float.mul y x).

Definition div_float_int (x : float) (n : Z) : result float :=
  y <- Float.of_int n ;; Float.div x y.

Definition py_add (a b : pyval) : result pyval :=
  match a, b with
  | PInt m, PInt n => Ok (PInt (m + n))
  | PInt m, PFloat y => x <- Float.of_int m ;; Ok (PFloat (Float.add x y))
  | PFloat x, PInt n => y <- Float.of_int n ;; Ok (PFloat (Float.add x y))
  | PFloat x, PFloat y => Ok (PFloat (Float.add x y))
  end.

Definition py_mul (a b : pyval) : result pyval :=
  match a, b with
  | PInt m, PInt n => Ok (PInt (m * n))
  | PInt m, PFloat y => x <- mul_int_float m y ;; Ok (PFloat x)
  | PFloat x, PInt n => y <- mul_float_int x n ;; Ok (PFloat y)
  | PFloat x, PFloat y => Ok (PFloat (Float.mul x y))
  end.

(** The builtin [sum]: from [0], left to right, by plain accumulation (as
    CPython does up to 3.11). *)
Fixpoint sum_from (acc : pyval) (l : list pyval) : result pyval :=
  match l with
  | [] => Ok acc
  | v :: l' => acc' <- py_add acc v ;; sum_from acc' l'
  end.

Definition py_sum (l : list pyval) : result pyval := sum_from (PInt 0) l.

(** ** Dictionaries: string keys, insertion order *)

Module Dict.

Section Ops.
Context {V : Type}.

Definition t : Type := list (string * V).

Definition empty : t := [].

Fixpoint get (k : string) (d : t) : option V :=
  match d with
  | [] => None
  | (k', v) :: d' => if String.eqb k k' then Some v else get k d'
  end.

(** [d[k] = v]: an existing key keeps its place, a new one goes last. *)
Fixpoint set (k : string) (v : V) (d : t) : t :=
  match d with
  | [] => [(k, v)]
  | (k', v') :: d' =>
    if String.eqb k k' then (k', v) :: d' else (k', v') :: set k v d'
  end.

Definition keys (d : t) : list string := map fst d.
Definition values (d : t) : list V := map snd d.

Definition mem (k : string) (d : t) : bool :=
  match get k d with Some _ => true | None => false end.

(** [d[k]] as an expression: [KeyError] on a missing key. *)
Definition item (k : string) (d : t) : result V :=
  match get k d with
  | Some v => Ok v
  | None => Raise (KeyError k)
  end.
End Ops.

Arguments t V : clear implicits.

End Dict.

(** ** The pricing table ([GCPCostCalculator.__init__]) *)

Definition pricing : Dict.t (Dict.t float) :=
  [ ("gke",
      [ ("e2-small", Float.lit 2427 2);
        ("e2-medium", Float.lit 4855 2);
        ("e2-standard-2", Float.lit 9711 2);
        ("e2-standard-4", Float.lit 19422 2) ]);
    ("cloud_sql",
      [ ("db-f1-micro", Float.lit 1500 2);
        ("db-g1-small", Float.lit 5000 2);
        ("db-n1-standard-1", Float.lit 9500 2);
        ("db-n1-standard-2", Float.lit 19000 2);
        ("db-n1-standard-4", Float.lit 38000 2) ]);
    ("cloud_run",
      [ ("cpu_time", Float.lit 24 6);
        ("memory_time", Float.lit 25 7);
        ("requests", Float.lit 40 2);
        ("min_instances", Float.lit 876 2) ]);
    ("storage",
      [ ("persistent_ssd", Float.lit 17 2);
        ("persistent_standard", Float.lit 4 2);
        ("cloud_sql_ssd", Float.lit 17 2) ]);
    ("network",
      [ ("load_balancer", Float.lit 1800 2);
        ("egress_internet", Float.lit 12 2) ]);
    ("operations",
      [ ("monitoring_basic", Float.lit 500 2);
        ("monitoring_premium", Float.lit 2500 2);
        ("logging", Float.lit 50 2);
        ("secret_manager", Float.lit 6 2) ]) ].

(** [self.pricing[category][sku]] *)
Definition price (category sku : string) : result float :=
  table <- Dict.item category pricing ;; Dict.item sku table.

(** ** The per-service cost functions *)

Definition calculate_gke_cost
    (machine_type : string) (node_count : Z) (preemptible : bool) : result float :=
  unit_price <- price "gke" machine_type ;;
  base_cost <- mul_float_int unit_price node_count ;;
  if preemptible
  then Ok (Float.mul base_cost (Float.lit 2 1))
  else Ok base_cost.

Definition calculate_cloud_sql_cost
    (machine_type : string) (storage_gb : Z) (ha : bool) (backup_storage : Z)
    : result float :=
  compute_cost <- price "cloud_sql" machine_type ;;
  compute_cost <- (if ha then mul_float_int compute_cost 2 else Ok compute_cost) ;;
  ssd <- price "storage" "cloud_sql_ssd" ;;
  storage_cost <- mul_int_float storage_gb ssd ;;
  ssd' <- price "storage" "cloud_sql_ssd" ;;
  backup_gb_cost <- mul_int_float backup_storage ssd' ;;
  let backup_cost := Float.mul backup_gb_cost (Float.lit 8 2) in
  Ok (Float.add (Float.add compute_cost storage_cost) backup_cost).

Definition calculate_cloud_run_cost
    (requests_per_month avg_cpu_time_ms avg_memory_mb min_instances : Z)
    : result float :=
  millions <- Float.int_truediv requests_per_month 1000000 ;;
  per_million <- price "cloud_run" "requests" ;;
  let request_cost := Float.mul millions per_million in
  cpu_seconds <- Float.int_truediv (requests_per_month * avg_cpu_time_ms) 1000 ;;
  cpu_vcpu_seconds <- mul_float_int cpu_seconds 1 ;;
  cpu_time <- price "cloud_run" "cpu_time" ;;
  let cpu_cost := Float.mul cpu_vcpu_seconds cpu_time in
  mb_seconds <- mul_float_int cpu_seconds avg_memory_mb ;;
  memory_gb_seconds <- div_float_int mb_seconds 1024 ;;
  memory_time <- price "cloud_run" "memory_time" ;;
  let memory_cost := Float.mul memory_gb_seconds memory_time in
  per_instance <- price "cloud_run" "min_instances" ;;
  min_instance_cost <- mul_int_float min_instances per_instance ;;
  Ok (Float.add (Float.add (Float.add request_cost cpu_cost) memory_cost)
                min_instance_cost).

(** ** Scenarios *)

Record Usage : Type := {
  requests_per_month : Z;
  avg_cpu_time_ms : Z;
  avg_memory_mb : Z;
  storage_gb : Z;
  egress_gb : Z
}.

Record Components : Type := {
  gke_nodes : string * Z * bool;
  cloud_sql : string * Z * bool * Z;
  monitoring : string
}.

Record Config : Type := {
  description : string;
  usage : Usage;
  components : Components
}.

Definition scenarios : Dict.t Config :=
  [ ("demo",
      {| description := "Demo environment for demonstrations";
         usage := {| requests_per_month := 10000; avg_cpu_time_ms := 200;
                     avg_memory_mb := 256; storage_gb := 50; egress_gb := 10 |};
         components := {| gke_nodes := ("e2-small", 1, true);
                          cloud_sql := ("db-f1-micro", 20, false, 5);
                          monitoring := "basic" |} |});
    ("staging",
      {| description := "Staging environment for testing";
         usage := {| requests_per_month := 50000; avg_cpu_time_ms := 300;
                     avg_memory_mb := 512; storage_gb := 100; egress_gb := 25 |};
         components := {| gke_nodes := ("e2-medium", 2, false);
                          cloud_sql := ("db-n1-standard-1", 50, false, 15);
                          monitoring := "basic" |} |});
    ("production",
      {| description := "Production environment";
         usage := {| requests_per_month := 200000; avg_cpu_time_ms := 500;
                     avg_memory_mb := 1024; storage_gb := 200; egress_gb := 100 |};
         components := {| gke_nodes := ("e2-standard-2", 3, false);
                          cloud_sql := ("db-n1-standard-2", 100, true, 50);
                          monitoring := "premium" |} |});
    ("enterprise",
      {| description := "Enterprise multi-region deployment";
         usage := {| requests_per_month := 1000000; avg_cpu_time_ms := 750;
                     avg_memory_mb := 2048; storage_gb := 500; egress_gb := 500 |};
         components := {| gke_nodes := ("e2-standard-4", 6, false);
                          cloud_sql := ("db-n1-standard-4", 200, true, 100);
                          monitoring := "premium" |} |}) ].

(** The dictionary [calculate_scenario_cost] returns. *)
Record ScenarioResult : Type := {
  scenario_name : string;
  scenario_description : string;
  monthly_cost : pyval;
  annual_cost : pyval;
  cost_breakdown : Dict.t pyval;
  usage_stats : Usage
}.

Definition calculate_scenario_cost (scenario : string) : result ScenarioResult :=
  match Dict.get scenario scenarios with
  | None => Raise (ValueError ("Unknown scenario: " ++ scenario))
  | Some config =>
    let costs : Dict.t pyval := Dict.empty in
    (* GKE costs *)
    let '(machine_type, node_count, preemptible) := gke_nodes (components config) in
    gke <- calculate_gke_cost machine_type node_count preemptible ;;
    let costs := Dict.set "gke" (PFloat gke) costs in
    (* Cloud SQL costs *)
    let '(sql_machine, storage, ha, backup) := cloud_sql (components config) in
    sql <- calculate_cloud_sql_cost sql_machine storage ha backup ;;
    let costs := Dict.set "cloud_sql" (PFloat sql) costs in
    (* Cloud Run costs *)
    let usage := usage config in
    web <- calculate_cloud_run_cost
             (requests_per_month usage)
             (avg_cpu_time_ms usage)
             (avg_memory_mb usage)
             (if String.eqb scenario "production" then 1 else 0) ;;
    let costs := Dict.set "cloud_run_web" (PFloat web) costs in
    worker <- calculate_cloud_run_cost
                (requests_per_month usage / 10)
                (avg_cpu_time_ms usage * 2)
                (avg_memory_mb usage * 2)
                (if String.eqb scenario "production" || String.eqb scenario "enterprise"
                 then 1 else 0) ;;
    let costs := Dict.set "cloud_run_worker" (PFloat worker) costs in
    (* Storage costs *)
    persistent_ssd <- price "storage" "persistent_ssd" ;;
    storage_cost <- mul_int_float (storage_gb usage) persistent_ssd ;;
    let costs := Dict.set "storage" (PFloat storage_cost) costs in
    (* Network costs *)
    load_balancer <- price "network" "load_balancer" ;;
    let costs := Dict.set "load_balancer" (PFloat load_balancer) costs in
    egress_internet <- price "network" "egress_internet" ;;
    egress <- mul_int_float (egress_gb usage) egress_internet ;;
    let costs := Dict.set "egress" (PFloat egress) costs in
    (* Monitoring costs *)
    let monitoring_type := monitoring (components config) in
    monitoring_cost <- (if String.eqb monitoring_type "basic"
                        then price "operations" "monitoring_basic"
                        else price "operations" "monitoring_premium") ;;
    let costs := Dict.set "monitoring" (PFloat monitoring_cost) costs in
    (* Additional costs for enterprise *)
    let costs := if String.eqb scenario "enterprise"
                 then Dict.set "support" (PInt 200) (Dict.set "security" (PInt 100) costs)
                 else costs in
    total_cost <- py_sum (Dict.values costs) ;;
    annual <- py_mul total_cost (PInt 12) ;;
    Ok {| scenario_name := scenario;
          scenario_description := description config;
          monthly_cost := total_cost;
          annual_cost := annual;
          cost_breakdown := costs;
          usage_stats := usage |}
  end.

(** [compare_scenarios]: the loop over the names, [results] being the
    dictionary filled so far. *)
Fixpoint compare_loop (names : list string) (results : Dict.t ScenarioResult)
    : result (Dict.t ScenarioResult) :=
  match names with
  | [] => Ok results
  | scenario :: rest =>
    r <- calculate_scenario_cost scenario ;;
    compare_loop rest (Dict.set scenario r results)
  end.

Definition compare_scenarios (names : list string) : result (Dict.t ScenarioResult) :=
  compare_loop names Dict.empty.

(** * Vocabulary of the statements *)

(** ** Signs of doubles *)

(** A float that is a zero or a finite number of sign [s]; infinities of
    that sign are allowed by [signed_ext]. *)
Definition signed (s : bool) (x : float) : Prop :=
  x = S754_zero s \/ exists m e, x = S754_finite s m e.

Definition signed_ext (s : bool) (x : float) : Prop :=
  signed s x \/ x = S754_infinity s.

(** [2] as a double, the factor of [compute_cost *= 2]. *)
Definition float_two : float := S754_finite false 0x10000000000000 (-51).

(** ** Exact values, to measure rounding *)

(** The rational a finite double stands for. *)
Definition float_Q (x : float) : option Q :=
  match x with
  | S754_zero _ => Some (inject_Z 0)
  | S754_finite s m e =>
    let n := if s then Z.neg m else Z.pos m in
    Some (if 0 <=? e then inject_Z (n * 2 ^ e) else Qmake n (Z.to_pos (2 ^ (- e))))
  | _ => None
  end.

Definition pyval_Q (v : pyval) : option Q :=
  match v with
  | PInt n => Some (inject_Z n)
  | PFloat x => float_Q x
  end.

Fixpoint exact_sum (l : list pyval) : option Q :=
  match l with
  | [] => Some (inject_Z 0)
  | v :: l' =>
    match pyval_Q v, exact_sum l' with
    | Some q, Some t => Some (Qplus q t)
    | _, _ => None
    end
  end.

(** Distance between the monthly cost and the exact sum of the entries. *)
Definition rounding_drift (r : ScenarioResult) : option Q :=
  match pyval_Q (monthly_cost r), exact_sum (Dict.values (cost_breakdown r)) with
  | Some m, Some t => Some (Qabs (Qminus m t))
  | _, _ => None
  end.

Definition drift_below_cent (r : ScenarioResult) : bool :=
  match rounding_drift r with
  | Some d => match Qcompare d (Qmake 1 100) with Lt => true | _ => false end
  | None => false
  end.

(** ** Scenario results *)

(** The recognized names, in the order of the [scenarios] literal. *)
Definition scenario_names : list string :=
  ["demo"; "staging"; "production"; "enterprise"].

(** The demo result, evaluated: 56.085750000000004 a month. *)
Definition demo_result : ScenarioResult :=
  {| scenario_name := "demo";
     scenario_description := "Demo environment for demonstrations";
     monthly_cost := PFloat (S754_finite false 7893367587524838 (-47));
     annual_cost := PFloat (S754_finite false 5920025690643628 (-43));
     cost_breakdown :=
       [ ("gke", PFloat (Float.lit 4854 3));
         ("cloud_sql", PFloat (Float.lit 18468 3));
         ("cloud_run_web", PFloat (S754_finite false 7674133765039326 (-57)));
         ("cloud_run_worker", PFloat (S754_finite false 6052837899185947 (-59)));
         ("storage", PFloat (S754_finite false 4785074604081152 (-49)));
         ("load_balancer", PFloat (Float.lit 1800 2));
         ("egress", PFloat (S754_finite false 5404319552844595 (-52)));
         ("monitoring", PFloat (Float.lit 500 2)) ];
     usage_stats :=
       {| requests_per_month := 10000; avg_cpu_time_ms := 200;
          avg_memory_mb := 256; storage_gb := 50; egress_gb := 10 |} |}.

(** The production result, evaluated: 798.848 a month. *)
Definition production_result : ScenarioResult :=
  {| scenario_name := "production";
     scenario_description := "Production environment";
     monthly_cost := PFloat (S754_finite false 7026741318604816 (-43));
     annual_cost := PFloat (S754_finite false 5270055988953612 (-39));
     cost_breakdown :=
       [ ("gke", PFloat (S754_finite false 5125131560319713 (-44)));
         ("cloud_sql", PFloat (S754_finite false 6996060546143355 (-44)));
         ("cloud_run_web", PFloat (S754_finite false 6468294964810875 (-49)));
         ("cloud_run_worker", PFloat (S754_finite false 5262456164582424 (-49)));
         ("storage", PFloat (S754_finite false 4785074604081152 (-47)));
         ("load_balancer", PFloat (Float.lit 1800 2));
         ("egress", PFloat (Float.lit 12 0));
         ("monitoring", PFloat (Float.lit 2500 2)) ];
     usage_stats :=
       {| requests_per_month := 200000; avg_cpu_time_ms := 500;
          avg_memory_mb := 1024; storage_gb := 200; egress_gb := 100 |} |}.

(** Every pricing lookup [calculate_scenario_cost] performs for a
    configuration. *)
Definition lookups_resolve (config : Config) : bool :=
  let '(machine_type, _, _) := gke_nodes (components config) in
  let '(sql_machine, _, _, _) := cloud_sql (components config) in
  is_ok (price "gke" machine_type)
  && is_ok (price "cloud_sql" sql_machine)
  && is_ok (price "storage" "cloud_sql_ssd")
  && is_ok (price "cloud_run" "requests")
  && is_ok (price "cloud_run" "cpu_time")
  && is_ok (price "cloud_run" "memory_time")
  && is_ok (price "cloud_run" "min_instances")
  && is_ok (price "storage" "persistent_ssd")
  && is_ok (price "network" "load_balancer")
  && is_ok (price "network" "egress_internet")
  && is_ok (if String.eqb (monitoring (components config)) "basic"
            then price "operations" "monitoring_basic"
            else price "operations" "monitoring_premium").

(** ** Key order of a dictionary filled from a list *)

(** The names of a list in order of first occurrence, leaving out those
    already in [seen]. *)
Fixpoint fresh_names (seen names : list string) : list string :=
  match names with
  | [] => []
  | n :: rest =>
    if existsb (String.eqb n) seen
    then fresh_names seen rest
    else n :: fresh_names (seen ++ [n])%list rest
  end.

Definition first_occurrences (names : list string) : list string :=
  fresh_names [] names.

(** ** Names in the pricing table *)

Definition gke_machine_types : list string :=
  ["e2-small"; "e2-medium"; "e2-standard-2"; "e2-standard-4"].

Definition cloud_sql_machine_types : list string :=
  ["db-f1-micro"; "db-g1-small"; "db-n1-standard-1"; "db-n1-standard-2";
   "db-n1-standard-4"].

(** A positive finite double. *)
Definition positive_finite (x : float) : bool :=
  match x with
  | S754_finite false _ _ => true
  | _ => false
  end.

(** The cost with its sign flipped, errors unchanged. *)
Definition negated (c : result float) : result float :=
  x <- c ;; Ok (SFopp x).

(** The entries every breakdown starts with, in computation order. *)
Definition component_keys : list string :=
  ["gke"; "cloud_sql"; "cloud_run_web"; "cloud_run_worker"; "storage";
   "load_balancer"; "egress"; "monitoring"].

(** ** Exact values of doubles and of decimal literals *)

(** [2^e] as a rational. *)
Definition two_pow (e : Z) : Q := Qpower (2 # 1) e.

(** The rational a positive finite double [m * 2^e] stands for. *)
Definition fval (m : positive) (e : Z) : Q := (inject_Z (Z.pos m) * two_pow e)%Q.

(** The relative error allowed to one rounded operation: [2^-51]. *)
Definition rel_eps : Q := 1 # 2251799813685248.

(** The mantissa of the double [0.2], whose exponent is [-55]. *)
Definition fifth_m : positive := 0x1999999999999a.

(** The decimal literal [m * 10^-k] as the exact rational it denotes. *)
Definition decimal_Q (m : positive) (k : nat) : Q :=
  Z.pos m # Z.to_pos (10 ^ Z.of_nat k).

(** The node prices as the source writes them: 24.27, 48.55, 97.11, 194.22. *)
Definition gke_literals : list (string * (positive * nat)) :=
  [ ("e2-small", (2427%positive, 2%nat));
    ("e2-medium", (4855%positive, 2%nat));
    ("e2-standard-2", (9711%positive, 2%nat));
    ("e2-standard-4", (19422%positive, 2%nat)) ].

(** The database prices as the source writes them: 15.00, 50.00, 95.00,
    190.00, 380.00. *)
Definition cloud_sql_literals : list (string * (positive * nat)) :=
  [ ("db-f1-micro", (1500%positive, 2%nat));
    ("db-g1-small", (5000%positive, 2%nat));
    ("db-n1-standard-1", (9500%positive, 2%nat));
    ("db-n1-standard-2", (19000%positive, 2%nat));
    ("db-n1-standard-4", (38000%positive, 2%nat)) ].

(** The database cost in exact decimal arithmetic. *)
Definition cloud_sql_exact (m : positive) (k : nat) (storage_gb : Z) (ha : bool)
    (backup_storage : Z) : Q :=
  ((if ha then decimal_Q m k * (2 # 1) else decimal_Q m k)
   + inject_Z storage_gb * decimal_Q 17 2
   + inject_Z backup_storage * decimal_Q 17 2 * decimal_Q 8 2)%Q.

(** The factor [(1 - 2^-51)^n] that [n] rounded operations leave of a bound
    from below, and [(1 + 2^-51)^n] for a bound from above. *)
Fixpoint shrink (n : nat) : Q :=
  match n with
  | O => 1
  | S k => shrink k * (1 - rel_eps)
  end.

Fixpoint grow (n : nat) : Q :=
  match n with
  | O => 1
  | S k => grow k * (1 + rel_eps)
  end.

(** The double [x] stands for the exact amount [q]: both are zero, or [q]
    lies between [lo] and [hi] and [x] is [q] up to [n] roundings. *)
Definition approximates (x : float) (q : Q) (n : nat) (lo hi : Q) : Prop :=
  match x with
  | S754_zero false => (q == 0)%Q
  | S754_finite false m e =>
    (lo <= q)%Q /\ (q <= hi)%Q /\
    (q * shrink n <= fval m e)%Q /\ (fval m e <= q * grow n)%Q
  | _ => False
  end.

(** A double whose mantissa has all 53 bits, or zero. *)
Definition canonical (x : float) : Prop :=
  match x with
  | S754_finite _ m _ => 2 ^ 52 <= Z.pos m
  | _ => True
  end.

(** The request-handling cost in exact decimal arithmetic. *)
Definition cloud_run_exact
    (requests_per_month avg_cpu_time_ms avg_memory_mb min_instances : Z) : Q :=
  (inject_Z requests_per_month / inject_Z 1000000 * decimal_Q 40 2
   + inject_Z (requests_per_month * avg_cpu_time_ms) / inject_Z 1000 * decimal_Q 24 6
   + inject_Z (requests_per_month * avg_cpu_time_ms) / inject_Z 1000
     * inject_Z avg_memory_mb / inject_Z 1024 * decimal_Q 25 7
   + inject_Z min_instances * decimal_Q 876 2)%Q.

(** * Properties *)

(** Inverting one step of a successful computation. *)
Ltac bind_ok H :=
  match type of H with
  | bind ?c _ = Ok _ =>
    let a := fresh "a" in
    let E := fresh "E" in
    destruct c as [a | ] eqn:E; cbn [bind] in H; [ | discriminate H]
  end.

(** ** The model of [float] against CPython's doubles *)

(** The literals agree with the doubles CPython parses them to. *)
Example lit_24_27 : Float.lit 2427 2 = S754_finite false 0x18451eb851eb85 (-48).
Proof. vm_compute. reflexivity. Qed.

Example lit_0_2 : Float.lit 2 1 = S754_finite false 0x1999999999999a (-55).
Proof. vm_compute. reflexivity. Qed.

Example of_int_12 : Float.of_int 12 = Ok (S754_finite false 0x18000000000000 (-49)).
Proof. vm_compute. reflexivity. Qed.

Example of_int_too_large : Float.of_int (2 ^ 1024) = Raise OverflowError.
Proof. vm_compute. reflexivity. Qed.

(** At the edge of the range: [2^1024 - 2^970 - 1] still converts (to the
    largest double), [2^1024 - 2^970] rounds up and is refused. *)
Example of_int_largest :
  Float.of_int (2 ^ 1024 - 2 ^ 970 - 1) = Ok (S754_finite false 0x1fffffffffffff 971) /\
  Float.of_int (2 ^ 1024 - 2 ^ 970) = Raise OverflowError.
Proof. split; vm_compute; reflexivity. Qed.

(** [/] on [int]s rounds the exact quotient once: [(10**40 + 1) / 3]. *)
Example int_truediv_large :
  Float.int_truediv (10 ^ 40 + 1) 3 = Ok (S754_finite false 5514537417020184 79).
Proof. vm_compute. reflexivity. Qed.

(** ** Facts on binary64 arithmetic *)

Module FloatFacts.

Lemma mul_comm (x y : float) : Float.mul x y = Float.mul y x.
Proof.
  unfold Float.mul, SFmul.
  destruct x as [sx | sx | | sx mx ex], y as [sy | sy | | sy my ey];
    try reflexivity; try (now rewrite xorb_comm).
  now rewrite xorb_comm, Pos.mul_comm, Z.add_comm.
Qed.

Section ShiftRight.

Lemma shr_1_nonneg (mrs : shr_record) :
  0 <= shr_m mrs -> 0 <= shr_m (shr_1 mrs).
Proof.
  destruct mrs as [m r s]; simpl.
  destruct m as [ | [p | p | ] | p ]; simpl; lia.
Qed.

Lemma iter_pos_invariant {A : Type} (P : A -> Prop) (f : A -> A) :
  (forall x, P x -> P (f x)) ->
  forall (n : positive) (x : A), P x -> P (iter_pos f n x).
Proof.
  intros Hf n; induction n as [n IH | n IH | ]; intros x Hx; simpl; auto.
Qed.

Lemma shr_fexp_nonneg (m e : Z) (l : location) :
  0 <= m -> 0 <= shr_m (fst (shr_fexp Float.prec Float.emax m e l)).
Proof.
  intros Hm. unfold shr_fexp, shr.
  assert (H0 : 0 <= shr_m (shr_record_of_loc m l))
    by (destruct l as [ | [ | | ] ]; exact Hm).
  destruct (fexp Float.prec Float.emax (Zdigits2 m + e) - e); simpl; auto.
  apply (iter_pos_invariant (fun r => 0 <= shr_m r)); auto using shr_1_nonneg.
Qed.

Lemma round_nearest_even_nonneg (m : Z) (l : location) :
  0 <= m -> 0 <= round_nearest_even m l.
Proof.
  intros Hm. destruct l as [ | [ | | ] ]; simpl; try lia.
  destruct (Z.even m); lia.
Qed.

(** Rounding a non-negative magnitude never yields NaN and keeps the sign. *)
Lemma binary_round_aux_signed (s : bool) (m e : Z) (l : location) :
  0 <= m ->
  signed_ext s (binary_round_aux Float.prec Float.emax s m e l).
Proof.
  intros Hm. unfold binary_round_aux.
  pose proof (shr_fexp_nonneg m e l Hm) as H1.
  destruct (shr_fexp Float.prec Float.emax m e l) as [mrs' e']; simpl in H1.
  pose proof (shr_fexp_nonneg _ e' loc_Exact
                (round_nearest_even_nonneg _ (loc_of_shr_record mrs') H1)) as H2.
  destruct (shr_fexp Float.prec Float.emax
              (round_nearest_even (shr_m mrs') (loc_of_shr_record mrs')) e' loc_Exact)
    as [mrs'' e'']; simpl in H2.
  destruct (shr_m mrs'') as [ | p | p ].
  - left; left; reflexivity.
  - destruct (e'' <=? Float.emax - Float.prec).
    + left; right; eauto.
    + right; reflexivity.
  - lia.
Qed.

End ShiftRight.

(** *** Integers below [2^1023] convert to a double *)

Section Range.

Lemma digits2_pos_bounds (p : positive) :
  2 ^ (Z.pos (digits2_pos p) - 1) <= Z.pos p < 2 ^ Z.pos (digits2_pos p).
Proof.
  induction p as [p IH | p IH | ]; simpl digits2_pos.
  - rewrite Pos2Z.inj_succ.
    replace (Z.succ (Z.pos (digits2_pos p)) - 1) with (Z.succ (Z.pos (digits2_pos p) - 1)) by lia.
    rewrite !Z.pow_succ_r by lia. lia.
  - rewrite Pos2Z.inj_succ.
    replace (Z.succ (Z.pos (digits2_pos p)) - 1) with (Z.succ (Z.pos (digits2_pos p) - 1)) by lia.
    rewrite !Z.pow_succ_r by lia. lia.
  - simpl. lia.
Qed.

(** A non-negative [m] below [2^d] has at most [d] binary digits. *)
Lemma Zdigits2_le (m d : Z) : 0 <= m -> 0 <= d -> m < 2 ^ d -> Zdigits2 m <= d.
Proof.
  intros Hm Hd Hlt. destruct m as [ | p | p]; simpl; [lia | | lia].
  destruct (digits2_pos_bounds p) as [Hlo _].
  destruct (Z_le_gt_dec (Z.pos (digits2_pos p)) d) as [ | Hgt]; [assumption | ].
  assert (2 ^ d <= 2 ^ (Z.pos (digits2_pos p) - 1)) by (apply Z.pow_le_mono_r; lia).
  lia.
Qed.

Lemma Zdigits2_lt (m : Z) : 0 <= m -> m < 2 ^ Zdigits2 m.
Proof.
  intros Hm. destruct m as [ | p | p]; simpl; [lia | | lia].
  apply digits2_pos_bounds.
Qed.

Lemma Zdigits2_nonneg (m : Z) : 0 <= Zdigits2 m.
Proof. destruct m; simpl; lia. Qed.

Lemma shr_1_half (r : shr_record) : 0 <= shr_m r -> shr_m (shr_1 r) = shr_m r / 2.
Proof.
  intros H. rewrite <- Z.div2_div.
  destruct r as [m b s]; simpl in *. destruct m as [ | [p | p | ] | p]; try reflexivity; lia.
Qed.

Lemma iter_pos_nat {A : Type} (f : A -> A) (n : positive) :
  forall x, iter_pos f n x = Nat.iter (Pos.to_nat n) f x.
Proof.
  induction n as [n IH | n IH | ]; intros x; simpl iter_pos.
  - rewrite !IH, Pos2Nat.inj_xI, Nat.iter_succ_r.
    replace (2 * Pos.to_nat n)%nat with (Pos.to_nat n + Pos.to_nat n)%nat by lia.
    now rewrite Nat.iter_add.
  - rewrite !IH, Pos2Nat.inj_xO.
    replace (2 * Pos.to_nat n)%nat with (Pos.to_nat n + Pos.to_nat n)%nat by lia.
    now rewrite Nat.iter_add.
  - reflexivity.
Qed.

Lemma shr_iter_div (k : nat) (r : shr_record) :
  0 <= shr_m r ->
  shr_m (Nat.iter k shr_1 r) = shr_m r / 2 ^ Z.of_nat k.
Proof.
  intros Hr. induction k as [ | k IH].
  - simpl. now rewrite Z.div_1_r.
  - change (Nat.iter (S k) shr_1 r) with (shr_1 (Nat.iter k shr_1 r)).
    rewrite shr_1_half.
    + rewrite IH, Z.div_div by lia.
      rewrite Nat2Z.inj_succ, Z.pow_succ_r by lia. f_equal. lia.
    + rewrite IH. apply Z.div_pos; lia.
Qed.

(** After [shr_fexp] the exponent is the larger of [e] and the canonical
    exponent, and the mantissa stays below the top bit position. *)
Lemma shr_fexp_bound (m e : Z) (l : location) :
  0 <= m ->
  let t := Zdigits2 m + e in
  let e' := snd (shr_fexp Float.prec Float.emax m e l) in
  let m' := shr_m (fst (shr_fexp Float.prec Float.emax m e l)) in
  e' = Z.max e (fexp Float.prec Float.emax t) /\ 0 <= m' < 2 ^ Z.max 0 (t - e').
Proof.
  intros Hm t e' m'. subst e' m'. unfold shr_fexp, shr. fold t.
  assert (Hrec : shr_m (shr_record_of_loc m l) = m) by (destruct l as [ | [ | | ] ]; reflexivity).
  pose proof (Zdigits2_lt m Hm) as Hlt. pose proof (Zdigits2_nonneg m) as Hd.
  destruct (fexp Float.prec Float.emax t - e) as [ | k | k] eqn:Hk; cbn [fst snd].
  - rewrite Hrec. split; [lia | ]. split; [lia | ].
    replace (Z.max 0 (t - e)) with (Zdigits2 m) by lia. assumption.
  - rewrite iter_pos_nat, shr_iter_div, Hrec by lia.
    rewrite positive_nat_Z.
    split; [lia | ].
    assert (Hp : 0 < 2 ^ Z.pos k) by (apply Z.pow_pos_nonneg; lia).
    split; [apply Z.div_pos; lia | ].
    apply Z.div_lt_upper_bound; [assumption | ].
    rewrite <- Z.pow_add_r by lia.
    eapply Z.lt_le_trans; [exact Hlt | ].
    apply Z.pow_le_mono_r; lia.
  - rewrite Hrec. split; [lia | ]. split; [lia | ].
    replace (Z.max 0 (t - e)) with (Zdigits2 m) by lia. assumption.
Qed.

Lemma round_nearest_even_bound (m : Z) (l : location) :
  0 <= m -> 0 <= round_nearest_even m l <= m + 1.
Proof.
  intros Hm. destruct l as [ | [ | | ] ]; simpl; try lia.
  destruct (Z.even m); lia.
Qed.

(** Rounding a magnitude whose top bit lies below [2^1023] gives a zero or
    a finite double. *)
Lemma binary_round_aux_finite (s : bool) (m e : Z) (l : location) :
  0 <= m -> e <= 970 -> Zdigits2 m + e <= 1023 ->
  binary_round_aux Float.prec Float.emax s m e l = S754_zero s \/
  exists m' e', binary_round_aux Float.prec Float.emax s m e l = S754_finite s m' e'.
Proof.
  intros Hm He Ht. unfold binary_round_aux.
  pose proof (shr_fexp_bound m e l Hm) as H1. cbv zeta in H1.
  destruct (shr_fexp Float.prec Float.emax m e l) as [r1 e1]. cbn [fst snd] in H1.
  destruct H1 as (He1 & Hm1).
  pose proof (round_nearest_even_bound (shr_m r1) (loc_of_shr_record r1) (proj1 Hm1)) as Hr.
  set (m1 := round_nearest_even (shr_m r1) (loc_of_shr_record r1)) in *.
  assert (Hd1 : Zdigits2 m1 <= Z.max 0 (Zdigits2 m + e - e1) + 1).
  { apply Zdigits2_le; [lia | lia | ].
    rewrite Z.pow_add_r by lia. change (2 ^ 1) with 2. lia. }
  pose proof (shr_fexp_bound m1 e1 loc_Exact (proj1 Hr)) as H2. cbv zeta in H2.
  destruct (shr_fexp Float.prec Float.emax m1 e1 loc_Exact) as [r2 e2]. cbn [fst snd] in H2.
  destruct H2 as (He2 & Hm2).
  assert (Hle : e2 <= Float.emax - Float.prec).
  { rewrite He2, He1. unfold fexp, emin, Float.prec, Float.emax in *. lia. }
  destruct (shr_m r2) as [ | p | p].
  - left; reflexivity.
  - apply Z.leb_le in Hle. rewrite Hle. right; eauto.
  - lia.
Qed.

Lemma digits2_pos_iter_xO (p d : positive) :
  Z.pos (digits2_pos (Pos.iter xO p d)) = Z.pos (digits2_pos p) + Z.pos d.
Proof.
  induction d as [ | d IH] using Pos.peano_ind.
  - simpl. lia.
  - rewrite Pos.iter_succ. simpl digits2_pos. rewrite !Pos2Z.inj_succ, IH. lia.
Qed.

Lemma binary_round_finite (s : bool) (p : positive) :
  Z.pos p < 2 ^ 1023 ->
  binary_round Float.prec Float.emax s p 0 = S754_zero s \/
  exists m e, binary_round Float.prec Float.emax s p 0 = S754_finite s m e.
Proof.
  intros Hp. unfold binary_round.
  assert (Hd : Zdigits2 (Z.pos p) <= 1023) by (apply Zdigits2_le; lia).
  simpl in Hd.
  unfold shl_align.
  destruct (fexp Float.prec Float.emax (Z.pos (digits2_pos p) + 0) - 0) as [ | k | k] eqn:Hk.
  - apply binary_round_aux_finite; simpl; lia.
  - apply binary_round_aux_finite; simpl; lia.
  - apply binary_round_aux_finite; [lia | | ].
    + unfold fexp, emin, Float.prec, Float.emax in *. lia.
    + simpl Zdigits2. rewrite digits2_pos_iter_xO. lia.
Qed.

End Range.

Lemma of_int_in_range (n : Z) :
  Z.abs n < 2 ^ 1023 -> exists x, Float.of_int n = Ok x.
Proof.
  intros Hn. unfold Float.of_int, binary_normalize.
  destruct n as [ | p | p].
  - eauto.
  - destruct (binary_round_finite false p) as [-> | (m & e & ->)]; [lia | eauto | eauto].
  - destruct (binary_round_finite true p) as [-> | (m & e & ->)]; [lia | eauto | eauto].
Qed.

Lemma of_int_signed (n : Z) (x : float) :
  Float.of_int n = Ok x -> signed (n <? 0) x.
Proof.
  unfold Float.of_int, binary_normalize, binary_round.
  destruct n as [ | p | p ]; simpl.
  - intros H; inversion H; left; reflexivity.
  - destruct (shl_align p 0 _) as [mz ez].
    destruct (binary_round_aux_signed false (Z.pos mz) ez loc_Exact) as [Hs | Hi];
      [lia | | ].
    + destruct Hs as [-> | (m & e & ->)]; intros H; inversion H; subst.
      * left; reflexivity.
      * right; eauto.
    + rewrite Hi; discriminate.
  - destruct (shl_align p 0 _) as [mz ez].
    destruct (binary_round_aux_signed true (Z.pos mz) ez loc_Exact) as [Hs | Hi];
      [lia | | ].
    + destruct Hs as [-> | (m & e & ->)]; intros H; inversion H; subst.
      * left; reflexivity.
      * right; eauto.
    + rewrite Hi; discriminate.
Qed.

Lemma mul_signed (s s' : bool) (x : float) (m : positive) (e : Z) :
  signed s x -> signed_ext (xorb s s') (Float.mul x (S754_finite s' m e)).
Proof.
  intros [-> | (mx & ex & ->)]; unfold Float.mul, SFmul.
  - left; left; reflexivity.
  - apply binary_round_aux_signed; lia.
Qed.

Lemma mul_zero_l (s s' : bool) (x : float) :
  signed s' x -> Float.mul (S754_zero s) x = S754_zero (xorb s s').
Proof. intros [-> | (m & e & ->)]; reflexivity. Qed.

Lemma mul_zero_finite (s s' : bool) (m : positive) (e : Z) :
  Float.mul (S754_zero s) (S754_finite s' m e) = S754_zero (xorb s s').
Proof. reflexivity. Qed.

Lemma add_zero_l (x : float) :
  signed_ext false x -> Float.add Float.zero x = x.
Proof.
  intros [[-> | (m & e & ->)] | ->]; reflexivity.
Qed.

Lemma add_zero_zero (s : bool) :
  Float.add Float.zero (S754_zero s) = Float.zero.
Proof. destruct s; reflexivity. Qed.

End FloatFacts.

(** ** Fixed pricing-table entries used by the cost functions *)

Module PriceFacts.

Lemma cloud_sql_ssd : price "storage" "cloud_sql_ssd" = Ok (Float.lit 17 2).
Proof. reflexivity. Qed.

Lemma persistent_ssd : price "storage" "persistent_ssd" = Ok (Float.lit 17 2).
Proof. reflexivity. Qed.

Lemma requests : price "cloud_run" "requests" = Ok (Float.lit 40 2).
Proof. reflexivity. Qed.

Lemma cpu_time : price "cloud_run" "cpu_time" = Ok (Float.lit 24 6).
Proof. reflexivity. Qed.

Lemma memory_time : price "cloud_run" "memory_time" = Ok (Float.lit 25 7).
Proof. reflexivity. Qed.

Lemma min_instances : price "cloud_run" "min_instances" = Ok (Float.lit 876 2).
Proof. reflexivity. Qed.

(** Every listed price is a positive finite double. *)
Lemma lit_requests : exists m e, Float.lit 40 2 = S754_finite false m e.
Proof. vm_compute; eauto. Qed.

Lemma lit_cpu_time : exists m e, Float.lit 24 6 = S754_finite false m e.
Proof. vm_compute; eauto. Qed.

Lemma lit_memory_time : exists m e, Float.lit 25 7 = S754_finite false m e.
Proof. vm_compute; eauto. Qed.

Lemma lit_min_instances : exists m e, Float.lit 876 2 = S754_finite false m e.
Proof. vm_compute; eauto. Qed.

Lemma lit_fifth : exists m e, Float.lit 2 1 = S754_finite false m e.
Proof. vm_compute; eauto. Qed.

Lemma lit_backup_rate : exists m e, Float.lit 8 2 = S754_finite false m e.
Proof. vm_compute; eauto. Qed.

End PriceFacts.

Lemma of_int_two : Float.of_int 2 = Ok float_two.
Proof. vm_compute. reflexivity. Qed.

(** ** Compute nodes *)

(** C6. For a machine type present in the pricing table and any node count,
    the non-preemptible cost is the unit price times the node count, and the
    preemptible cost is 0.2 times the non-preemptible one (both fail alike
    when the node count does not convert to a double). *)
Theorem gke_preemptible_is_fifth
    (machine_type : string) (node_count : Z) (unit_price : float) :
  price "gke" machine_type = Ok unit_price ->
  calculate_gke_cost machine_type node_count false
    = mul_float_int unit_price node_count /\
  calculate_gke_cost machine_type node_count true
    = (full <- calculate_gke_cost machine_type node_count false ;;
       Ok (Float.mul (Float.lit 2 1) full)) /\
  (Z.abs node_count < 2 ^ 1023 ->
   exists count : float,
     Float.of_int node_count = Ok count /\
     calculate_gke_cost machine_type node_count false
       = Ok (Float.mul unit_price count) /\
     calculate_gke_cost machine_type node_count true
       = Ok (Float.mul (Float.lit 2 1) (Float.mul unit_price count))).
Proof.
  intros Hprice. unfold calculate_gke_cost. rewrite Hprice. cbn [bind].
  split; [ | split].
  - destruct (mul_float_int unit_price node_count); reflexivity.
  - destruct (mul_float_int unit_price node_count) as [base | e]; cbn [bind].
    + now rewrite FloatFacts.mul_comm.
    + reflexivity.
  - intros Hn. destruct (FloatFacts.of_int_in_range node_count Hn) as (count & Hc).
    exists count. unfold mul_float_int. rewrite Hc. cbn [bind].
    split; [reflexivity | split; [reflexivity | ] ].
    now rewrite FloatFacts.mul_comm.
Qed.

Lemma gke_preemptible_is_fifth_e2_small :
  price "gke" "e2-small" = Ok (Float.lit 2427 2) /\
  calculate_gke_cost "e2-small" 1 false = mul_float_int (Float.lit 2427 2) 1 /\
  calculate_gke_cost "e2-small" 1 true
    = (full <- calculate_gke_cost "e2-small" 1 false ;;
       Ok (Float.mul (Float.lit 2 1) full)) /\
  (Z.abs 1 < 2 ^ 1023 ->
   exists count : float,
     Float.of_int 1 = Ok count /\
     calculate_gke_cost "e2-small" 1 false
       = Ok (Float.mul (Float.lit 2427 2) count) /\
     calculate_gke_cost "e2-small" 1 true
       = Ok (Float.mul (Float.lit 2 1) (Float.mul (Float.lit 2427 2) count))).
Proof.
  split; [reflexivity | ].
  apply (gke_preemptible_is_fifth "e2-small" 1 (Float.lit 2427 2)).
  reflexivity.
Defined.

(** ** Managed database *)

Lemma cloud_sql_cost_unfold
    (machine_type : string) (storage_gb backup : Z) (ha : bool) (base : float) :
  price "cloud_sql" machine_type = Ok base ->
  calculate_cloud_sql_cost machine_type storage_gb ha backup
    = (storage_cost <- mul_int_float storage_gb (Float.lit 17 2) ;;
       backup_gb_cost <- mul_int_float backup (Float.lit 17 2) ;;
       Ok (Float.add
             (Float.add (if ha then Float.mul base float_two else base) storage_cost)
             (Float.mul backup_gb_cost (Float.lit 8 2)))).
Proof.
  intros Hprice. unfold calculate_cloud_sql_cost.
  rewrite Hprice, PriceFacts.cloud_sql_ssd. cbn [bind].
  destruct ha.
  - unfold mul_float_int at 1. rewrite of_int_two. reflexivity.
  - reflexivity.
Qed.

(** C7, as stated, fails in double precision: for the demo database
    (db-f1-micro, 20 GB storage, 5 GB backup) the HA cost is
    33.467999999999996 while the non-HA cost plus the base price is 33.468. *)
Lemma cloud_sql_ha_plus_base_differs :
  calculate_cloud_sql_cost "db-f1-micro" 20 true 5
    = Ok (S754_finite false 0x10bbe76c8b4395 (-47)) /\
  (non_ha <- calculate_cloud_sql_cost "db-f1-micro" 20 false 5 ;;
   base <- price "cloud_sql" "db-f1-micro" ;;
   Ok (Float.add non_ha base))
    = Ok (S754_finite false 0x10bbe76c8b4396 (-47)).
Proof. split; vm_compute; reflexivity. Qed.

(** C7, amended. For a database machine type present in the pricing table,
    the HA cost is the non-HA sum with the base term doubled and the same
    storage and backup terms: [(2 * base + storage) + backup] against
    [(base + storage) + backup], each operation rounded to a double; both are
    returned for sizes below [2^1023]. For the two HA scenarios (production,
    enterprise) the HA cost is exactly the non-HA cost plus one base price. *)
Theorem cloud_sql_ha_doubles_base
    (machine_type : string) (storage_gb backup : Z) (base : float) :
  price "cloud_sql" machine_type = Ok base ->
  (forall ha : bool,
     calculate_cloud_sql_cost machine_type storage_gb ha backup
       = (storage_cost <- mul_int_float storage_gb (Float.lit 17 2) ;;
          backup_gb_cost <- mul_int_float backup (Float.lit 17 2) ;;
          Ok (Float.add
                (Float.add (if ha then Float.mul base float_two else base)
                           storage_cost)
                (Float.mul backup_gb_cost (Float.lit 8 2))))) /\
  (Z.abs storage_gb < 2 ^ 1023 -> Z.abs backup < 2 ^ 1023 ->
   exists storage_cost backup_cost : float,
     mul_int_float storage_gb (Float.lit 17 2) = Ok storage_cost /\
     (gb <- mul_int_float backup (Float.lit 17 2) ;; Ok (Float.mul gb (Float.lit 8 2)))
       = Ok backup_cost /\
     calculate_cloud_sql_cost machine_type storage_gb false backup
       = Ok (Float.add (Float.add base storage_cost) backup_cost) /\
     calculate_cloud_sql_cost machine_type storage_gb true backup
       = Ok (Float.add (Float.add (Float.mul base float_two) storage_cost)
                       backup_cost)) /\
  calculate_cloud_sql_cost "db-n1-standard-2" 100 true 50
    = (non_ha <- calculate_cloud_sql_cost "db-n1-standard-2" 100 false 50 ;;
       Ok (Float.add non_ha (Float.lit 19000 2))) /\
  calculate_cloud_sql_cost "db-n1-standard-4" 200 true 100
    = (non_ha <- calculate_cloud_sql_cost "db-n1-standard-4" 200 false 100 ;;
       Ok (Float.add non_ha (Float.lit 38000 2))).
Proof.
  intros Hprice. split; [ | split; [ | split] ].
  - intros ha. now apply cloud_sql_cost_unfold.
  - intros Hs Hb.
    destruct (FloatFacts.of_int_in_range storage_gb Hs) as (fs & Hfs).
    destruct (FloatFacts.of_int_in_range backup Hb) as (fb & Hfb).
    exists (Float.mul fs (Float.lit 17 2)).
    exists (Float.mul (Float.mul fb (Float.lit 17 2)) (Float.lit 8 2)).
    rewrite !(cloud_sql_cost_unfold _ _ _ _ base Hprice).
    unfold mul_int_float. rewrite Hfs, Hfb. cbn [bind]. repeat split.
  - vm_compute. reflexivity.
  - vm_compute. reflexivity.
Qed.

Lemma cloud_sql_ha_doubles_base_micro :
  price "cloud_sql" "db-f1-micro" = Ok (Float.lit 1500 2) /\
  calculate_cloud_sql_cost "db-f1-micro" 20 true 5
    = (storage_cost <- mul_int_float 20 (Float.lit 17 2) ;;
       backup_gb_cost <- mul_int_float 5 (Float.lit 17 2) ;;
       Ok (Float.add
             (Float.add (Float.mul (Float.lit 1500 2) float_two) storage_cost)
             (Float.mul backup_gb_cost (Float.lit 8 2)))).
Proof.
  split; [reflexivity | ].
  refine (proj1 (cloud_sql_ha_doubles_base "db-f1-micro" 20 5 (Float.lit 1500 2) _) true).
  reflexivity.
Defined.

(** ** Serverless *)

(** With no requests every usage-scaled term is [+0.0]; what is left is the
    conversion of [avg_memory_mb] (which can fail) and the reserved-instance
    term. *)
Lemma cloud_run_zero_requests
    (avg_cpu_time_ms avg_memory_mb min_instances : Z) (mem : float) :
  Float.of_int avg_memory_mb = Ok mem ->
  0 <= min_instances ->
  calculate_cloud_run_cost 0 avg_cpu_time_ms avg_memory_mb min_instances
    = mul_int_float min_instances (Float.lit 876 2).
Proof.
  intros Hmem Hmin. unfold calculate_cloud_run_cost.
  rewrite PriceFacts.requests, PriceFacts.cpu_time, PriceFacts.memory_time,
    PriceFacts.min_instances.
  rewrite Z.mul_0_l.
  change (Float.int_truediv 0 1000000) with (Ok Float.zero).
  change (Float.int_truediv 0 1000) with (Ok Float.zero).
  cbn [bind].
  change (mul_float_int Float.zero 1) with (Ok Float.zero). cbn [bind].
  unfold mul_float_int. rewrite Hmem. cbn [bind].
  apply FloatFacts.of_int_signed in Hmem.
  unfold Float.zero.
  rewrite (FloatFacts.mul_zero_l false _ mem Hmem).
  replace (div_float_int (S754_zero (xorb false (avg_memory_mb <? 0))) 1024)
    with (@Ok float (S754_zero (avg_memory_mb <? 0)))
    by (destruct (avg_memory_mb <? 0); vm_compute; reflexivity).
  cbn [bind].
  destruct PriceFacts.lit_requests as (m1 & e1 & ->).
  destruct PriceFacts.lit_cpu_time as (m2 & e2 & ->).
  destruct PriceFacts.lit_memory_time as (m3 & e3 & ->).
  rewrite !FloatFacts.mul_zero_finite. rewrite !xorb_false_r.
  change (Float.add (S754_zero false) (S754_zero false)) with (S754_zero false).
  replace (Float.add (S754_zero false) (S754_zero (avg_memory_mb <? 0)))
    with (S754_zero false) by (symmetry; apply FloatFacts.add_zero_zero).
  unfold mul_int_float.
  destruct (Float.of_int min_instances) as [fm | e] eqn:Hfm; cbn [bind];
    [ | reflexivity ].
  apply FloatFacts.of_int_signed in Hfm.
  replace (min_instances <? 0) with false in Hfm by (symmetry; apply Z.ltb_ge; lia).
  destruct PriceFacts.lit_min_instances as (m4 & e4 & Hlit).
  rewrite Hlit. f_equal.
  apply FloatFacts.add_zero_l.
  apply (FloatFacts.mul_signed false false fm m4 e4 Hfm).
Qed.

(** C4, as stated, fails for an [avg_memory_mb] too large for a double: the
    product [cpu_seconds * avg_memory_mb] raises [OverflowError], although
    [min_instances * 8.76] is 8.76. *)
Lemma cloud_run_zero_requests_huge_memory :
  calculate_cloud_run_cost 0 0 (2 ^ 1024) 1 = Raise OverflowError /\
  mul_int_float 1 (Float.lit 876 2) = Ok (Float.lit 876 2).
Proof. split; vm_compute; reflexivity. Qed.

(** C4, amended. With no requests, any CPU time, an average memory that
    converts to a double and a non-negative number of reserved instances, the
    cost is exactly [min_instances * 8.76], the price of an always-on
    instance being the table's 8.76; below [2^1023] instances that product
    is returned. *)
Theorem cloud_run_zero_requests_is_reserved
    (avg_cpu_time_ms avg_memory_mb min_instances : Z) :
  0 <= avg_cpu_time_ms -> 0 <= avg_memory_mb -> 0 <= min_instances ->
  is_ok (Float.of_int avg_memory_mb) = true ->
  price "cloud_run" "min_instances" = Ok (Float.lit 876 2) /\
  calculate_cloud_run_cost 0 avg_cpu_time_ms avg_memory_mb min_instances
    = mul_int_float min_instances (Float.lit 876 2) /\
  (min_instances < 2 ^ 1023 ->
   exists count : float,
     Float.of_int min_instances = Ok count /\
     calculate_cloud_run_cost 0 avg_cpu_time_ms avg_memory_mb min_instances
       = Ok (Float.mul count (Float.lit 876 2))).
Proof.
  intros _ _ Hmin Hmem.
  destruct (Float.of_int avg_memory_mb) as [mem | ] eqn:Hconv; [ | discriminate Hmem].
  pose proof (cloud_run_zero_requests avg_cpu_time_ms _ _ mem Hconv Hmin) as Hcost.
  split; [reflexivity | split; [exact Hcost | ] ].
  intros Hlt.
  destruct (FloatFacts.of_int_in_range min_instances) as (count & Hc); [lia | ].
  exists count. split; [exact Hc | ].
  rewrite Hcost. unfold mul_int_float. now rewrite Hc.
Qed.

Lemma cloud_run_zero_requests_is_reserved_3 :
  0 <= 200 /\ 0 <= 256 /\ 0 <= 3 /\
  is_ok (Float.of_int 256) = true /\
  price "cloud_run" "min_instances" = Ok (Float.lit 876 2) /\
  calculate_cloud_run_cost 0 200 256 3 = mul_int_float 3 (Float.lit 876 2) /\
  (3 < 2 ^ 1023 ->
   exists count : float,
     Float.of_int 3 = Ok count /\
     calculate_cloud_run_cost 0 200 256 3 = Ok (Float.mul count (Float.lit 876 2))).
Proof.
  split; [lia | split; [lia | split; [lia | split; [vm_compute; reflexivity | ] ] ] ].
  apply (cloud_run_zero_requests_is_reserved 200 256 3); try lia.
  vm_compute; reflexivity.
Defined.

(** C5, as stated, fails as soon as an instance is reserved: with no
    requests and one reserved instance the cost is 8.76, not 0. *)
Lemma cloud_run_zero_requests_not_free :
  calculate_cloud_run_cost 0 0 0 1 = Ok (Float.lit 876 2) /\
  Float.lit 876 2 <> Float.zero.
Proof. split; [vm_compute; reflexivity | vm_compute; discriminate]. Qed.

(** C5, amended. With no requests and no reserved instance the cost is
    [0.0], whatever the CPU time and for any average memory that converts
    to a double. *)
Theorem cloud_run_idle_is_free (avg_cpu_time_ms avg_memory_mb : Z) :
  0 <= avg_cpu_time_ms -> 0 <= avg_memory_mb ->
  is_ok (Float.of_int avg_memory_mb) = true ->
  calculate_cloud_run_cost 0 avg_cpu_time_ms avg_memory_mb 0 = Ok Float.zero.
Proof.
  intros _ _ Hmem.
  destruct (Float.of_int avg_memory_mb) as [mem | ] eqn:Hconv; [ | discriminate Hmem].
  rewrite (cloud_run_zero_requests _ _ 0 mem Hconv) by lia.
  vm_compute. reflexivity.
Qed.

Lemma cloud_run_idle_is_free_demo :
  0 <= 200 /\ 0 <= 256 /\
  is_ok (Float.of_int 256) = true /\
  calculate_cloud_run_cost 0 200 256 0 = Ok Float.zero.
Proof.
  split; [lia | split; [lia | split; [vm_compute; reflexivity | ] ] ].
  apply (cloud_run_idle_is_free 200 256); try lia.
  vm_compute; reflexivity.
Defined.

(** Any memory size below [2^1023] MB meets the conversion condition. *)
Lemma memory_in_range_converts (avg_memory_mb : Z) :
  0 <= avg_memory_mb < 2 ^ 1023 -> is_ok (Float.of_int avg_memory_mb) = true.
Proof.
  intros H. destruct (FloatFacts.of_int_in_range avg_memory_mb) as (x & ->); [lia | ].
  reflexivity.
Qed.

(** ** Scenario aggregation *)

Lemma scenario_names_are_keys : Dict.keys scenarios = scenario_names.
Proof. reflexivity. Qed.

Lemma scenarios_get_none (s : string) :
  ~ In s scenario_names -> Dict.get s scenarios = None.
Proof.
  intros Hs. unfold scenarios. cbn [Dict.get].
  repeat match goal with
         | |- context [String.eqb s ?k] =>
           destruct (String.eqb_spec s k) as [-> | _];
             [exfalso; apply Hs; simpl; tauto | ]
         end.
  reflexivity.
Qed.

Lemma scenarios_get_some (s : string) :
  In s scenario_names -> exists config, Dict.get s scenarios = Some config.
Proof.
  simpl. intros [<- | [<- | [<- | [<- | [] ] ] ] ]; eexists; reflexivity.
Qed.

(** C3. Any name other than the four scenario names (compared exactly, so
    [Demo] is not [demo]) makes [calculate_scenario_cost] raise the error
    whose message carries that name; an error result holds no breakdown. *)
Theorem unknown_scenario_raises (scenario : string) :
  ~ In scenario scenario_names ->
  calculate_scenario_cost scenario
    = Raise (ValueError ("Unknown scenario: " ++ scenario)).
Proof.
  intros Hs. unfold calculate_scenario_cost.
  now rewrite (scenarios_get_none scenario Hs).
Qed.

Lemma unknown_scenario_raises_capitalised :
  ~ In "Demo" scenario_names /\
  calculate_scenario_cost "Demo" = Raise (ValueError "Unknown scenario: Demo").
Proof.
  assert (H : ~ In "Demo" scenario_names).
  { simpl. intros [H | [H | [H | [H | [] ] ] ] ]; discriminate H. }
  split; [exact H | ].
  exact (unknown_scenario_raises "Demo" H).
Defined.

(** Whatever the scenario, a returned result has the sum of its breakdown as
    monthly cost and twelve times that as annual cost. *)
Lemma scenario_result_totals (scenario : string) (r : ScenarioResult) :
  calculate_scenario_cost scenario = Ok r ->
  py_sum (Dict.values (cost_breakdown r)) = Ok (monthly_cost r) /\
  py_mul (monthly_cost r) (PInt 12) = Ok (annual_cost r).
Proof.
  unfold calculate_scenario_cost.
  destruct (Dict.get scenario scenarios) as [config | ]; [ | discriminate].
  destruct (gke_nodes (components config)) as [[machine_type node_count] preemptible].
  destruct (cloud_sql (components config)) as [[[sql_machine storage] ha] backup].
  intros H. repeat bind_ok H.
  inversion H; subst r; clear H. cbn [cost_breakdown monthly_cost annual_cost].
  split; assumption.
Qed.

Lemma recognized_scenario_ok (scenario : string) :
  In scenario scenario_names ->
  exists r, calculate_scenario_cost scenario = Ok r /\ drift_below_cent r = true.
Proof.
  simpl. intros [<- | [<- | [<- | [<- | [] ] ] ] ];
    eexists; (split; [vm_compute; reflexivity | vm_compute; reflexivity]).
Qed.

(** C1. For each of the four scenario names [calculate_scenario_cost]
    returns a result whose monthly cost is exactly what [sum] gives on the
    values of its breakdown, taken in insertion order; measured in exact
    arithmetic it is within a cent of the sum of the entries. *)
Theorem monthly_cost_is_breakdown_sum (scenario : string) :
  In scenario scenario_names ->
  exists r,
    calculate_scenario_cost scenario = Ok r /\
    py_sum (Dict.values (cost_breakdown r)) = Ok (monthly_cost r) /\
    drift_below_cent r = true.
Proof.
  intros Hs. destruct (recognized_scenario_ok scenario Hs) as (r & Hr & Hd).
  exists r. split; [exact Hr | split; [ | exact Hd] ].
  exact (proj1 (scenario_result_totals scenario r Hr)).
Qed.

Lemma monthly_cost_is_breakdown_sum_enterprise :
  In "enterprise" scenario_names /\
  exists r,
    calculate_scenario_cost "enterprise" = Ok r /\
    py_sum (Dict.values (cost_breakdown r)) = Ok (monthly_cost r) /\
    drift_below_cent r = true.
Proof.
  assert (H : In "enterprise" scenario_names) by (simpl; tauto).
  split; [exact H | ].
  exact (monthly_cost_is_breakdown_sum "enterprise" H).
Defined.

(** C2. Whenever [calculate_scenario_cost] returns, the annual cost is the
    monthly cost times [12], as one double-precision multiplication. *)
Theorem annual_cost_is_twelve_months (scenario : string) (r : ScenarioResult) :
  calculate_scenario_cost scenario = Ok r ->
  py_mul (monthly_cost r) (PInt 12) = Ok (annual_cost r).
Proof.
  intros Hr. exact (proj2 (scenario_result_totals scenario r Hr)).
Qed.

Lemma demo_evaluates : calculate_scenario_cost "demo" = Ok demo_result.
Proof. vm_compute. reflexivity. Qed.

Lemma annual_cost_is_twelve_months_demo :
  calculate_scenario_cost "demo" = Ok demo_result /\
  py_mul (monthly_cost demo_result) (PInt 12) = Ok (annual_cost demo_result).
Proof.
  split; [vm_compute; reflexivity | ].
  apply (annual_cost_is_twelve_months "demo" demo_result).
  vm_compute; reflexivity.
Defined.

(** C8. In the demo breakdown the node entry is [24.27 * 1 * 0.2], which is
    the double 4.854, and the database entry is
    [15.00 + 20*0.17 + 5*0.17*0.08], which is the double 18.468; both sit in
    the returned breakdown next to the six other entries. *)
Theorem demo_node_and_database_entries :
  exists r,
    calculate_scenario_cost "demo" = Ok r /\
    Dict.get "gke" (cost_breakdown r) = Some (PFloat (Float.lit 4854 3)) /\
    Dict.get "cloud_sql" (cost_breakdown r) = Some (PFloat (Float.lit 18468 3)) /\
    (x <- mul_float_int (Float.lit 2427 2) 1 ;; Ok (Float.mul x (Float.lit 2 1)))
      = Ok (Float.lit 4854 3) /\
    (s <- mul_int_float 20 (Float.lit 17 2) ;;
     b <- mul_int_float 5 (Float.lit 17 2) ;;
     Ok (Float.add (Float.add (Float.lit 1500 2) s) (Float.mul b (Float.lit 8 2))))
      = Ok (Float.lit 18468 3) /\
    Dict.keys (cost_breakdown r)
      = ["gke"; "cloud_sql"; "cloud_run_web"; "cloud_run_worker"; "storage";
         "load_balancer"; "egress"; "monitoring"].
Proof.
  exists demo_result.
  repeat split; vm_compute; reflexivity.
Qed.

(** C10. For each of the four scenario names every pricing lookup of its
    configuration finds its key and [calculate_scenario_cost] returns a
    result; no scenario name at all ends in a missing-key error. *)
Theorem recognized_scenarios_succeed :
  Forall (fun scenario =>
            exists config r,
              Dict.get scenario scenarios = Some config /\
              lookups_resolve config = true /\
              calculate_scenario_cost scenario = Ok r)
         scenario_names /\
  forall (scenario key : string),
    calculate_scenario_cost scenario <> Raise (KeyError key).
Proof.
  split.
  - repeat constructor; do 2 eexists;
      (split; [reflexivity | split; vm_compute; reflexivity]).
  - intros scenario key.
    destruct (in_dec string_dec scenario scenario_names) as [Hin | Hout].
    + destruct (recognized_scenario_ok scenario Hin) as (r & -> & _). discriminate.
    + unfold calculate_scenario_cost.
      rewrite (scenarios_get_none scenario Hout). discriminate.
Qed.

(** ** Comparing scenarios *)

Module DictFacts.

Section Facts.
Context {V : Type}.
Implicit Types (d : Dict.t V) (k : string) (v : V).

Lemma get_set_same k v d : Dict.get k (Dict.set k v d) = Some v.
Proof.
  induction d as [ | [k' v'] d IH]; simpl.
  - now rewrite String.eqb_refl.
  - destruct (String.eqb k k') eqn:E; simpl; rewrite E; auto.
Qed.

Lemma get_set_other k k' v d :
  k <> k' -> Dict.get k' (Dict.set k v d) = Dict.get k' d.
Proof.
  intros Hne. induction d as [ | [k0 v0] d IH]; simpl.
  - destruct (String.eqb_spec k' k); [congruence | reflexivity].
  - destruct (String.eqb_spec k k0) as [-> | Hk]; simpl.
    + destruct (String.eqb_spec k' k0); [congruence | reflexivity].
    + now rewrite IH.
Qed.

Lemma mem_in_keys k d : Dict.mem k d = true <-> In k (Dict.keys d).
Proof.
  unfold Dict.mem. induction d as [ | [k' v'] d IH]; simpl.
  - split; [discriminate | tauto].
  - destruct (String.eqb_spec k k') as [-> | Hne].
    + split; auto.
    + rewrite IH. split; [tauto | intros [H | H]; [congruence | exact H] ].
Qed.

(** Assignment keeps the keys when [k] is there and appends [k] otherwise. *)
Lemma keys_set k v d :
  Dict.keys (Dict.set k v d)
    = if Dict.mem k d then Dict.keys d else (Dict.keys d ++ [k])%list.
Proof.
  unfold Dict.mem. induction d as [ | [k' v'] d IH]; simpl.
  - reflexivity.
  - destruct (String.eqb k k') eqn:E; simpl.
    + reflexivity.
    + rewrite IH. now destruct (Dict.get k d).
Qed.
End Facts.

End DictFacts.

Lemma existsb_eqb_in (n : string) (l : list string) :
  existsb (String.eqb n) l = true <-> In n l.
Proof.
  rewrite existsb_exists. split.
  - intros (x & Hx & E). apply String.eqb_eq in E. now subst.
  - intros H. exists n. split; [exact H | apply String.eqb_refl].
Qed.

Lemma fresh_names_in (names seen : list string) (n : string) :
  In n (fresh_names seen names) <-> In n names /\ ~ In n seen.
Proof.
  revert seen. induction names as [ | a rest IH]; intros seen; simpl.
  - tauto.
  - destruct (existsb (String.eqb a) seen) eqn:E.
    + apply existsb_eqb_in in E. rewrite IH.
      split; [tauto | ]. intros [[-> | H] Hn]; tauto.
    + assert (Ha : ~ In a seen).
      { intros H. apply existsb_eqb_in in H. congruence. }
      simpl. rewrite IH, in_app_iff. simpl.
      destruct (string_dec a n) as [-> | Hne]; tauto.
Qed.

Lemma fresh_names_nodup (names seen : list string) :
  NoDup names -> (forall n, In n names -> ~ In n seen) ->
  fresh_names seen names = names.
Proof.
  revert seen. induction names as [ | a rest IH]; intros seen Hnd Hseen; simpl.
  - reflexivity.
  - inversion Hnd as [ | ? ? Ha Hrest]; subst.
    destruct (existsb (String.eqb a) seen) eqn:E.
    + apply existsb_eqb_in in E. exfalso. apply (Hseen a); simpl; auto.
    + f_equal. apply IH; [exact Hrest | ].
      intros n Hn. rewrite in_app_iff. simpl.
      intros [H | [<- | [] ] ]; [ | exact (Ha Hn)].
      apply (Hseen n); simpl; auto.
Qed.

(** What the loop adds to [results]: the keys not yet present, in order of
    first occurrence; the result of [calculate_scenario_cost] under every
    name of the list; nothing else changes. *)
Lemma compare_loop_spec (names : list string) :
  forall (results out : Dict.t ScenarioResult),
    compare_loop names results = Ok out ->
    Dict.keys out
      = (Dict.keys results ++ fresh_names (Dict.keys results) names)%list /\
    (forall n, In n names ->
       exists r, calculate_scenario_cost n = Ok r /\ Dict.get n out = Some r) /\
    (forall n, ~ In n names -> Dict.get n out = Dict.get n results).
Proof.
  induction names as [ | a rest IH]; intros results out H; simpl in H.
  - inversion H; subst out. simpl. rewrite app_nil_r. repeat split; tauto.
  - bind_ok H. rename a0 into r.
    destruct (IH _ _ H) as (Hkeys & Hvals & Hother). clear IH.
    split; [ | split].
    + rewrite Hkeys, DictFacts.keys_set. simpl.
      destruct (Dict.mem a results) eqn:Hmem.
      * apply DictFacts.mem_in_keys in Hmem. apply existsb_eqb_in in Hmem.
        now rewrite Hmem.
      * assert (Hex : existsb (String.eqb a) (Dict.keys results) = false).
        { destruct (existsb (String.eqb a) (Dict.keys results)) eqn:Hex; auto.
          apply existsb_eqb_in in Hex. apply DictFacts.mem_in_keys in Hex.
          congruence. }
        rewrite Hex, <- app_assoc. reflexivity.
    + intros n Hn.
      destruct (in_dec string_dec n rest) as [Hrest | Hrest]; [now apply Hvals | ].
      destruct Hn as [<- | Hn]; [ | contradiction].
      exists r. split; [assumption | ].
      rewrite (Hother a Hrest). apply DictFacts.get_set_same.
    + intros n Hn. simpl in Hn.
      rewrite Hother by tauto.
      apply DictFacts.get_set_other. intros ->. tauto.
Qed.

(** The loop fails only where [calculate_scenario_cost] does. *)
Lemma compare_loop_succeeds (names : list string) :
  (forall n, In n names -> In n scenario_names) ->
  forall results, exists out, compare_loop names results = Ok out.
Proof.
  induction names as [ | a rest IH]; intros Hall results; simpl.
  - eauto.
  - destruct (recognized_scenario_ok a) as (r & -> & _); [apply Hall; simpl; auto | ].
    cbn [bind]. apply IH. intros n Hn. apply Hall. simpl; auto.
Qed.

(** C9. When [compare_scenarios] returns, the keys of its result are the
    names of the input list in order of first occurrence (the list itself
    when it has no repetition), a name is a key exactly when it is in the
    list, and under each name sits the result [calculate_scenario_cost]
    returns for that name on its own. *)
Theorem compare_scenarios_maps_each_name
    (names : list string) (results : Dict.t ScenarioResult) :
  compare_scenarios names = Ok results ->
  Dict.keys results = first_occurrences names /\
  (NoDup names -> Dict.keys results = names) /\
  (forall n, In n (Dict.keys results) <-> In n names) /\
  (forall n, In n names ->
     exists r, calculate_scenario_cost n = Ok r /\ Dict.get n results = Some r).
Proof.
  unfold compare_scenarios. intros H.
  destruct (compare_loop_spec names Dict.empty results H) as (Hkeys & Hvals & _).
  simpl in Hkeys. fold (first_occurrences names) in Hkeys.
  split; [exact Hkeys | split; [ | split; [ | exact Hvals] ] ].
  - intros Hnd. rewrite Hkeys. unfold first_occurrences.
    apply fresh_names_nodup; [exact Hnd | intros n _ []].
  - intros n. rewrite Hkeys. unfold first_occurrences.
    rewrite fresh_names_in. simpl. tauto.
Qed.

Lemma production_evaluates : calculate_scenario_cost "production" = Ok production_result.
Proof. vm_compute. reflexivity. Qed.

Lemma compare_scenarios_maps_each_name_demo_production :
  let results := [("demo", demo_result); ("production", production_result)] in
  compare_scenarios ["demo"; "production"] = Ok results /\
  Dict.keys results = first_occurrences ["demo"; "production"] /\
  (NoDup ["demo"; "production"] -> Dict.keys results = ["demo"; "production"]) /\
  (forall n, In n (Dict.keys results) <-> In n ["demo"; "production"]) /\
  (forall n, In n ["demo"; "production"] ->
     exists r, calculate_scenario_cost n = Ok r /\ Dict.get n results = Some r).
Proof.
  intros results.
  assert (H : compare_scenarios ["demo"; "production"] = Ok results)
    by (vm_compute; reflexivity).
  split; [exact H | ].
  exact (compare_scenarios_maps_each_name ["demo"; "production"] results H).
Defined.

(** * Further properties of the engine *)

(** ** Signs and exceptions of the arithmetic *)

Module FloatSigns.

Lemma of_int_raises (n : Z) (e : exn) :
  Float.of_int n = Raise e -> e = OverflowError.
Proof.
  unfold Float.of_int.
  destruct (binary_normalize Float.prec Float.emax n 0 false); intros H;
    now inversion H.
Qed.

Lemma binary_round_aux_opp (s : bool) (m e : Z) (l : location) :
  binary_round_aux Float.prec Float.emax (negb s) m e l
    = SFopp (binary_round_aux Float.prec Float.emax s m e l).
Proof.
  unfold binary_round_aux.
  destruct (shr_fexp Float.prec Float.emax m e l) as [r1 e1].
  destruct (shr_fexp Float.prec Float.emax _ e1 loc_Exact) as [r2 e2].
  destruct (shr_m r2); try reflexivity.
  destruct (e2 <=? Float.emax - Float.prec); reflexivity.
Qed.

Lemma mul_opp_r (x y : float) : Float.mul x (SFopp y) = SFopp (Float.mul x y).
Proof.
  unfold Float.mul, SFmul.
  destruct x as [sx | sx | | sx mx ex], y as [sy | sy | | sy my ey]; simpl;
    try reflexivity; try (now rewrite negb_xorb_r).
  now rewrite <- negb_xorb_r, binary_round_aux_opp.
Qed.

Lemma mul_opp_l (x y : float) : Float.mul (SFopp x) y = SFopp (Float.mul x y).
Proof.
  now rewrite FloatFacts.mul_comm, mul_opp_r, FloatFacts.mul_comm.
Qed.

(** [float(-n)] is [-float(n)] for [n <> 0]. *)
Lemma of_int_opp (n : Z) :
  n <> 0 -> Float.of_int (- n) = negated (Float.of_int n).
Proof.
  intros Hn. unfold negated, Float.of_int, binary_normalize, binary_round.
  destruct n as [ | p | p]; [congruence | | ]; simpl Z.opp; cbv iota.
  - destruct (shl_align p 0 _) as [mz ez].
    change true with (negb false). rewrite binary_round_aux_opp.
    destruct (binary_round_aux Float.prec Float.emax false (Z.pos mz) ez loc_Exact);
      reflexivity.
  - destruct (shl_align p 0 _) as [mz ez].
    change false with (negb true). rewrite binary_round_aux_opp.
    destruct (binary_round_aux Float.prec Float.emax true (Z.pos mz) ez loc_Exact);
      reflexivity.
Qed.

Lemma mul_signed_ext (s s' : bool) (x : float) (m : positive) (e : Z) :
  signed_ext s x -> signed_ext (xorb s s') (Float.mul x (S754_finite s' m e)).
Proof.
  intros [Hx | ->].
  - now apply FloatFacts.mul_signed.
  - right; reflexivity.
Qed.

Lemma mul_signed_signed (s s' : bool) (x y : float) :
  signed s x -> signed s' y -> signed_ext (xorb s s') (Float.mul x y).
Proof.
  intros Hx [-> | (m & e & ->)].
  - destruct Hx as [-> | (mx & ex & ->)]; left; left; reflexivity.
  - now apply FloatFacts.mul_signed.
Qed.

Lemma div_core_nonneg (m1 m2 : positive) (e1 e2 : Z) :
  0 <= fst (fst (SFdiv_core_binary Float.prec Float.emax (Z.pos m1) e1 (Z.pos m2) e2)).
Proof.
  unfold SFdiv_core_binary.
  set (s := e1 - e2 - _).
  set (m' := match s with Z.pos _ => Z.shiftl (Z.pos m1) s | 0 => Z.pos m1 | Z.neg _ => 0 end).
  assert (Hm' : 0 <= m').
  { subst m'. destruct s; try lia. apply Z.shiftl_nonneg. lia. }
  pose proof (Z.div_pos m' (Z.pos m2) Hm' ltac:(lia)) as Hq.
  unfold Z.div in Hq.
  destruct (Z.div_eucl m' (Z.pos m2)) as [q r]. exact Hq.
Qed.

Lemma div_finite_signed (s s' : bool) (x : float) (m : positive) (e : Z) :
  signed_ext s x ->
  exists y, Float.div x (S754_finite s' m e) = Ok y /\ signed_ext (xorb s s') y.
Proof.
  intros Hx. unfold Float.div. eexists; split; [reflexivity | ].
  destruct Hx as [[-> | (mx & ex & ->)] | ->].
  - left; left; reflexivity.
  - unfold SFdiv.
    pose proof (div_core_nonneg mx m ex e) as Hq.
    destruct (SFdiv_core_binary Float.prec Float.emax (Z.pos mx) ex (Z.pos m) e)
      as [[mz ez] lz]; simpl in Hq.
    now apply FloatFacts.binary_round_aux_signed.
  - right; reflexivity.
Qed.

Lemma add_signed_ext (x y : float) :
  signed_ext false x -> signed_ext false y -> signed_ext false (Float.add x y).
Proof.
  intros [[-> | (mx & ex & ->)] | ->] [[-> | (my & ey & ->)] | ->];
    unfold Float.add, SFadd;
    try (left; left; reflexivity);
    try (left; right; eauto; fail);
    try (right; reflexivity).
  unfold binary_normalize, cond_Zopp. simpl Z.add. unfold binary_round.
  destruct (shl_align _ _ _) as [mz ez].
  apply FloatFacts.binary_round_aux_signed. lia.
Qed.

Lemma int_truediv_raises (a b : Z) (e : exn) :
  b <> 0 -> Float.int_truediv a b = Raise e -> e = OverflowError.
Proof.
  intros Hb. unfold Float.int_truediv.
  destruct b; [congruence | | ];
    (destruct a; [discriminate | | ];
     match goal with
     | |- context [SFdiv ?p ?q ?x ?y] => destruct (SFdiv p q x y)
     end; intros H; now inversion H).
Qed.

Lemma int_truediv_signed (a b : Z) (x : float) :
  Float.int_truediv a b = Ok x -> signed (xorb (a <? 0) (b <? 0)) x.
Proof.
  unfold Float.int_truediv.
  destruct b as [ | pb | pb]; [discriminate | | ];
    (destruct a as [ | pa | pa];
     [ intros H; inversion H; left; reflexivity | | ]);
    unfold SFdiv, Float.exact;
    match goal with
    | |- context [SFdiv_core_binary ?p ?q (Z.pos ?m1) ?e1 (Z.pos ?m2) ?e2] =>
      pose proof (div_core_nonneg m1 m2 e1 e2) as Hq;
      destruct (SFdiv_core_binary p q (Z.pos m1) e1 (Z.pos m2) e2) as [[mz ez] lz];
      simpl in Hq
    end;
    match goal with
    | |- context [binary_round_aux ?p ?q ?s ?m ?e ?l] =>
      destruct (FloatFacts.binary_round_aux_signed s m e l Hq) as [Hs | Hi];
      [ destruct Hs as [-> | (m' & e' & ->)]; intros H; inversion H; subst;
        [left; reflexivity | right; eauto]
      | rewrite Hi; discriminate ]
    end.
Qed.

(** The quotient of two exact integers keeps the dividend's top bit as a
    bound. *)
Lemma div_core_bound (m1 m2 : positive) :
  let r := SFdiv_core_binary Float.prec Float.emax (Z.pos m1) 0 (Z.pos m2) 0 in
  0 <= fst (fst r) /\ snd (fst r) <= 0 /\
  Zdigits2 (fst (fst r)) + snd (fst r) <= Z.pos (digits2_pos m1).
Proof.
  cbv zeta. pose proof (div_core_nonneg m1 m2 0 0) as Hq. revert Hq.
  unfold SFdiv_core_binary.
  set (e' := Z.min _ (0 - 0)).
  assert (He' : e' <= 0) by (subst e'; lia).
  set (s := 0 - 0 - e').
  set (m' := match s with Z.pos _ => Z.shiftl (Z.pos m1) s | 0 => Z.pos m1 | Z.neg _ => 0 end).
  assert (Hm' : m' = Z.pos m1 * 2 ^ s).
  { subst m'. destruct s eqn:Hs; [simpl; lia | | lia].
    rewrite Z.shiftl_mul_pow2 by lia. reflexivity. }
  assert (Hs : 0 <= s) by (subst s; lia).
  pose proof (Z.pow_pos_nonneg 2 s ltac:(lia) Hs) as Hpow.
  assert (Hdiv : m' / Z.pos m2 <= m').
  { apply Z.div_le_upper_bound; [lia | nia]. }
  unfold Z.div in Hdiv.
  destruct (Z.div_eucl m' (Z.pos m2)) as [q r]. cbn [fst snd] in *.
  intros Hq. split; [exact Hq | split; [exact He' | ] ].
  destruct (FloatFacts.digits2_pos_bounds m1) as [_ Hup].
  assert (Hle : Zdigits2 q <= Z.pos (digits2_pos m1) + s).
  { apply FloatFacts.Zdigits2_le; [lia | lia | ].
    rewrite Z.pow_add_r by lia. nia. }
  subst s. lia.
Qed.

(** [a / b] on [int]s returns whenever [b] is not zero and [a] is below
    [2^1023] in magnitude. *)
Lemma int_truediv_in_range (a b : Z) :
  b <> 0 -> Z.abs a < 2 ^ 1023 -> exists x, Float.int_truediv a b = Ok x.
Proof.
  intros Hb Ha. unfold Float.int_truediv.
  destruct b as [ | pb | pb]; [congruence | | ];
    (destruct a as [ | pa | pa]; [eauto | | ]);
    unfold SFdiv, Float.exact;
    match goal with
    | |- context [SFdiv_core_binary _ _ (Z.pos ?m1) 0 (Z.pos ?m2) 0] =>
      pose proof (div_core_bound m1 m2) as Hc; cbv zeta in Hc;
      assert (Hd : Z.pos (digits2_pos m1) <= 1023)
        by (apply (FloatFacts.Zdigits2_le (Z.pos m1)); simpl in Ha; lia);
      destruct (SFdiv_core_binary Float.prec Float.emax (Z.pos m1) 0 (Z.pos m2) 0)
        as [[mz ez] lz]; cbn [fst snd] in Hc
    end;
    match goal with
    | |- context [binary_round_aux _ _ ?s ?m ?e ?l] =>
      destruct (FloatFacts.binary_round_aux_finite s m e l) as [-> | (m' & e' & ->)];
        [lia | lia | lia | eauto | eauto]
    end.
Qed.

End FloatSigns.

(** ** The pricing table *)

Lemma dict_get_in {V : Type} (k : string) (v : V) (d : Dict.t V) :
  Dict.get k d = Some v -> In (k, v) d.
Proof.
  induction d as [ | [k' v'] d IH]; simpl.
  - discriminate.
  - destruct (String.eqb_spec k k') as [-> | _].
    + intros H; inversion H. now left.
    + intros H. right. now apply IH.
Qed.

Lemma pricing_all_positive :
  forallb (fun table => forallb (fun entry => positive_finite (snd entry)) (snd table))
          pricing = true.
Proof. vm_compute. reflexivity. Qed.

(** Every price in the table is a positive finite double. *)
Lemma price_positive (category sku : string) (p : float) :
  price category sku = Ok p -> exists m e, p = S754_finite false m e.
Proof.
  unfold price, Dict.item.
  destruct (Dict.get category pricing) as [table | ] eqn:Ht; cbn [bind]; [ | discriminate].
  destruct (Dict.get sku table) as [q | ] eqn:Hq; [ | discriminate].
  intros H; inversion H; subst q; clear H.
  pose proof pricing_all_positive as Hall.
  rewrite forallb_forall in Hall.
  specialize (Hall _ (dict_get_in _ _ _ Ht)). cbn [snd] in Hall.
  rewrite forallb_forall in Hall.
  specialize (Hall _ (dict_get_in _ _ _ Hq)). cbn [snd] in Hall.
  destruct p as [ | | | [ | ] m e]; try discriminate Hall. eauto.
Qed.

Lemma gke_price_known (machine_type : string) :
  In machine_type gke_machine_types ->
  exists p, price "gke" machine_type = Ok p.
Proof.
  simpl. intros [<- | [<- | [<- | [<- | [] ] ] ] ]; eexists; reflexivity.
Qed.

Lemma gke_price_unknown (machine_type : string) :
  ~ In machine_type gke_machine_types ->
  price "gke" machine_type = Raise (KeyError machine_type).
Proof.
  intros Hn. unfold price, pricing, Dict.item.
  cbn [Dict.get String.eqb Ascii.eqb Bool.eqb bind].
  repeat match goal with
         | |- context [String.eqb machine_type ?k] =>
           destruct (String.eqb_spec machine_type k) as [-> | _];
             [exfalso; apply Hn; simpl; tauto | ]
         end.
  reflexivity.
Qed.

Lemma cloud_sql_price_known (machine_type : string) :
  In machine_type cloud_sql_machine_types ->
  exists p, price "cloud_sql" machine_type = Ok p.
Proof.
  simpl. intros [<- | [<- | [<- | [<- | [<- | [] ] ] ] ] ]; eexists; reflexivity.
Qed.

Lemma cloud_sql_price_unknown (machine_type : string) :
  ~ In machine_type cloud_sql_machine_types ->
  price "cloud_sql" machine_type = Raise (KeyError machine_type).
Proof.
  intros Hn. unfold price, pricing, Dict.item.
  cbn [Dict.get String.eqb Ascii.eqb Bool.eqb bind].
  repeat match goal with
         | |- context [String.eqb machine_type ?k] =>
           destruct (String.eqb_spec machine_type k) as [-> | _];
             [exfalso; apply Hn; simpl; tauto | ]
         end.
  reflexivity.
Qed.

(** ** Compute nodes: errors, signs, edge cases *)

(** X1. A machine type that is not in the table makes [calculate_gke_cost]
    raise [KeyError] with that name, whatever the node count (even one too
    large for a double) and the preemptible flag: the lookup comes first and
    never falls back to a price of zero. *)
Theorem gke_unknown_machine_type
    (machine_type : string) (node_count : Z) (preemptible : bool) :
  ~ In machine_type gke_machine_types ->
  calculate_gke_cost machine_type node_count preemptible
    = Raise (KeyError machine_type).
Proof.
  intros Hn. unfold calculate_gke_cost.
  now rewrite (gke_price_unknown machine_type Hn).
Qed.

Lemma gke_unknown_machine_type_n1 :
  ~ In "n1-standard-1" gke_machine_types /\
  calculate_gke_cost "n1-standard-1" (2 ^ 1024) true
    = Raise (KeyError "n1-standard-1").
Proof.
  assert (H : ~ In "n1-standard-1" gke_machine_types).
  { simpl. intros [H | [H | [H | [H | [] ] ] ] ]; discriminate H. }
  split; [exact H | ].
  exact (gke_unknown_machine_type "n1-standard-1" (2 ^ 1024) true H).
Defined.

(** X2. [calculate_gke_cost] fails in two ways only: [KeyError] for a
    machine type outside the table, [OverflowError] for a known machine type
    with a node count of magnitude [2^1023] or more. *)
Theorem gke_failure_modes
    (machine_type : string) (node_count : Z) (preemptible : bool) (e : exn) :
  calculate_gke_cost machine_type node_count preemptible = Raise e ->
  (e = KeyError machine_type /\ ~ In machine_type gke_machine_types) \/
  (e = OverflowError /\ In machine_type gke_machine_types /\
   2 ^ 1023 <= Z.abs node_count).
Proof.
  intros H.
  destruct (in_dec string_dec machine_type gke_machine_types) as [Hin | Hout].
  - right. destruct (gke_price_known machine_type Hin) as (p & Hp).
    unfold calculate_gke_cost in H. rewrite Hp in H. cbn [bind] in H.
    unfold mul_float_int in H.
    destruct (Float.of_int node_count) as [count | e'] eqn:Hc; cbn [bind] in H.
    + destruct preemptible; discriminate H.
    + inversion H; subst e'. split; [exact (FloatSigns.of_int_raises _ _ Hc) | ].
      split; [exact Hin | ].
      destruct (Z_lt_le_dec (Z.abs node_count) (2 ^ 1023)) as [Hlt | Hge];
        [ | exact Hge].
      destruct (FloatFacts.of_int_in_range node_count Hlt) as (x & Hx). congruence.
  - left. unfold calculate_gke_cost in H.
    rewrite (gke_price_unknown machine_type Hout) in H.
    inversion H. split; [reflexivity | exact Hout].
Qed.

Lemma gke_failure_modes_overflow :
  calculate_gke_cost "e2-small" (2 ^ 1024) false = Raise OverflowError /\
  ((OverflowError = KeyError "e2-small" /\ ~ In "e2-small" gke_machine_types) \/
   (OverflowError = OverflowError /\ In "e2-small" gke_machine_types /\
    2 ^ 1023 <= Z.abs (2 ^ 1024))).
Proof.
  assert (H : calculate_gke_cost "e2-small" (2 ^ 1024) false = Raise OverflowError)
    by (vm_compute; reflexivity).
  split; [exact H | ].
  exact (gke_failure_modes "e2-small" (2 ^ 1024) false OverflowError H).
Defined.

(** X3. For a non-negative node count the node cost is never negative and
    never NaN: it is [+0.0], a positive finite double or [+inf]. *)
Theorem gke_cost_not_negative
    (machine_type : string) (node_count : Z) (preemptible : bool) (cost : float) :
  0 <= node_count ->
  calculate_gke_cost machine_type node_count preemptible = Ok cost ->
  signed_ext false cost.
Proof.
  intros Hn. unfold calculate_gke_cost. intros H. bind_ok H. rename a into p.
  destruct (price_positive _ _ _ E) as (m & e & ->).
  bind_ok H. rename a into base.
  unfold mul_float_int in E0. bind_ok E0. rename a into count.
  apply FloatFacts.of_int_signed in E1.
  replace (node_count <? 0) with false in E1 by (symmetry; apply Z.ltb_ge; lia).
  rewrite FloatFacts.mul_comm in E0. inversion E0; subst base.
  pose proof (FloatFacts.mul_signed false false count m e E1) as Hbase.
  destruct preemptible; inversion H; subst cost; [ | exact Hbase].
  destruct PriceFacts.lit_fifth as (m2 & e2 & ->).
  exact (FloatSigns.mul_signed_ext false false _ m2 e2 Hbase).
Qed.

Lemma gke_cost_not_negative_staging :
  0 <= 2 /\
  calculate_gke_cost "e2-medium" 2 false = Ok (Float.lit 9710 2) /\
  signed_ext false (Float.lit 9710 2).
Proof.
  assert (H : calculate_gke_cost "e2-medium" 2 false = Ok (Float.lit 9710 2))
    by (vm_compute; reflexivity).
  split; [lia | split; [exact H | ] ].
  apply (gke_cost_not_negative "e2-medium" 2 false (Float.lit 9710 2)); [lia | exact H].
Defined.

(** X4. A negative node count is not rejected: the cost of [-n] nodes is the
    cost of [n] nodes with the sign flipped, and fails exactly when that one
    does. *)
Theorem gke_cost_negative_count
    (machine_type : string) (node_count : Z) (preemptible : bool) :
  node_count <> 0 ->
  calculate_gke_cost machine_type (- node_count) preemptible
    = negated (calculate_gke_cost machine_type node_count preemptible).
Proof.
  intros Hn. unfold calculate_gke_cost, negated.
  destruct (price "gke" machine_type) as [p | e]; cbn [bind]; [ | reflexivity].
  unfold mul_float_int. rewrite (FloatSigns.of_int_opp node_count Hn). unfold negated.
  destruct (Float.of_int node_count) as [count | e]; cbn [bind]; [ | reflexivity].
  rewrite FloatSigns.mul_opp_r.
  destruct preemptible; cbn [bind]; [ | reflexivity].
  now rewrite FloatSigns.mul_opp_l.
Qed.

Lemma gke_cost_negative_count_3 :
  3 <> 0 /\
  calculate_gke_cost "e2-standard-2" (- 3) false
    = negated (calculate_gke_cost "e2-standard-2" 3 false).
Proof.
  split; [lia | ].
  apply (gke_cost_negative_count "e2-standard-2" 3 false). lia.
Defined.

(** X5. No nodes cost [+0.0] for every machine type of the table, preemptible
    or not. *)
Theorem gke_cost_no_nodes (machine_type : string) (preemptible : bool) :
  In machine_type gke_machine_types ->
  calculate_gke_cost machine_type 0 preemptible = Ok Float.zero.
Proof.
  simpl. intros [<- | [<- | [<- | [<- | [] ] ] ] ]; destruct preemptible;
    vm_compute; reflexivity.
Qed.

Lemma gke_cost_no_nodes_e2_small :
  In "e2-small" gke_machine_types /\
  calculate_gke_cost "e2-small" 0 true = Ok Float.zero.
Proof.
  assert (H : In "e2-small" gke_machine_types) by (simpl; tauto).
  split; [exact H | ].
  exact (gke_cost_no_nodes "e2-small" true H).
Defined.


(** ** Managed database: errors, signs, edge cases *)

(** X6. A database machine type that is not in the table makes
    [calculate_cloud_sql_cost] raise [KeyError] with that name, whatever the
    sizes and the HA flag. *)
Theorem cloud_sql_unknown_machine_type
    (machine_type : string) (storage_gb backup : Z) (ha : bool) :
  ~ In machine_type cloud_sql_machine_types ->
  calculate_cloud_sql_cost machine_type storage_gb ha backup
    = Raise (KeyError machine_type).
Proof.
  intros Hn. unfold calculate_cloud_sql_cost.
  now rewrite (cloud_sql_price_unknown machine_type Hn).
Qed.

Lemma cloud_sql_unknown_machine_type_gke_name :
  ~ In "e2-small" cloud_sql_machine_types /\
  calculate_cloud_sql_cost "e2-small" (2 ^ 1024) true 0
    = Raise (KeyError "e2-small").
Proof.
  assert (H : ~ In "e2-small" cloud_sql_machine_types).
  { simpl. intros [H | [H | [H | [H | [H | [] ] ] ] ] ]; discriminate H. }
  split; [exact H | ].
  exact (cloud_sql_unknown_machine_type "e2-small" (2 ^ 1024) 0 true H).
Defined.

(** X7. [calculate_cloud_sql_cost] fails in two ways only: [KeyError] for a
    machine type outside the table, [OverflowError] for a known machine type
    with a storage or backup size of magnitude [2^1023] or more. *)
Theorem cloud_sql_failure_modes
    (machine_type : string) (storage_gb backup : Z) (ha : bool) (e : exn) :
  calculate_cloud_sql_cost machine_type storage_gb ha backup = Raise e ->
  (e = KeyError machine_type /\ ~ In machine_type cloud_sql_machine_types) \/
  (e = OverflowError /\ In machine_type cloud_sql_machine_types /\
   (2 ^ 1023 <= Z.abs storage_gb \/ 2 ^ 1023 <= Z.abs backup)).
Proof.
  intros H.
  destruct (in_dec string_dec machine_type cloud_sql_machine_types) as [Hin | Hout].
  - right. destruct (cloud_sql_price_known machine_type Hin) as (p & Hp).
    rewrite (cloud_sql_cost_unfold _ _ _ _ p Hp) in H.
    unfold mul_int_float in H.
    destruct (Float.of_int storage_gb) as [fs | e1] eqn:Hs; cbn [bind] in H.
    + destruct (Float.of_int backup) as [fb | e2] eqn:Hb; cbn [bind] in H;
        [discriminate H | ].
      inversion H; subst e2. split; [exact (FloatSigns.of_int_raises _ _ Hb) | ].
      split; [exact Hin | right].
      destruct (Z_lt_le_dec (Z.abs backup) (2 ^ 1023)) as [Hlt | Hge]; [ | exact Hge].
      destruct (FloatFacts.of_int_in_range backup Hlt) as (x & Hx). congruence.
    + inversion H; subst e1. split; [exact (FloatSigns.of_int_raises _ _ Hs) | ].
      split; [exact Hin | left].
      destruct (Z_lt_le_dec (Z.abs storage_gb) (2 ^ 1023)) as [Hlt | Hge];
        [ | exact Hge].
      destruct (FloatFacts.of_int_in_range storage_gb Hlt) as (x & Hx). congruence.
  - left. unfold calculate_cloud_sql_cost in H.
    rewrite (cloud_sql_price_unknown machine_type Hout) in H.
    inversion H. split; [reflexivity | exact Hout].
Qed.

Lemma cloud_sql_failure_modes_backup :
  calculate_cloud_sql_cost "db-g1-small" 10 false (2 ^ 1024) = Raise OverflowError /\
  ((OverflowError = KeyError "db-g1-small" /\
    ~ In "db-g1-small" cloud_sql_machine_types) \/
   (OverflowError = OverflowError /\ In "db-g1-small" cloud_sql_machine_types /\
    (2 ^ 1023 <= Z.abs 10 \/ 2 ^ 1023 <= Z.abs (2 ^ 1024)))).
Proof.
  assert (H : calculate_cloud_sql_cost "db-g1-small" 10 false (2 ^ 1024)
              = Raise OverflowError) by (vm_compute; reflexivity).
  split; [exact H | ].
  exact (cloud_sql_failure_modes "db-g1-small" 10 (2 ^ 1024) false OverflowError H).
Defined.

(** X8. For non-negative storage and backup sizes the database cost is
    never negative and never NaN. *)
Theorem cloud_sql_cost_not_negative
    (machine_type : string) (storage_gb backup : Z) (ha : bool) (cost : float) :
  0 <= storage_gb -> 0 <= backup ->
  calculate_cloud_sql_cost machine_type storage_gb ha backup = Ok cost ->
  signed_ext false cost.
Proof.
  intros Hs Hb H.
  destruct (price "cloud_sql" machine_type) as [base | e] eqn:Hp;
    [ | unfold calculate_cloud_sql_cost in H; rewrite Hp in H; discriminate H].
  rewrite (cloud_sql_cost_unfold _ _ _ _ base Hp) in H.
  destruct (price_positive _ _ _ Hp) as (mb & eb & ->).
  unfold mul_int_float in H.
  destruct (Float.of_int storage_gb) as [fs | ] eqn:E; [ | discriminate H].
  destruct (Float.of_int backup) as [fb | ] eqn:E0; [ | discriminate H].
  cbn [bind] in H.
  apply FloatFacts.of_int_signed in E, E0.
  replace (storage_gb <? 0) with false in E by (symmetry; apply Z.ltb_ge; lia).
  replace (backup <? 0) with false in E0 by (symmetry; apply Z.ltb_ge; lia).
  inversion H; subst cost; clear H.
  destruct (price_positive _ _ _ PriceFacts.cloud_sql_ssd) as (m1 & e1 & ->).
  destruct PriceFacts.lit_backup_rate as (m2 & e2 & ->).
  apply FloatSigns.add_signed_ext; [apply FloatSigns.add_signed_ext | ].
  - destruct ha.
    + assert (Hbase : signed false (S754_finite false mb eb)) by (right; eauto).
      exact (FloatFacts.mul_signed false false _ 0x10000000000000 (-51) Hbase).
    + left; right; eauto.
  - exact (FloatFacts.mul_signed false false fs m1 e1 E).
  - apply (FloatSigns.mul_signed_ext false false).
    exact (FloatFacts.mul_signed false false fb m1 e1 E0).
Qed.

Lemma cloud_sql_cost_not_negative_demo :
  0 <= 20 /\ 0 <= 5 /\
  calculate_cloud_sql_cost "db-f1-micro" 20 false 5 = Ok (Float.lit 18468 3) /\
  signed_ext false (Float.lit 18468 3).
Proof.
  assert (H : calculate_cloud_sql_cost "db-f1-micro" 20 false 5 = Ok (Float.lit 18468 3))
    by (vm_compute; reflexivity).
  split; [lia | split; [lia | split; [exact H | ] ] ].
  apply (cloud_sql_cost_not_negative "db-f1-micro" 20 5 false (Float.lit 18468 3));
    [lia | lia | exact H].
Defined.

(** X9. With no storage and no backup the database cost is exactly the
    machine type's price, or exactly twice that price with HA. *)
Theorem cloud_sql_cost_compute_only (machine_type : string) (ha : bool) (base : float) :
  price "cloud_sql" machine_type = Ok base ->
  calculate_cloud_sql_cost machine_type 0 ha 0
    = Ok (if ha then Float.mul base float_two else base).
Proof.
  intros Hp. rewrite (cloud_sql_cost_unfold _ _ _ _ base Hp).
  destruct (price_positive _ _ _ Hp) as (mb & eb & ->).
  change (mul_int_float 0 (Float.lit 17 2)) with (Ok (Float.mul Float.zero (Float.lit 17 2))).
  cbn [bind].
  destruct (price_positive _ _ _ PriceFacts.cloud_sql_ssd) as (m1 & e1 & ->).
  destruct PriceFacts.lit_backup_rate as (m2 & e2 & ->).
  unfold Float.zero. rewrite !FloatFacts.mul_zero_finite. cbn [xorb].
  f_equal. destruct ha.
  - destruct (FloatFacts.mul_signed false false (S754_finite false mb eb) 0x10000000000000 (-51))
      as [[Hz | (m & e & Hf)] | Hi]; [right; eauto | | | ];
      unfold float_two; cbn [xorb] in *.
    + rewrite Hz. reflexivity.
    + rewrite Hf. reflexivity.
    + rewrite Hi. reflexivity.
  - reflexivity.
Qed.

Lemma cloud_sql_cost_compute_only_small :
  price "cloud_sql" "db-g1-small" = Ok (Float.lit 5000 2) /\
  calculate_cloud_sql_cost "db-g1-small" 0 true 0
    = Ok (Float.mul (Float.lit 5000 2) float_two).
Proof.
  split; [reflexivity | ].
  apply (cloud_sql_cost_compute_only "db-g1-small" true (Float.lit 5000 2)).
  reflexivity.
Defined.

(** ** Serverless: errors and signs *)

Lemma of_int_one : Float.of_int 1 = Ok (S754_finite false 0x10000000000000 (-52)).
Proof. vm_compute. reflexivity. Qed.

Lemma div_float_int_1024 (x : float) :
  div_float_int x 1024
    = Ok (SFdiv Float.prec Float.emax x (S754_finite false 0x10000000000000 (-42))).
Proof.
  unfold div_float_int.
  replace (Float.of_int 1024) with (@Ok float (S754_finite false 0x10000000000000 (-42)))
    by (vm_compute; reflexivity).
  reflexivity.
Qed.

(** The steps of [calculate_cloud_run_cost], once it has returned. *)
Lemma cloud_run_cost_steps
    (requests_per_month avg_cpu_time_ms avg_memory_mb min_instances : Z) (cost : float) :
  calculate_cloud_run_cost requests_per_month avg_cpu_time_ms avg_memory_mb min_instances
    = Ok cost ->
  exists millions cpu_seconds mem count,
    Float.int_truediv requests_per_month 1000000 = Ok millions /\
    Float.int_truediv (requests_per_month * avg_cpu_time_ms) 1000 = Ok cpu_seconds /\
    Float.of_int avg_memory_mb = Ok mem /\
    Float.of_int min_instances = Ok count /\
    cost =
      Float.add
        (Float.add
           (Float.add
              (Float.mul millions (Float.lit 40 2))
              (Float.mul
                 (Float.mul cpu_seconds (S754_finite false 0x10000000000000 (-52)))
                 (Float.lit 24 6)))
           (Float.mul
              (SFdiv Float.prec Float.emax (Float.mul cpu_seconds mem)
                     (S754_finite false 0x10000000000000 (-42)))
              (Float.lit 25 7)))
        (Float.mul count (Float.lit 876 2)).
Proof.
  unfold calculate_cloud_run_cost.
  rewrite PriceFacts.requests, PriceFacts.cpu_time, PriceFacts.memory_time,
    PriceFacts.min_instances.
  intros H. bind_ok H. rename a into millions. cbn [bind] in H.
  bind_ok H. rename a into cpu_seconds.
  unfold mul_float_int at 1 in H. rewrite of_int_one in H. cbn [bind] in H.
  unfold mul_float_int in H.
  destruct (Float.of_int avg_memory_mb) as [mem | ] eqn:Hmem; [ | discriminate H].
  cbn [bind] in H. rewrite div_float_int_1024 in H. cbn [bind] in H.
  unfold mul_int_float in H.
  destruct (Float.of_int min_instances) as [count | ] eqn:Hcount; [ | discriminate H].
  cbn [bind] in H. inversion H.
  exists millions, cpu_seconds, mem, count. repeat split; assumption.
Qed.

(** X10. [calculate_cloud_run_cost] raises nothing but [OverflowError]: no
    lookup of its own can miss and it never divides by zero. *)
Theorem cloud_run_raises_only_overflow
    (requests_per_month avg_cpu_time_ms avg_memory_mb min_instances : Z) (e : exn) :
  calculate_cloud_run_cost requests_per_month avg_cpu_time_ms avg_memory_mb min_instances
    = Raise e ->
  e = OverflowError.
Proof.
  unfold calculate_cloud_run_cost.
  rewrite PriceFacts.requests, PriceFacts.cpu_time, PriceFacts.memory_time,
    PriceFacts.min_instances.
  intros H.
  destruct (Float.int_truediv requests_per_month 1000000) as [millions | e1] eqn:H1;
    cbn [bind] in H;
    [ | inversion H; subst e1; eapply FloatSigns.int_truediv_raises; [ | exact H1]; lia].
  destruct (Float.int_truediv (requests_per_month * avg_cpu_time_ms) 1000)
    as [cpu_seconds | e2] eqn:H2; cbn [bind] in H;
    [ | inversion H; subst e2; eapply FloatSigns.int_truediv_raises; [ | exact H2]; lia].
  unfold mul_float_int at 1 in H. rewrite of_int_one in H. cbn [bind] in H.
  unfold mul_float_int in H.
  destruct (Float.of_int avg_memory_mb) as [mem | e3] eqn:H3; cbn [bind] in H;
    [ | inversion H; subst e3; exact (FloatSigns.of_int_raises _ _ H3)].
  rewrite div_float_int_1024 in H. cbn [bind] in H.
  unfold mul_int_float in H.
  destruct (Float.of_int min_instances) as [count | e4] eqn:H4; cbn [bind] in H;
    [discriminate H | ].
  inversion H; subst e4. exact (FloatSigns.of_int_raises _ _ H4).
Qed.

Lemma cloud_run_raises_only_overflow_huge :
  calculate_cloud_run_cost (2 ^ 1040) 1 1 0 = Raise OverflowError /\
  OverflowError = OverflowError.
Proof.
  assert (H : calculate_cloud_run_cost (2 ^ 1040) 1 1 0 = Raise OverflowError)
    by (vm_compute; reflexivity).
  split; [exact H | ].
  exact (cloud_run_raises_only_overflow (2 ^ 1040) 1 1 0 OverflowError H).
Defined.

(** X11. [calculate_cloud_run_cost] returns a cost whenever the request
    count, the product of requests and CPU time, the memory and the number
    of reserved instances are all below [2^1023] in magnitude. *)
Theorem cloud_run_returns_in_range
    (requests_per_month avg_cpu_time_ms avg_memory_mb min_instances : Z) :
  Z.abs requests_per_month < 2 ^ 1023 ->
  Z.abs (requests_per_month * avg_cpu_time_ms) < 2 ^ 1023 ->
  Z.abs avg_memory_mb < 2 ^ 1023 ->
  Z.abs min_instances < 2 ^ 1023 ->
  exists cost,
    calculate_cloud_run_cost requests_per_month avg_cpu_time_ms avg_memory_mb
                             min_instances = Ok cost.
Proof.
  intros Hr Hrc Hm Hk. unfold calculate_cloud_run_cost.
  rewrite PriceFacts.requests, PriceFacts.cpu_time, PriceFacts.memory_time,
    PriceFacts.min_instances.
  assert (Hmillion : 1000000 <> 0) by lia.
  assert (Hthousand : 1000 <> 0) by lia.
  destruct (FloatSigns.int_truediv_in_range requests_per_month 1000000 Hmillion Hr)
    as (millions & ->).
  destruct (FloatSigns.int_truediv_in_range _ 1000 Hthousand Hrc) as (cpu_seconds & ->).
  cbn [bind]. unfold mul_float_int at 1. rewrite of_int_one. cbn [bind].
  unfold mul_float_int.
  destruct (FloatFacts.of_int_in_range avg_memory_mb Hm) as (mem & ->). cbn [bind].
  rewrite div_float_int_1024. cbn [bind]. unfold mul_int_float.
  destruct (FloatFacts.of_int_in_range min_instances Hk) as (count & ->). cbn [bind].
  eauto.
Qed.

Lemma cloud_run_returns_in_range_demo :
  Z.abs 10000 < 2 ^ 1023 /\ Z.abs (10000 * 200) < 2 ^ 1023 /\
  Z.abs 256 < 2 ^ 1023 /\ Z.abs 0 < 2 ^ 1023 /\
  exists cost, calculate_cloud_run_cost 10000 200 256 0 = Ok cost.
Proof.
  split; [ | split; [ | split; [ | split] ] ].
  5: apply (cloud_run_returns_in_range 10000 200 256 0).
  all: try (apply Z.ltb_lt; vm_compute; reflexivity).
Defined.

Lemma sfdiv_finite_signed (s s' : bool) (x : float) (m : positive) (e : Z) :
  signed_ext s x ->
  signed_ext (xorb s s') (SFdiv Float.prec Float.emax x (S754_finite s' m e)).
Proof.
  intros Hx. destruct (FloatSigns.div_finite_signed s s' x m e Hx) as (y & Hy & Hs).
  unfold Float.div in Hy. injection Hy as Hy. now rewrite Hy.
Qed.

(** X12. For non-negative arguments the serverless cost is never negative
    and never NaN: it is [+0.0], a positive finite double or [+inf]. *)
Theorem cloud_run_cost_not_negative
    (requests_per_month avg_cpu_time_ms avg_memory_mb min_instances : Z) (cost : float) :
  0 <= requests_per_month -> 0 <= avg_cpu_time_ms ->
  0 <= avg_memory_mb -> 0 <= min_instances ->
  calculate_cloud_run_cost requests_per_month avg_cpu_time_ms avg_memory_mb min_instances
    = Ok cost ->
  signed_ext false cost.
Proof.
  intros Hr Hc Hm Hk H.
  destruct (cloud_run_cost_steps _ _ _ _ _ H)
    as (millions & cpu_seconds & mem & count & H1 & H2 & H3 & H4 & ->).
  apply FloatSigns.int_truediv_signed in H1, H2.
  apply FloatFacts.of_int_signed in H3, H4.
  replace (requests_per_month <? 0) with false in H1 by (symmetry; apply Z.ltb_ge; lia).
  replace (requests_per_month * avg_cpu_time_ms <? 0) with false in H2
    by (symmetry; apply Z.ltb_ge; nia).
  replace (avg_memory_mb <? 0) with false in H3 by (symmetry; apply Z.ltb_ge; lia).
  replace (min_instances <? 0) with false in H4 by (symmetry; apply Z.ltb_ge; lia).
  change (1000000 <? 0) with false in H1. change (1000 <? 0) with false in H2.
  cbn [xorb] in H1, H2.
  destruct PriceFacts.lit_requests as (m1 & e1 & ->).
  destruct PriceFacts.lit_cpu_time as (m2 & e2 & ->).
  destruct PriceFacts.lit_memory_time as (m3 & e3 & ->).
  destruct PriceFacts.lit_min_instances as (m4 & e4 & ->).
  repeat apply FloatSigns.add_signed_ext.
  - exact (FloatFacts.mul_signed false false millions m1 e1 H1).
  - apply (FloatSigns.mul_signed_ext false false).
    exact (FloatFacts.mul_signed false false cpu_seconds _ _ H2).
  - apply (FloatSigns.mul_signed_ext false false).
    apply (sfdiv_finite_signed false false).
    exact (FloatSigns.mul_signed_signed false false _ _ H2 H3).
  - exact (FloatFacts.mul_signed false false count m4 e4 H4).
Qed.

Lemma cloud_run_cost_not_negative_idle :
  0 <= 0 /\ 0 <= 200 /\ 0 <= 256 /\ 0 <= 1 /\
  calculate_cloud_run_cost 0 200 256 1 = Ok (Float.lit 876 2) /\
  signed_ext false (Float.lit 876 2).
Proof.
  assert (H : calculate_cloud_run_cost 0 200 256 1 = Ok (Float.lit 876 2))
    by (vm_compute; reflexivity).
  split; [lia | split; [lia | split; [lia | split; [lia | split; [exact H | ] ] ] ] ].
  apply (cloud_run_cost_not_negative 0 200 256 1 (Float.lit 876 2)); try lia.
  exact H.
Defined.

(** ** Scenario results *)

Lemma sum_from_float (l : list pyval) (x : float) (v : pyval) :
  sum_from (PFloat x) l = Ok v -> exists y, v = PFloat y.
Proof.
  revert x. induction l as [ | a l IH]; intros x H; simpl in H.
  - inversion H. eauto.
  - destruct a as [n | y]; simpl in H.
    + destruct (Float.of_int n); cbn [bind] in H; [eauto | discriminate H].
    + eauto.
Qed.

Lemma py_sum_float_head (x : float) (l : list pyval) (v : pyval) :
  py_sum (PFloat x :: l) = Ok v -> exists y, v = PFloat y.
Proof.
  unfold py_sum.
  change (sum_from (PInt 0) (PFloat x :: l))
    with (bind (py_add (PInt 0) (PFloat x)) (fun acc' => sum_from acc' l)).
  cbn [py_add]. change (Float.of_int 0) with (Ok Float.zero). cbn [bind].
  apply sum_from_float.
Qed.

(** X13. Every result of [calculate_scenario_cost] has the same shape: the
    eight component entries in computation order, followed by [security] and
    [support] (the integers 100 and 200) exactly when the scenario is
    [enterprise]; the monthly and annual cost are floats, also where integer
    surcharges are summed; the result carries the name it was asked for. *)
Theorem scenario_result_shape (scenario : string) (r : ScenarioResult) :
  calculate_scenario_cost scenario = Ok r ->
  Dict.keys (cost_breakdown r)
    = (component_keys
       ++ (if String.eqb scenario "enterprise" then ["security"; "support"] else []))%list /\
  (String.eqb scenario "enterprise" = true ->
   Dict.get "security" (cost_breakdown r) = Some (PInt 100) /\
   Dict.get "support" (cost_breakdown r) = Some (PInt 200)) /\
  (exists monthly annual,
     monthly_cost r = PFloat monthly /\ annual_cost r = PFloat annual) /\
  scenario_name r = scenario.
Proof.
  unfold calculate_scenario_cost.
  destruct (Dict.get scenario scenarios) as [config | ]; [ | discriminate].
  destruct (gke_nodes (components config)) as [[machine_type node_count] preemptible].
  destruct (cloud_sql (components config)) as [[[sql_machine storage] ha] backup].
  intros H. repeat bind_ok H.
  inversion H; subst r; clear H.
  cbn [cost_breakdown monthly_cost annual_cost scenario_name].
  match goal with
  | Hsum : py_sum _ = Ok ?total |- _ =>
    assert (Hfloat : exists monthly, total = PFloat monthly);
      [ revert Hsum;
        destruct (String.eqb scenario "enterprise");
        cbv [Dict.set Dict.empty Dict.values map snd String.eqb Ascii.eqb Bool.eqb];
        apply py_sum_float_head
      | destruct Hfloat as (monthly & ->) ]
  end.
  match goal with
  | Hmul : py_mul _ _ = Ok ?annual |- _ =>
    assert (Hannual : exists y, annual = PFloat y);
      [ cbn [py_mul] in Hmul;
        destruct (mul_float_int monthly 12); cbn [bind] in Hmul;
          [inversion Hmul; eauto | discriminate Hmul]
      | destruct Hannual as (y & ->) ]
  end.
  split; [ | split; [ | split; [ | reflexivity] ] ].
  - destruct (String.eqb scenario "enterprise"); reflexivity.
  - intros ->. split; reflexivity.
  - eauto.
Qed.

Lemma scenario_result_shape_demo :
  calculate_scenario_cost "demo" = Ok demo_result /\
  Dict.keys (cost_breakdown demo_result)
    = (component_keys
       ++ (if String.eqb "demo" "enterprise" then ["security"; "support"] else []))%list /\
  (String.eqb "demo" "enterprise" = true ->
   Dict.get "security" (cost_breakdown demo_result) = Some (PInt 100) /\
   Dict.get "support" (cost_breakdown demo_result) = Some (PInt 200)) /\
  (exists monthly annual,
     monthly_cost demo_result = PFloat monthly /\
     annual_cost demo_result = PFloat annual) /\
  scenario_name demo_result = "demo".
Proof.
  assert (H : calculate_scenario_cost "demo" = Ok demo_result)
    by (vm_compute; reflexivity).
  split; [exact H | ].
  exact (scenario_result_shape "demo" demo_result H).
Defined.

(** ** Comparing scenarios: failure and repeated names *)

Lemma compare_loop_app (l1 l2 : list string) :
  forall results,
    compare_loop (l1 ++ l2) results
      = (d <- compare_loop l1 results ;; compare_loop l2 d).
Proof.
  induction l1 as [ | a l1 IH]; intros results; simpl.
  - reflexivity.
  - destruct (calculate_scenario_cost a) as [r | e]; cbn [bind]; [apply IH | reflexivity].
Qed.

(** X14. [compare_scenarios] returns exactly when every name of the list is
    one of the four scenario names. *)
Theorem compare_scenarios_returns_iff (names : list string) :
  (exists results, compare_scenarios names = Ok results) <->
  (forall n, In n names -> In n scenario_names).
Proof.
  split.
  - intros (results & H) n Hn.
    destruct (compare_loop_spec names Dict.empty results H) as (_ & Hvals & _).
    destruct (Hvals n Hn) as (r & Hr & _).
    destruct (in_dec string_dec n scenario_names) as [Hin | Hout]; [exact Hin | ].
    unfold calculate_scenario_cost in Hr.
    rewrite (scenarios_get_none n Hout) in Hr. discriminate Hr.
  - intros Hall. exact (compare_loop_succeeds names Hall Dict.empty).
Qed.

(** X15. When the list holds a name that is not a scenario name,
    [compare_scenarios] raises the error of the first such name and returns
    nothing of what it computed before. *)
Theorem compare_scenarios_first_unknown (known rest : list string) (bad : string) :
  (forall n, In n known -> In n scenario_names) ->
  ~ In bad scenario_names ->
  compare_scenarios (known ++ bad :: rest)
    = Raise (ValueError ("Unknown scenario: " ++ bad)).
Proof.
  intros Hknown Hbad. unfold compare_scenarios.
  rewrite compare_loop_app.
  destruct (compare_loop_succeeds known Hknown Dict.empty) as (d & ->).
  cbn [bind compare_loop]. unfold calculate_scenario_cost.
  now rewrite (scenarios_get_none bad Hbad).
Qed.

Lemma compare_scenarios_first_unknown_test :
  (forall n, In n ["demo"; "staging"] -> In n scenario_names) /\
  ~ In "test" scenario_names /\
  compare_scenarios (["demo"; "staging"] ++ "test" :: ["production"; "nope"])
    = Raise (ValueError ("Unknown scenario: " ++ "test")).
Proof.
  assert (H1 : forall n, In n ["demo"; "staging"] -> In n scenario_names).
  { simpl. intros n [<- | [<- | [] ] ]; tauto. }
  assert (H2 : ~ In "test" scenario_names).
  { simpl. intros [H | [H | [H | [H | [] ] ] ] ]; discriminate H. }
  split; [exact H1 | split; [exact H2 | ] ].
  exact (compare_scenarios_first_unknown ["demo"; "staging"] ["production"; "nope"]
           "test" H1 H2).
Defined.

Lemma dict_set_same {V : Type} (k : string) (v : V) (d : Dict.t V) :
  Dict.get k d = Some v -> Dict.set k v d = d.
Proof.
  induction d as [ | [k' v'] d IH]; simpl.
  - discriminate.
  - destruct (String.eqb k k') eqn:E.
    + intros H; inversion H. reflexivity.
    + intros H. now rewrite IH.
Qed.

Lemma dict_in_keys_get {V : Type} (k : string) (d : Dict.t V) :
  In k (Dict.keys d) -> exists v, Dict.get k d = Some v.
Proof.
  intros H. apply DictFacts.mem_in_keys in H. unfold Dict.mem in H.
  destruct (Dict.get k d); [eauto | discriminate H].
Qed.

(** Names already entered with their own result are skipped by the loop. *)
Lemma compare_loop_fresh (names : list string) :
  forall results,
    (forall k r, Dict.get k results = Some r -> calculate_scenario_cost k = Ok r) ->
    compare_loop names results
      = compare_loop (fresh_names (Dict.keys results) names) results.
Proof.
  induction names as [ | a rest IH]; intros results Hinv; simpl.
  - reflexivity.
  - destruct (existsb (String.eqb a) (Dict.keys results)) eqn:Hex.
    + apply existsb_eqb_in in Hex.
      destruct (dict_in_keys_get a results Hex) as (r & Hr).
      rewrite (Hinv a r Hr). cbn [bind].
      rewrite (dict_set_same a r results Hr). now apply IH.
    + simpl. destruct (calculate_scenario_cost a) as [r | e] eqn:Hr; cbn [bind];
        [ | reflexivity].
      assert (Hmem : Dict.mem a results = false).
      { destruct (Dict.mem a results) eqn:Hm; [ | reflexivity].
        apply DictFacts.mem_in_keys in Hm. apply existsb_eqb_in in Hm. congruence. }
      rewrite IH.
      * now rewrite DictFacts.keys_set, Hmem.
      * intros k r' Hk. destruct (string_dec a k) as [<- | Hne].
        -- rewrite DictFacts.get_set_same in Hk. congruence.
        -- rewrite DictFacts.get_set_other in Hk by exact Hne. now apply Hinv.
Qed.

(** X16. Repeating a name changes nothing: [compare_scenarios] on a list
    gives the same dictionary, or the same error, as on the list with every
    repetition after the first occurrence removed. *)
Theorem compare_scenarios_ignores_repeats (names : list string) :
  compare_scenarios names = compare_scenarios (first_occurrences names).
Proof.
  unfold compare_scenarios, first_occurrences.
  apply (compare_loop_fresh names Dict.empty).
  intros k r H. discriminate H.
Qed.

(** * Accuracy against exact decimal arithmetic *)

(** ** Rounding, on integers *)

Module Rounding.

(** [shr_fexp] brings the exponent up to the canonical one and divides the
    mantissa accordingly. *)
Lemma shr_fexp_value (m e : Z) (l : location) :
  0 <= m ->
  let e' := Z.max e (fexp Float.prec Float.emax (Zdigits2 m + e)) in
  snd (shr_fexp Float.prec Float.emax m e l) = e' /\
  shr_m (fst (shr_fexp Float.prec Float.emax m e l)) = m / 2 ^ (e' - e).
Proof.
  intros Hm e'. subst e'. unfold shr_fexp, shr.
  assert (Hrec : shr_m (shr_record_of_loc m l) = m)
    by (destruct l as [ | [ | | ] ]; reflexivity).
  destruct (fexp Float.prec Float.emax (Zdigits2 m + e) - e) as [ | k | k] eqn:Hk;
    cbn [fst snd].
  - rewrite Hrec. replace (Z.max e _ - e) with 0 by lia.
    rewrite Z.div_1_r. split; [lia | reflexivity].
  - rewrite FloatFacts.iter_pos_nat, FloatFacts.shr_iter_div, Hrec by lia.
    rewrite positive_nat_Z.
    replace (Z.max e _ - e) with (Z.pos k) by lia. split; [lia | reflexivity].
  - rewrite Hrec. replace (Z.max e _ - e) with 0 by lia.
    rewrite Z.div_1_r. split; [lia | reflexivity].
Qed.

Lemma round_nearest_even_ge (m : Z) (l : location) : m <= round_nearest_even m l.
Proof.
  destruct l as [ | [ | | ] ]; simpl; try lia. destruct (Z.even m); lia.
Qed.

(** Rounding a magnitude that starts with [m * 2^e]: the result
    [m' * 2^e'] lies within two units of the canonical exponent. *)
Lemma binary_round_aux_bounds (s : bool) (m e : Z) (l : location) :
  0 <= m ->
  let k := Z.max 0 (fexp Float.prec Float.emax (Zdigits2 m + e) - e) in
  match binary_round_aux Float.prec Float.emax s m e l with
  | S754_finite _ m' e' =>
    e + k <= e' <= e + k + 1 /\
    m - 2 ^ (k + 1) < Z.pos m' * 2 ^ (e' - e) <= m + 2 ^ k
  | S754_zero _ => m < 2 ^ (k + 1)
  | _ => True
  end.
Proof.
  intros Hm k. unfold binary_round_aux.
  pose proof (shr_fexp_value m e l Hm) as H1. cbv zeta in H1.
  pose proof (FloatFacts.shr_fexp_bound m e l Hm) as B1. cbv zeta in B1.
  destruct (shr_fexp Float.prec Float.emax m e l) as [r1 e1].
  cbn [fst snd] in H1, B1. destruct H1 as (He1 & Hm1). destruct B1 as (_ & Bm1).
  assert (Hk : e1 - e = k) by (subst k; lia).
  rewrite <- He1, Hk in Hm1.
  assert (Hkpos : 0 <= k) by (subst k; lia).
  pose proof (Z.pow_pos_nonneg 2 k ltac:(lia) Hkpos) as Hpk.
  pose proof (Z.div_mod m (2 ^ k) ltac:(lia)) as Hdm.
  pose proof (Z.mod_pos_bound m (2 ^ k) Hpk) as Hmod.
  rewrite <- Hm1 in Hdm.
  pose proof (FloatFacts.round_nearest_even_bound (shr_m r1) (loc_of_shr_record r1)
                (proj1 Bm1)) as Hr.
  pose proof (round_nearest_even_ge (shr_m r1) (loc_of_shr_record r1)) as Hge.
  set (m1 := round_nearest_even (shr_m r1) (loc_of_shr_record r1)) in *.
  assert (Hd1 : Zdigits2 m1 <= Z.max 0 (Zdigits2 m + e - e1) + 1).
  { apply FloatFacts.Zdigits2_le; [lia | lia | ].
    rewrite Z.pow_add_r by lia. change (2 ^ 1) with 2. lia. }
  pose proof (shr_fexp_value m1 e1 loc_Exact (proj1 Hr)) as H2. cbv zeta in H2.
  destruct (shr_fexp Float.prec Float.emax m1 e1 loc_Exact) as [r2 e2].
  cbn [fst snd] in H2. destruct H2 as (He2 & Hm2). rewrite <- He2 in Hm2.
  assert (Hk2 : 0 <= e2 - e1 <= 1).
  { rewrite He2. unfold fexp, emin, Float.prec, Float.emax in *. lia. }
  assert (Hm2' : shr_m r2 * 2 ^ (e2 - e1) <= m1 < shr_m r2 * 2 ^ (e2 - e1) + 2 ^ (e2 - e1)).
  { rewrite Hm2.
    pose proof (Z.pow_pos_nonneg 2 (e2 - e1) ltac:(lia) ltac:(lia)) as Hp2.
    pose proof (Z.div_mod m1 (2 ^ (e2 - e1)) ltac:(lia)) as Hdm2.
    pose proof (Z.mod_pos_bound m1 (2 ^ (e2 - e1)) Hp2). nia. }
  assert (Hpow2 : 2 ^ (e2 - e1) = 1 \/ 2 ^ (e2 - e1) = 2).
  { destruct (Z.eq_dec (e2 - e1) 0) as [-> | Hne]; [left; reflexivity | right].
    replace (e2 - e1) with 1 by lia. reflexivity. }
  assert (Hsplit : forall x, x * 2 ^ (e2 - e) = x * 2 ^ (e2 - e1) * 2 ^ k).
  { intros x. replace (e2 - e) with ((e2 - e1) + k) by lia.
    rewrite Z.pow_add_r by lia. ring. }
  assert (Hpk1 : 2 ^ (k + 1) = 2 * 2 ^ k).
  { rewrite Z.pow_add_r by lia. change (2 ^ 1) with 2. ring. }
  set (P := 2 ^ k) in *. set (a := shr_m r1) in *. set (r := m mod P) in *.
  destruct (shr_m r2) as [ | p | p] eqn:Hp.
  - rewrite Hpk1. destruct Hpow2 as [Hq | Hq]; rewrite Hq in Hm2'; nia.
  - destruct (e2 <=? Float.emax - Float.prec); [ | exact I].
    split; [lia | ]. rewrite Hsplit, Hpk1.
    destruct Hpow2 as [Hq | Hq]; rewrite Hq in *; nia.
  - exact I.
Qed.

(** A magnitude that is already canonical is returned as it is. *)
Lemma binary_round_aux_exact (s : bool) (m : positive) (e : Z) :
  fexp Float.prec Float.emax (Zdigits2 (Z.pos m) + e) <= e ->
  e <= Float.emax - Float.prec ->
  binary_round_aux Float.prec Float.emax s (Z.pos m) e loc_Exact = S754_finite s m e.
Proof.
  intros Hf He.
  assert (Hshr : shr_fexp Float.prec Float.emax (Z.pos m) e loc_Exact
                 = ({| shr_m := Z.pos m; shr_r := false; shr_s := false |}, e)).
  { unfold shr_fexp, shr.
    destruct (fexp Float.prec Float.emax (Zdigits2 (Z.pos m) + e) - e) eqn:Hk;
      [reflexivity | lia | reflexivity]. }
  unfold binary_round_aux. rewrite Hshr. cbn [shr_m loc_of_shr_record round_nearest_even].
  rewrite Hshr. cbn [shr_m].
  apply Z.leb_le in He. now rewrite He.
Qed.

Lemma pos_iter_xO_value (p d : positive) :
  Z.pos (Pos.iter xO p d) = Z.pos p * 2 ^ Z.pos d.
Proof.
  induction d as [ | d IH] using Pos.peano_ind.
  - simpl. lia.
  - rewrite Pos.iter_succ, Pos2Z.inj_xO, IH, Pos2Z.inj_succ, Z.pow_succ_r by lia. ring.
Qed.

(** Integers below [2^53] convert without rounding, to a 53-bit mantissa. *)
Lemma of_int_exact (n : Z) :
  0 < n < 2 ^ 53 ->
  exists mz ez,
    Float.of_int n = Ok (S754_finite false mz ez) /\
    - 52 <= ez <= 0 /\
    Z.pos mz = n * 2 ^ (- ez) /\
    2 ^ 52 <= Z.pos mz < 2 ^ 53.
Proof.
  intros Hn. destruct n as [ | p | p]; try lia.
  unfold Float.of_int, binary_normalize, binary_round.
  destruct (FloatFacts.digits2_pos_bounds p) as [Hlo Hhi].
  set (D := Z.pos (digits2_pos p)) in *.
  assert (HD : 1 <= D <= 53).
  { split; [subst D; lia | ].
    apply (FloatFacts.Zdigits2_le (Z.pos p)); lia. }
  assert (Hfexp : fexp Float.prec Float.emax (D + 0) = D - 53)
    by (unfold fexp, emin, Float.prec, Float.emax; lia).
  rewrite Hfexp. unfold shl_align.
  destruct (D - 53 - 0) as [ | d | d] eqn:Hd; try lia.
  - assert (D = 53) by lia.
    rewrite binary_round_aux_exact.
    + exists p, 0. split; [reflexivity | ]. split; [lia | ].
      replace (D - 1) with 52 in Hlo by lia. replace D with 53 in Hhi by lia.
      split; [simpl; lia | lia].
    + simpl Zdigits2. fold D. unfold fexp, emin, Float.prec, Float.emax; lia.
    + unfold Float.prec, Float.emax; lia.
  - assert (Hval := pos_iter_xO_value p d).
    assert (Hdig := FloatFacts.digits2_pos_iter_xO p d). fold D in Hdig.
    assert (Hpow : 2 ^ D * 2 ^ Z.pos d = 2 ^ 53).
    { rewrite <- Z.pow_add_r by lia. f_equal. lia. }
    assert (Hpow' : 2 ^ (D - 1) * 2 ^ Z.pos d = 2 ^ 52).
    { rewrite <- Z.pow_add_r by lia. f_equal. lia. }
    rewrite binary_round_aux_exact.
    + exists (Pos.iter xO p d), (D - 53). split; [reflexivity | ]. split; [lia | ].
      replace (- (D - 53)) with (Z.pos d) by lia.
      split; [exact Hval | ]. rewrite Hval.
      pose proof (Z.pow_pos_nonneg 2 (Z.pos d) ltac:(lia) ltac:(lia)). nia.
    + simpl Zdigits2. rewrite Hdig. unfold fexp, emin, Float.prec, Float.emax; lia.
    + unfold Float.prec, Float.emax; lia.
Qed.

(** The product of two positive doubles, in units of [2^(ex+ey)]: a
    relative error of at most [2^-51], away from overflow and underflow. *)
Lemma mul_bounds (mx my : positive) (ex ey : Z) :
  let M := Z.pos mx * Z.pos my in
  let E := ex + ey in
  2 ^ 52 <= M ->
  - 1000 <= Zdigits2 M + E <= 1023 ->
  exists mz ez,
    Float.mul (S754_finite false mx ex) (S754_finite false my ey)
      = S754_finite false mz ez /\
    E <= ez <= E + Zdigits2 M - 52 /\
    M * 2 ^ 51 - M <= Z.pos mz * 2 ^ (ez - E) * 2 ^ 51 <= M * 2 ^ 51 + M.
Proof.
  intros M E HM Hrange.
  unfold Float.mul, SFmul. cbn [xorb].
  change (Z.pos (mx * my)) with M. fold E.
  assert (HMpos : 0 <= M) by lia.
  set (D := Zdigits2 M) in *.
  assert (HD : 53 <= D).
  { destruct (Z_lt_le_dec D 53) as [Hlt | Hge]; [ | exact Hge].
    pose proof (FloatFacts.Zdigits2_lt M HMpos) as Hlt'. fold D in Hlt'.
    assert (2 ^ D <= 2 ^ 52) by (apply Z.pow_le_mono_r; lia). lia. }
  assert (Hlow : 2 ^ (D - 1) <= M).
  { subst D M. simpl Zdigits2. apply FloatFacts.digits2_pos_bounds. }
  pose proof (binary_round_aux_bounds false M E loc_Exact HMpos) as Hb. cbv zeta in Hb. fold D in Hb.
  assert (Hk : Z.max 0 (fexp Float.prec Float.emax (D + E) - E) = D - 53)
    by (unfold fexp, emin, Float.prec, Float.emax; lia).
  rewrite Hk in Hb.
  replace (D - 53 + 1) with (D - 52) in Hb by lia.
  assert (Hp1 : 2 ^ (D - 52) * 2 ^ 51 = 2 ^ (D - 1)).
  { rewrite <- Z.pow_add_r by lia. f_equal. lia. }
  assert (Hp2 : 2 ^ (D - 53) * 2 = 2 ^ (D - 52)).
  { replace (D - 52) with (D - 53 + 1) by lia.
    rewrite Z.pow_add_r by lia. reflexivity. }
  pose proof (Z.pow_pos_nonneg 2 (D - 53) ltac:(lia) ltac:(lia)) as Hpos.
  destruct (FloatFacts.binary_round_aux_finite false M E loc_Exact HMpos)
    as [Hz | (mz & ez & Hf)]; [lia | fold D; lia | | ].
  - rewrite Hz in Hb. nia.
  - rewrite Hf in Hb. rewrite Hf. exists mz, ez. split; [reflexivity | ].
    destruct Hb as (He & Hlo & Hhi). split; [fold D; lia | ].
    set (X := Z.pos mz * 2 ^ (ez - E)) in *. nia.
Qed.

End Rounding.

(** ** Rounding, on rationals *)

Module Exact.

Lemma two_pow_pos (e : Z) : (0 < two_pow e)%Q.
Proof. unfold two_pow. apply Qpower_0_lt. reflexivity. Qed.

Lemma two_pow_add (a b : Z) : (two_pow (a + b) == two_pow a * two_pow b)%Q.
Proof. unfold two_pow. apply Qpower_plus. discriminate. Qed.

Lemma two_pow_inject (n : Z) : 0 <= n -> (inject_Z (2 ^ n) == two_pow n)%Q.
Proof. intros Hn. unfold two_pow. now rewrite Zpower_Qpower. Qed.

Lemma float_Q_finite (m : positive) (e : Z) :
  exists q, float_Q (S754_finite false m e) = Some q /\
            (q == inject_Z (Z.pos m) * two_pow e)%Q.
Proof.
  unfold float_Q. eexists; split; [reflexivity | ].
  destruct (0 <=? e) eqn:He.
  - apply Z.leb_le in He. now rewrite inject_Z_mult, (two_pow_inject e He).
  - apply Z.leb_gt in He.
    rewrite Qmake_Qdiv. unfold Qdiv.
    assert (Hp : 0 < 2 ^ (- e)) by (apply Z.pow_pos_nonneg; lia).
    replace (Z.pos (Z.to_pos (2 ^ (- e)))) with (2 ^ (- e))
      by (symmetry; apply Z2Pos.id; exact Hp).
    rewrite (two_pow_inject (- e)) by lia.
    assert (H : (two_pow e == / two_pow (- e))%Q).
    { unfold two_pow. rewrite <- Qpower_opp. now rewrite Z.opp_involutive. }
    rewrite H. reflexivity.
Qed.

Lemma fval_pos (m : positive) (e : Z) : (0 < fval m e)%Q.
Proof.
  unfold fval. apply Qmult_lt_0_compat; [ | apply two_pow_pos].
  change 0%Q with (inject_Z 0). rewrite <- Zlt_Qlt. lia.
Qed.

Lemma mul_accuracy (mx my : positive) (ex ey : Z) :
  2 ^ 52 <= Z.pos mx * Z.pos my ->
  - 1000 <= Zdigits2 (Z.pos mx * Z.pos my) + (ex + ey) <= 1023 ->
  exists mz ez,
    Float.mul (S754_finite false mx ex) (S754_finite false my ey)
      = S754_finite false mz ez /\
    ex + ey <= ez <= ex + ey + Zdigits2 (Z.pos mx * Z.pos my) - 52 /\
    Z.pos mz <= 2 * (Z.pos mx * Z.pos my) /\
    (fval mx ex * fval my ey * (1 - rel_eps) <= fval mz ez)%Q /\
    (fval mz ez <= fval mx ex * fval my ey * (1 + rel_eps))%Q.
Proof.
  intros HM Hrange.
  destruct (Rounding.mul_bounds mx my ex ey HM Hrange)
    as (mz & ez & Hmul & He' & Hlo & Hhi).
  exists mz, ez. split; [exact Hmul | ]. split; [exact He' | ].
  assert (He : ex + ey <= ez) by lia.
  split.
  { pose proof (Z.pow_pos_nonneg 2 (ez - (ex + ey)) ltac:(lia) ltac:(lia)). nia. }
  set (E := ex + ey) in *. set (M := Z.pos mx * Z.pos my) in *.
  assert (HA : (fval mx ex * fval my ey == inject_Z M * two_pow E)%Q).
  { unfold fval, M, E. rewrite inject_Z_mult, two_pow_add. ring. }
  assert (HB : (fval mz ez == inject_Z (Z.pos mz * 2 ^ (ez - E)) * two_pow E)%Q).
  { unfold fval. rewrite inject_Z_mult, (two_pow_inject (ez - E)) by lia.
    replace ez with ((ez - E) + E) at 1 by lia. rewrite two_pow_add. ring. }
  rewrite HA, HB.
  set (X := Z.pos mz * 2 ^ (ez - E)) in *.
  assert (Hlo' : (inject_Z M * inject_Z (2 ^ 51)
                  <= inject_Z X * inject_Z (2 ^ 51) + inject_Z M)%Q).
  { rewrite <- !inject_Z_mult, <- inject_Z_plus, <- Zle_Qle. lia. }
  assert (Hhi' : (inject_Z X * inject_Z (2 ^ 51)
                  <= inject_Z M * inject_Z (2 ^ 51) + inject_Z M)%Q).
  { rewrite <- !inject_Z_mult, <- inject_Z_plus, <- Zle_Qle. exact Hhi. }
  change (inject_Z (2 ^ 51)) with (2251799813685248 # 1)%Q in Hlo', Hhi'.
  pose proof (two_pow_pos E) as Hw.
  set (A := inject_Z M) in *. set (B := inject_Z X) in *. set (w := two_pow E) in *.
  unfold rel_eps.
  assert (H1 : (A * (1 - (1 # 2251799813685248)) <= B)%Q) by lra.
  assert (H2 : (B <= A * (1 + (1 # 2251799813685248)))%Q) by lra.
  split.
  - setoid_replace (A * w * (1 - (1 # 2251799813685248)))%Q
      with (A * (1 - (1 # 2251799813685248)) * w)%Q by ring.
    apply Qmult_le_compat_r; [exact H1 | apply Qlt_le_weak; exact Hw].
  - setoid_replace (A * w * (1 + (1 # 2251799813685248)))%Q
      with (A * (1 + (1 # 2251799813685248)) * w)%Q by ring.
    apply Qmult_le_compat_r; [exact H2 | apply Qlt_le_weak; exact Hw].
Qed.

Lemma of_int_value (n : Z) :
  0 < n < 2 ^ 53 ->
  exists mz ez,
    Float.of_int n = Ok (S754_finite false mz ez) /\
    - 52 <= ez <= 0 /\
    2 ^ 52 <= Z.pos mz < 2 ^ 53 /\
    (fval mz ez == inject_Z n)%Q.
Proof.
  intros Hn. destruct (Rounding.of_int_exact n Hn) as (mz & ez & Hc & He & Hv & Hm).
  exists mz, ez. repeat split; try assumption; try lia.
  unfold fval. rewrite Hv, inject_Z_mult, (two_pow_inject (- ez)) by lia.
  rewrite <- Qmult_assoc, <- two_pow_add.
  replace (- ez + ez) with 0 by lia. unfold two_pow. simpl. ring.
Qed.

Lemma digits_of_product (a b lo hi : Z) :
  0 <= lo -> 2 ^ lo <= a * b < 2 ^ hi -> lo < Zdigits2 (a * b) <= hi.
Proof.
  intros Hlo [Hl Hh].
  assert (Hpos : 0 < 2 ^ lo) by (apply Z.pow_pos_nonneg; lia).
  assert (Hhi : 0 <= hi).
  { destruct (Z_lt_le_dec hi 0) as [Hneg | ]; [ | assumption].
    rewrite (Z.pow_neg_r 2 hi Hneg) in Hh. lia. }
  split.
  - destruct (Z_lt_le_dec lo (Zdigits2 (a * b))) as [ | Hle]; [assumption | ].
    pose proof (FloatFacts.Zdigits2_lt (a * b) ltac:(lia)) as Hlt.
    assert (2 ^ Zdigits2 (a * b) <= 2 ^ lo) by (apply Z.pow_le_mono_r; lia). lia.
  - apply FloatFacts.Zdigits2_le; lia.
Qed.

(** Both products of [calculate_gke_cost], for a 53-bit unit price and up
    to a billion nodes: each is within a relative [2^-51] of the exact
    product of its operands. *)
Lemma gke_chain (mp : positive) (ep n : Z) :
  2 ^ 52 <= Z.pos mp < 2 ^ 53 -> - 60 <= ep <= - 40 -> 1 <= n <= 10 ^ 9 ->
  exists mf ef mq eq,
    mul_float_int (S754_finite false mp ep) n = Ok (S754_finite false mf ef) /\
    Float.mul (S754_finite false mf ef) (Float.lit 2 1) = S754_finite false mq eq /\
    (fval mp ep * inject_Z n * (1 - rel_eps) <= fval mf ef)%Q /\
    (fval mf ef <= fval mp ep * inject_Z n * (1 + rel_eps))%Q /\
    (fval mf ef * fval fifth_m (-55) * (1 - rel_eps) <= fval mq eq)%Q /\
    (fval mq eq <= fval mf ef * fval fifth_m (-55) * (1 + rel_eps))%Q.
Proof.
  intros Hmp Hep Hn.
  assert (Hn53 : 0 < n < 2 ^ 53).
  { split; [lia | ]. eapply Z.le_lt_trans; [apply Hn | ]. reflexivity. }
  destruct (of_int_value n Hn53) as (mz & ez & Hc & Hez & Hmz & Hval).
  unfold mul_float_int. rewrite Hc. cbn [bind].
  assert (HM : 2 ^ 104 <= Z.pos mp * Z.pos mz < 2 ^ 106).
  { change (2 ^ 104) with (2 ^ 52 * 2 ^ 52). change (2 ^ 106) with (2 ^ 53 * 2 ^ 53). nia. }
  pose proof (digits_of_product _ _ 104 106 ltac:(lia) HM) as HD.
  destruct (mul_accuracy mp mz ep ez) as (mf & ef & Hmul & Hef & Hmf & Hlo & Hhi).
  { eapply Z.le_trans; [ | apply HM]. apply Z.pow_le_mono_r; lia. }
  { lia. }
  rewrite Hmul.
  assert (Hfifth : 2 ^ 52 <= Z.pos fifth_m < 2 ^ 53) by (split; vm_compute; congruence).
  assert (HM2 : 2 ^ 52 <= Z.pos mf * Z.pos fifth_m < 2 ^ 160).
  { split; [nia | ].
    change (2 ^ 160) with (2 ^ 107 * 2 ^ 53).
    assert (Z.pos mf < 2 ^ 107) by (change (2 ^ 107) with (2 * 2 ^ 106); lia).
    nia. }
  pose proof (digits_of_product _ _ 52 160 ltac:(lia) HM2) as HD2.
  destruct (mul_accuracy mf fifth_m ef (-55)) as (mq & eq & Hmul2 & _ & _ & Hlo2 & Hhi2).
  { apply HM2. }
  { lia. }
  exists mf, ef, mq, eq.
  replace (Float.lit 2 1) with (S754_finite false fifth_m (-55))
    by (vm_compute; reflexivity).
  rewrite Hval in Hlo, Hhi.
  repeat split; assumption.
Qed.

End Exact.

(** ** Compute nodes: accuracy *)

Lemma gke_literals_are_prices :
  Dict.get "gke" pricing
    = Some (map (fun entry => (fst entry, Float.lit (fst (snd entry)) (snd (snd entry))))
                gke_literals).
Proof. reflexivity. Qed.

Lemma fval_numeral (m : positive) (e : Z) :
  e < 0 -> (fval m e == Z.pos m # Z.to_pos (2 ^ (- e)))%Q.
Proof.
  intros He. destruct (Exact.float_Q_finite m e) as (q & Hq & Heq).
  unfold float_Q in Hq. apply Z.leb_gt in He. rewrite He in Hq.
  inversion Hq; subst q. symmetry. exact Heq.
Qed.

Lemma gke_cost_bounds (machine_type : string) (m : positive) (k : nat) (n : Z) :
  In (machine_type, (m, k)) gke_literals ->
  1 <= n <= 10 ^ 9 ->
  exists full pre qf qp,
    calculate_gke_cost machine_type n false = Ok full /\
    calculate_gke_cost machine_type n true = Ok pre /\
    float_Q full = Some qf /\
    float_Q pre = Some qp /\
    (decimal_Q m k * inject_Z n - (1 # 1000) <= qf)%Q /\
    (qf <= decimal_Q m k * inject_Z n + (1 # 1000))%Q /\
    (decimal_Q m k * inject_Z n * (1 # 5) - (1 # 1000) <= qp)%Q /\
    (qp <= decimal_Q m k * inject_Z n * (1 # 5) + (1 # 1000))%Q /\
    (0 < qp)%Q /\ (qp < qf)%Q.
Proof.
  intros Hin Hn.
  assert (Hn1 : (1 <= inject_Z n)%Q)
    by (change 1%Q with (inject_Z 1); rewrite <- Zle_Qle; lia).
  assert (Hn2 : (inject_Z n <= 1000000000 # 1)%Q)
    by (change (1000000000 # 1)%Q with (inject_Z (10 ^ 9)); rewrite <- Zle_Qle; lia).
  simpl in Hin.
  destruct Hin as [Hin | [Hin | [Hin | [Hin | [] ] ] ] ]; inversion Hin; subst; clear Hin;
    unfold calculate_gke_cost;
    match goal with
    | |- context [price "gke" ?mt] =>
      let v := eval vm_compute in (price "gke" mt) in
      replace (price "gke" mt) with v by (vm_compute; reflexivity)
    end;
    cbn [bind];
    match goal with
    | |- context [mul_float_int (S754_finite false ?mp ?ep) n] =>
      destruct (Exact.gke_chain mp ep n) as (mf & ef & mq & eq & H1 & H2 & Hfl & Hfh & Hql & Hqh);
        [ split; vm_compute; congruence | split; vm_compute; congruence | exact Hn | ];
      rewrite H1; cbn [bind]; rewrite H2;
      destruct (Exact.float_Q_finite mf ef) as (qf & Hqf & Eqf);
      destruct (Exact.float_Q_finite mq eq) as (qp & Hqp & Eqp);
      exists (S754_finite false mf ef), (S754_finite false mq eq), qf, qp;
      do 4 (split; [reflexivity || assumption | ]);
      rewrite <- Eqf in Hfl, Hfh, Hql, Hqh; rewrite <- Eqp in Hql, Hqh;
      rewrite (fval_numeral mp ep) in Hfl, Hfh by (vm_compute; reflexivity);
      rewrite (fval_numeral fifth_m (-55)) in Hql, Hqh by (vm_compute; reflexivity)
    end;
    unfold rel_eps, decimal_Q, fifth_m in *.
  all: repeat match goal with
           | H : context [Z.to_pos ?x] |- _ =>
             let v := eval vm_compute in (Z.to_pos x) in
             replace (Z.to_pos x) with v in H by (vm_compute; reflexivity)
           | |- context [Z.to_pos ?x] =>
             let v := eval vm_compute in (Z.to_pos x) in
             replace (Z.to_pos x) with v by (vm_compute; reflexivity)
           end.
  all: repeat split; lra.
Qed.

Lemma gke_literal_of_type (machine_type : string) :
  In machine_type gke_machine_types ->
  exists m k, In (machine_type, (m, k)) gke_literals.
Proof.
  simpl. intros [<- | [<- | [<- | [<- | [] ] ] ] ]; do 2 eexists; simpl; eauto 6.
Qed.

(** X17. For each machine type of the table and up to a billion nodes, the
    cost computed in doubles is within a tenth of a cent of the exact decimal
    product [price * node_count], and the preemptible cost within a tenth of
    a cent of a fifth of it, [price] being the decimal written in the
    source. *)
Theorem gke_cost_matches_decimal
    (machine_type : string) (m : positive) (k : nat) (node_count : Z) :
  In (machine_type, (m, k)) gke_literals ->
  1 <= node_count <= 10 ^ 9 ->
  price "gke" machine_type = Ok (Float.lit m k) /\
  exists full pre exact_full exact_pre,
    calculate_gke_cost machine_type node_count false = Ok full /\
    calculate_gke_cost machine_type node_count true = Ok pre /\
    float_Q full = Some exact_full /\
    float_Q pre = Some exact_pre /\
    (Qabs (exact_full - decimal_Q m k * inject_Z node_count) <= 1 # 1000)%Q /\
    (Qabs (exact_pre - decimal_Q m k * inject_Z node_count * (1 # 5)) <= 1 # 1000)%Q.
Proof.
  intros Hin Hn. split.
  - simpl in Hin.
    destruct Hin as [Hin | [Hin | [Hin | [Hin | [] ] ] ] ]; inversion Hin; reflexivity.
  - destruct (gke_cost_bounds machine_type m k node_count Hin Hn)
      as (full & pre & qf & qp & H1 & H2 & H3 & H4 & B1 & B2 & B3 & B4 & _).
    exists full, pre, qf, qp. do 4 (split; [assumption | ]).
    split; apply Qabs_Qle_condition; split; lra.
Qed.

Lemma gke_cost_matches_decimal_production :
  In ("e2-standard-2", (9711%positive, 2%nat)) gke_literals /\
  1 <= 3 <= 10 ^ 9 /\
  price "gke" "e2-standard-2" = Ok (Float.lit 9711 2) /\
  exists full pre exact_full exact_pre,
    calculate_gke_cost "e2-standard-2" 3 false = Ok full /\
    calculate_gke_cost "e2-standard-2" 3 true = Ok pre /\
    float_Q full = Some exact_full /\
    float_Q pre = Some exact_pre /\
    (Qabs (exact_full - decimal_Q 9711 2 * inject_Z 3) <= 1 # 1000)%Q /\
    (Qabs (exact_pre - decimal_Q 9711 2 * inject_Z 3 * (1 # 5)) <= 1 # 1000)%Q.
Proof.
  assert (H1 : In ("e2-standard-2", (9711%positive, 2%nat)) gke_literals)
    by (simpl; tauto).
  assert (H2 : 1 <= 3 <= 10 ^ 9) by (split; vm_compute; congruence).
  split; [exact H1 | split; [exact H2 | ] ].
  exact (gke_cost_matches_decimal "e2-standard-2" 9711 2 3 H1 H2).
Defined.

(** X18. For each machine type of the table and one to a billion nodes, the
    preemptible cost is positive and strictly below the regular cost. *)
Theorem gke_preemptible_is_cheaper (machine_type : string) (node_count : Z) :
  In machine_type gke_machine_types ->
  1 <= node_count <= 10 ^ 9 ->
  exists full pre exact_full exact_pre,
    calculate_gke_cost machine_type node_count false = Ok full /\
    calculate_gke_cost machine_type node_count true = Ok pre /\
    float_Q full = Some exact_full /\
    float_Q pre = Some exact_pre /\
    (0 < exact_pre)%Q /\ (exact_pre < exact_full)%Q.
Proof.
  intros Hin Hn. destruct (gke_literal_of_type machine_type Hin) as (m & k & Hlit).
  destruct (gke_cost_bounds machine_type m k node_count Hlit Hn)
    as (full & pre & qf & qp & H1 & H2 & H3 & H4 & _ & _ & _ & _ & B5 & B6).
  exists full, pre, qf, qp. do 4 (split; [assumption | ]). split; assumption.
Qed.

Lemma gke_preemptible_is_cheaper_demo :
  In "e2-small" gke_machine_types /\
  1 <= 1 <= 10 ^ 9 /\
  exists full pre exact_full exact_pre,
    calculate_gke_cost "e2-small" 1 false = Ok full /\
    calculate_gke_cost "e2-small" 1 true = Ok pre /\
    float_Q full = Some exact_full /\
    float_Q pre = Some exact_pre /\
    (0 < exact_pre)%Q /\ (exact_pre < exact_full)%Q.
Proof.
  assert (H1 : In "e2-small" gke_machine_types) by (simpl; tauto).
  assert (H2 : 1 <= 1 <= 10 ^ 9) by (split; vm_compute; congruence).
  split; [exact H1 | split; [exact H2 | ] ].
  exact (gke_preemptible_is_cheaper "e2-small" 1 H1 H2).
Defined.

(** ** Managed database: accuracy *)

Module Ranges.

Lemma two_pow_le (a b : Z) : a <= b -> (two_pow a <= two_pow b)%Q.
Proof.
  intros Hab. replace b with (a + (b - a)) by lia.
  rewrite Exact.two_pow_add, <- (Exact.two_pow_inject (b - a)) by lia.
  pose proof (Exact.two_pow_pos a) as Ha.
  assert (H1 : (1 <= inject_Z (2 ^ (b - a)))%Q).
  { change 1%Q with (inject_Z 1). rewrite <- Zle_Qle.
    pose proof (Z.pow_pos_nonneg 2 (b - a) ltac:(lia) ltac:(lia)). lia. }
  setoid_replace (two_pow a) with (two_pow a * 1)%Q at 1 by ring.
  apply Qmult_le_l; assumption.
Qed.

Lemma two_pow_lt (a b : Z) : a < b -> (two_pow a < two_pow b)%Q.
Proof.
  intros Hab. replace b with (a + (b - a)) by lia.
  rewrite Exact.two_pow_add, <- (Exact.two_pow_inject (b - a)) by lia.
  pose proof (Exact.two_pow_pos a) as Ha.
  assert (H1 : (1 < inject_Z (2 ^ (b - a)))%Q).
  { change 1%Q with (inject_Z 1). rewrite <- Zlt_Qlt.
    replace (b - a) with (Z.succ (b - a - 1)) by lia.
    rewrite Z.pow_succ_r by lia.
    pose proof (Z.pow_pos_nonneg 2 (b - a - 1) ltac:(lia) ltac:(lia)). lia. }
  setoid_replace (two_pow a) with (two_pow a * 1)%Q at 1 by ring.
  apply Qmult_lt_l; assumption.
Qed.

(** A positive double between [2^a] and [2^b] has its top bit between. *)
Lemma top_bounds (m : positive) (e a b : Z) :
  (two_pow a <= fval m e)%Q -> (fval m e <= two_pow b)%Q ->
  a < Zdigits2 (Z.pos m) + e <= b + 1.
Proof.
  intros Hlo Hhi. unfold fval in *.
  destruct (FloatFacts.digits2_pos_bounds m) as [Hdl Hdh].
  simpl Zdigits2. set (D := Z.pos (digits2_pos m)) in *.
  assert (HD : 1 <= D) by (subst D; lia).
  pose proof (Exact.two_pow_pos e) as He.
  assert (Hup : (inject_Z (Z.pos m) * two_pow e < two_pow (D + e))%Q).
  { rewrite Exact.two_pow_add, <- (Exact.two_pow_inject D) by lia.
    apply Qmult_lt_r; [exact He | ]. rewrite <- Zlt_Qlt. exact Hdh. }
  assert (Hdown : (two_pow (D - 1 + e) <= inject_Z (Z.pos m) * two_pow e)%Q).
  { rewrite Exact.two_pow_add, <- (Exact.two_pow_inject (D - 1)) by lia.
    apply Qmult_le_r; [exact He | ]. rewrite <- Zle_Qle. exact Hdl. }
  split.
  - destruct (Z_lt_le_dec a (D + e)) as [ | Hle]; [assumption | exfalso].
    pose proof (two_pow_le (D + e) a Hle). lra.
  - destruct (Z_le_gt_dec (D + e) (b + 1)) as [ | Hgt]; [assumption | exfalso].
    assert (Hlt : b < D - 1 + e) by lia.
    pose proof (two_pow_lt b (D - 1 + e) Hlt). lra.
Qed.

Lemma fval_mul (mx my : positive) (ex ey : Z) :
  (fval (mx * my) (ex + ey) == fval mx ex * fval my ey)%Q.
Proof.
  unfold fval. rewrite Pos2Z.inj_mul, inject_Z_mult, Exact.two_pow_add. ring.
Qed.

Lemma fval_shift (m : positive) (e d : Z) (m' : positive) :
  0 <= d -> Z.pos m' = Z.pos m * 2 ^ d -> (fval m' (e - d) == fval m e)%Q.
Proof.
  intros Hd Hm. unfold fval. rewrite Hm, inject_Z_mult, (Exact.two_pow_inject d Hd).
  rewrite <- Qmult_assoc, <- Exact.two_pow_add.
  replace (d + (e - d)) with e by lia. reflexivity.
Qed.

(** A product whose exact value lies between [2^a] and [2^b], one mantissa
    product being at least [2^52]: relative error at most [2^-51]. *)
Lemma mul_accuracy_range (mx my : positive) (ex ey a b : Z) :
  2 ^ 52 <= Z.pos mx * Z.pos my ->
  - 999 <= a -> b <= 1021 ->
  (two_pow a <= fval mx ex * fval my ey)%Q ->
  (fval mx ex * fval my ey <= two_pow b)%Q ->
  exists mz ez,
    Float.mul (S754_finite false mx ex) (S754_finite false my ey)
      = S754_finite false mz ez /\
    (fval mx ex * fval my ey * (1 - rel_eps) <= fval mz ez)%Q /\
    (fval mz ez <= fval mx ex * fval my ey * (1 + rel_eps))%Q.
Proof.
  intros HM Ha Hb Hlo Hhi.
  rewrite <- fval_mul in Hlo, Hhi.
  pose proof (top_bounds _ _ _ _ Hlo Hhi) as Ht. rewrite Pos2Z.inj_mul in Ht.
  destruct (Exact.mul_accuracy mx my ex ey HM ltac:(lia))
    as (mz & ez & Hmul & _ & _ & H1 & H2).
  eauto.
Qed.

(** Rounding a positive integer multiple of a power of two to a double. *)
Lemma binary_round_accuracy (p : positive) (e : Z) :
  - 1000 <= Zdigits2 (Z.pos p) + e <= 1023 ->
  exists m' e',
    binary_round Float.prec Float.emax false p e = S754_finite false m' e' /\
    (fval p e * (1 - rel_eps) <= fval m' e')%Q /\
    (fval m' e' <= fval p e * (1 + rel_eps))%Q.
Proof.
  intros Hrange. unfold binary_round. simpl Zdigits2 in Hrange.
  set (D := Z.pos (digits2_pos p)) in *.
  assert (Hfexp : fexp Float.prec Float.emax (D + e) = D + e - 53)
    by (unfold fexp, emin, Float.prec, Float.emax; lia).
  rewrite Hfexp. unfold shl_align.
  destruct (D + e - 53 - e) as [ | d | d] eqn:Hd.
  - (* exactly 53 digits *)
    destruct (Exact.mul_accuracy p 1 e 0) as (mz & ez & Hmul & _ & _ & H1 & H2).
    + destruct (FloatFacts.digits2_pos_bounds p) as [Hlo _]. fold D in Hlo.
      replace (D - 1) with 52 in Hlo by lia. lia.
    + rewrite Z.mul_1_r. simpl Zdigits2. fold D. lia.
    + unfold Float.mul, SFmul in Hmul. cbn [xorb] in Hmul.
      rewrite Pos.mul_1_r, Z.add_0_r in Hmul.
      exists mz, ez. split; [exact Hmul | ].
      assert (Hone : (fval 1 0 == 1)%Q) by reflexivity.
      rewrite Hone in H1, H2. split; lra.
  - (* more than 53 digits *)
    destruct (Exact.mul_accuracy p 1 e 0) as (mz & ez & Hmul & _ & _ & H1 & H2).
    + destruct (FloatFacts.digits2_pos_bounds p) as [Hlo _]. fold D in Hlo.
      assert (2 ^ 52 <= 2 ^ (D - 1)) by (apply Z.pow_le_mono_r; lia). lia.
    + rewrite Z.mul_1_r. simpl Zdigits2. fold D. lia.
    + unfold Float.mul, SFmul in Hmul. cbn [xorb] in Hmul.
      rewrite Pos.mul_1_r, Z.add_0_r in Hmul.
      exists mz, ez. split; [exact Hmul | ].
      assert (Hone : (fval 1 0 == 1)%Q) by reflexivity.
      rewrite Hone in H1, H2. split; lra.
  - (* fewer than 53 digits: shifted left, exact *)
    rewrite Rounding.binary_round_aux_exact.
    + exists (Pos.iter xO p d), (D + e - 53). split; [reflexivity | ].
      assert (Hv : (fval (Pos.iter xO p d) (D + e - 53) == fval p e)%Q).
      { replace (D + e - 53) with (e - Z.pos d) by lia.
        apply fval_shift; [lia | apply Rounding.pos_iter_xO_value]. }
      rewrite Hv. pose proof (Exact.fval_pos p e). unfold rel_eps. split; lra.
    + simpl Zdigits2. rewrite FloatFacts.digits2_pos_iter_xO. fold D.
      unfold fexp, emin, Float.prec, Float.emax. lia.
    + unfold Float.prec, Float.emax. lia.
Qed.

Lemma shl_align_value (m : positive) (e e' : Z) :
  e' <= e -> Z.pos (fst (shl_align m e e')) = Z.pos m * 2 ^ (e - e').
Proof.
  intros He. unfold shl_align.
  destruct (e' - e) as [ | d | d] eqn:Hd; cbn [fst].
  - replace (e - e') with 0 by lia. simpl. lia.
  - lia.
  - replace (e - e') with (Z.pos d) by lia. apply Rounding.pos_iter_xO_value.
Qed.

(** A sum of two positive doubles whose exact value lies between [2^a] and
    [2^b]: relative error at most [2^-51]. *)
Lemma add_accuracy (mx my : positive) (ex ey a b : Z) :
  - 999 <= a -> b <= 1021 ->
  (two_pow a <= fval mx ex + fval my ey)%Q ->
  (fval mx ex + fval my ey <= two_pow b)%Q ->
  exists mz ez,
    Float.add (S754_finite false mx ex) (S754_finite false my ey)
      = S754_finite false mz ez /\
    ((fval mx ex + fval my ey) * (1 - rel_eps) <= fval mz ez)%Q /\
    (fval mz ez <= (fval mx ex + fval my ey) * (1 + rel_eps))%Q.
Proof.
  intros Ha Hb Hlo Hhi. unfold Float.add, SFadd, cond_Zopp.
  set (ez := Z.min ex ey).
  set (px := fst (shl_align mx ex ez)). set (py := fst (shl_align my ey ez)).
  assert (Hpx : Z.pos px = Z.pos mx * 2 ^ (ex - ez))
    by (apply shl_align_value; subst ez; lia).
  assert (Hpy : Z.pos py = Z.pos my * 2 ^ (ey - ez))
    by (apply shl_align_value; subst ez; lia).
  change (Z.pos px + Z.pos py) with (Z.pos (px + py)). unfold binary_normalize.
  assert (Hsum : (fval (px + py) ez == fval mx ex + fval my ey)%Q).
  { unfold fval at 1. rewrite Pos2Z.inj_add, inject_Z_plus, Qmult_plus_distr_l.
    assert (Hx : (inject_Z (Z.pos px) * two_pow ez == fval mx ex)%Q).
    { replace ez with (ex - (ex - ez)) at 1 by lia.
      apply (fval_shift mx ex (ex - ez) px); [subst ez; lia | exact Hpx]. }
    assert (Hy : (inject_Z (Z.pos py) * two_pow ez == fval my ey)%Q).
    { replace ez with (ey - (ey - ez)) at 1 by lia.
      apply (fval_shift my ey (ey - ez) py); [subst ez; lia | exact Hpy]. }
    rewrite Hx, Hy. reflexivity. }
  rewrite <- Hsum in Hlo, Hhi.
  pose proof (top_bounds _ _ _ _ Hlo Hhi) as Ht.
  destruct (binary_round_accuracy (px + py) ez ltac:(lia)) as (mz & e' & Hr & H1 & H2).
  exists mz, e'. split; [exact Hr | ].
  rewrite Hsum in H1, H2. split; assumption.
Qed.

End Ranges.

Module SqlAccuracy.

Ltac numerals :=
  repeat match goal with
         | H : context [Z.to_pos ?x] |- _ =>
           let v := eval vm_compute in (Z.to_pos x) in
           replace (Z.to_pos x) with v in H by (vm_compute; reflexivity)
         | |- context [Z.to_pos ?x] =>
           let v := eval vm_compute in (Z.to_pos x) in
           replace (Z.to_pos x) with v by (vm_compute; reflexivity)
         end.

Lemma two_pow_neg (e : positive) : (two_pow (Z.neg e) == 1 # Z.to_pos (2 ^ Z.pos e))%Q.
Proof.
  change (Z.neg e) with (- Z.pos e).
  assert (H : (two_pow (- Z.pos e) == / two_pow (Z.pos e))%Q)
    by (unfold two_pow; apply Qpower_opp).
  rewrite H, <- (Exact.two_pow_inject (Z.pos e)) by lia.
  assert (Hp : 0 < 2 ^ Z.pos e) by (apply Z.pow_pos_nonneg; lia).
  destruct (2 ^ Z.pos e) as [ | p | p] eqn:Hpow; try lia.
  reflexivity.
Qed.

Lemma two_pow_nonneg (e : Z) : 0 <= e -> (two_pow e == 2 ^ e # 1)%Q.
Proof. intros He. rewrite <- (Exact.two_pow_inject e He). reflexivity. Qed.

(** An integer amount of gigabytes times a price in normal range. *)
Lemma int_times_price (n : Z) (mk : positive) (ek : Z) :
  2 ^ 52 <= Z.pos mk ->
  (1 # 1024 <= fval mk ek)%Q -> (fval mk ek <= 1024 # 1)%Q ->
  0 <= n <= 10 ^ 9 ->
  (n = 0 /\ mul_int_float n (S754_finite false mk ek) = Ok (S754_zero false)) \/
  (1 <= n /\
   exists m e,
     mul_int_float n (S754_finite false mk ek) = Ok (S754_finite false m e) /\
     (inject_Z n * fval mk ek * (1 - rel_eps) <= fval m e)%Q /\
     (fval m e <= inject_Z n * fval mk ek * (1 + rel_eps))%Q).
Proof.
  intros Hmk Hlo Hhi Hn.
  destruct (Z.eq_dec n 0) as [-> | Hnz]; [left; split; reflexivity | right].
  split; [lia | ].
  assert (Hn53 : 0 < n < 2 ^ 53).
  { split; [lia | ]. eapply Z.le_lt_trans; [apply Hn | ]. reflexivity. }
  destruct (Exact.of_int_value n Hn53) as (mz & ez & Hc & Hez & Hmz & Hval).
  unfold mul_int_float. rewrite Hc. cbn [bind].
  assert (Hn1 : (1 <= inject_Z n)%Q)
    by (change 1%Q with (inject_Z 1); rewrite <- Zle_Qle; lia).
  assert (Hn2 : (inject_Z n <= 1000000000 # 1)%Q)
    by (change (1000000000 # 1)%Q with (inject_Z (10 ^ 9)); rewrite <- Zle_Qle; lia).
  pose proof (two_pow_neg 10) as Ha. pose proof (two_pow_nonneg 40 ltac:(lia)) as Hb.
  numerals. change (2 ^ 40) with 1099511627776 in Hb.
  destruct (Ranges.mul_accuracy_range mz mk ez ek (-10) 40) as (m & e & Hmul & H1 & H2).
  - pose proof (Z.pow_pos_nonneg 2 52 ltac:(lia) ltac:(lia)). nia.
  - lia.
  - lia.
  - rewrite Hval, Ha.
    setoid_replace (1 # 1024)%Q with (1 * (1 # 1024))%Q by ring.
    apply Qmult_le_compat_nonneg; split; lra.
  - rewrite Hval, Hb.
    setoid_replace (1099511627776 # 1)%Q
      with ((1000000000 # 1) * (1099511627776 # 1000000000))%Q by reflexivity.
    apply Qmult_le_compat_nonneg; split; lra.
  - exists m, e. split; [rewrite Hmul; reflexivity | ].
    rewrite Hval in H1, H2. split; assumption.
Qed.

Lemma lit_ssd_value : Float.lit 17 2 = S754_finite false 0x15c28f5c28f5c3 (-55).
Proof. vm_compute. reflexivity. Qed.

Lemma lit_backup_rate_value : Float.lit 8 2 = S754_finite false 0x147ae147ae147b (-56).
Proof. vm_compute. reflexivity. Qed.

(** The backup term: gigabytes times the SSD price times 0.08. *)
Lemma backup_term (n : Z) :
  0 <= n <= 10 ^ 9 ->
  exists g,
    mul_int_float n (Float.lit 17 2) = Ok g /\
    ((n = 0 /\ Float.mul g (Float.lit 8 2) = S754_zero false) \/
     (1 <= n /\
      exists m e,
        Float.mul g (Float.lit 8 2) = S754_finite false m e /\
        (inject_Z n * (136 # 10000) * (1 - (2 # 1000000000000000)) <= fval m e)%Q /\
        (fval m e <= inject_Z n * (136 # 10000) * (1 + (2 # 1000000000000000)))%Q)).
Proof.
  intros Hn. rewrite lit_ssd_value, lit_backup_rate_value.
  pose proof (fval_numeral 0x15c28f5c28f5c3 (-55) ltac:(lia)) as Hssd.
  pose proof (fval_numeral 0x147ae147ae147b (-56) ltac:(lia)) as Hrate.
  numerals.
  destruct (int_times_price n 0x15c28f5c28f5c3 (-55)) as [[-> Hz] | [Hn1 (g & eg & Hg & G1 & G2)]];
    try (rewrite Hssd; lra); try lia; try exact Hn.
  - exists (S754_zero false). split; [exact Hz | ]. left. split; reflexivity.
  - exists (S754_finite false g eg). split; [exact Hg | ]. right. split; [exact Hn1 | ].
    assert (Hq1 : (1 <= inject_Z n)%Q)
      by (change 1%Q with (inject_Z 1); rewrite <- Zle_Qle; lia).
    assert (Hq2 : (inject_Z n <= 1000000000 # 1)%Q)
      by (change (1000000000 # 1)%Q with (inject_Z (10 ^ 9)); rewrite <- Zle_Qle; lia).
    rewrite Hssd in G1, G2. unfold rel_eps in G1, G2.
    pose proof (two_pow_neg 10) as Ha. pose proof (two_pow_nonneg 40 ltac:(lia)) as Hb.
    numerals. change (2 ^ 40) with 1099511627776 in Hb.
    destruct (Ranges.mul_accuracy_range g 0x147ae147ae147b eg (-56) (-10) 40)
      as (m & e & Hmul & H1 & H2).
    + assert (0 < Z.pos g) by lia. lia.
    + lia.
    + lia.
    + rewrite Hrate, Ha. lra.
    + rewrite Hrate, Hb. lra.
    + exists m, e. split; [exact Hmul | ].
      rewrite Hrate in H1, H2. unfold rel_eps in H1, H2. split; lra.
Qed.

(** The storage term: gigabytes times the SSD price. *)
Lemma storage_term (n : Z) :
  0 <= n <= 10 ^ 9 ->
  (n = 0 /\ mul_int_float n (Float.lit 17 2) = Ok (S754_zero false)) \/
  (1 <= n /\
   exists m e,
     mul_int_float n (Float.lit 17 2) = Ok (S754_finite false m e) /\
     (inject_Z n * (17 # 100) * (1 - (1 # 1000000000000000)) <= fval m e)%Q /\
     (fval m e <= inject_Z n * (17 # 100) * (1 + (1 # 1000000000000000)))%Q).
Proof.
  intros Hn. rewrite lit_ssd_value.
  pose proof (fval_numeral 0x15c28f5c28f5c3 (-55) ltac:(lia)) as Hssd.
  numerals.
  destruct (int_times_price n 0x15c28f5c28f5c3 (-55)) as [[-> Hz] | [Hn1 (g & eg & Hg & G1 & G2)]];
    try (rewrite Hssd; lra); try lia; try exact Hn.
  - left. split; [reflexivity | exact Hz].
  - right. split; [exact Hn1 | ]. exists g, eg. split; [exact Hg | ].
    assert (Hq1 : (1 <= inject_Z n)%Q)
      by (change 1%Q with (inject_Z 1); rewrite <- Zle_Qle; lia).
    rewrite Hssd in G1, G2. unfold rel_eps in G1, G2. split; lra.
Qed.

(** Adding a non-negative term to a positive one. *)
Lemma add_term (mx : positive) (ex : Z) (y : float) (lo hi : Q) :
  (1 # 2 <= fval mx ex)%Q -> (fval mx ex <= 1000000000000 # 1)%Q ->
  (0 <= lo)%Q -> (hi <= 1000000000 # 1)%Q ->
  y = S754_zero false \/
    (exists my ey, y = S754_finite false my ey /\ (lo <= fval my ey)%Q /\ (fval my ey <= hi)%Q) ->
  exists mz ez,
    Float.add (S754_finite false mx ex) y = S754_finite false mz ez /\
    ((fval mx ex + (if positive_finite y then lo else 0)) * (1 - rel_eps) <= fval mz ez)%Q /\
    (fval mz ez <= (fval mx ex + (if positive_finite y then hi else 0)) * (1 + rel_eps))%Q.
Proof.
  intros Hx1 Hx2 Hlo Hhi [-> | (my & ey & -> & Hy1 & Hy2)]; cbn [positive_finite].
  - exists mx, ex. split; [reflexivity | ]. unfold rel_eps. split; lra.
  - pose proof (two_pow_neg 1) as Ha.
    pose proof (two_pow_nonneg 41 ltac:(lia)) as Hb.
    numerals. change (2 ^ 41) with 2199023255552 in Hb.
    destruct (Ranges.add_accuracy mx my ex ey (-1) 41) as (mz & ez & Hadd & H1 & H2).
    + lia.
    + lia.
    + rewrite Ha. lra.
    + rewrite Hb. lra.
    + exists mz, ez. split; [exact Hadd | ]. unfold rel_eps in *. split; lra.
Qed.

(** The sum of [calculate_cloud_sql_cost], from a compute cost between one
    and 1024 dollars and up to a billion gigabytes of each kind. *)
Lemma cloud_sql_chain (mc : positive) (ec storage backup : Z) :
  (1 <= fval mc ec)%Q -> (fval mc ec <= 1024 # 1)%Q ->
  0 <= storage <= 10 ^ 9 -> 0 <= backup <= 10 ^ 9 ->
  exists mr er,
    (storage_cost <- mul_int_float storage (Float.lit 17 2) ;;
     backup_gb_cost <- mul_int_float backup (Float.lit 17 2) ;;
     Ok (Float.add (Float.add (S754_finite false mc ec) storage_cost)
                   (Float.mul backup_gb_cost (Float.lit 8 2))))
      = Ok (S754_finite false mr er) /\
    (fval mc ec + inject_Z storage * (17 # 100) + inject_Z backup * (136 # 10000)
       - (1 # 1000000) <= fval mr er)%Q /\
    (fval mr er
       <= fval mc ec + inject_Z storage * (17 # 100) + inject_Z backup * (136 # 10000)
          + (1 # 1000000))%Q.
Proof.
  intros Hc1 Hc2 Hs Hb.
  assert (Hs0 : (0 <= inject_Z storage)%Q)
    by (change 0%Q with (inject_Z 0); rewrite <- Zle_Qle; lia).
  assert (Hs2 : (inject_Z storage <= 1000000000 # 1)%Q)
    by (change (1000000000 # 1)%Q with (inject_Z (10 ^ 9)); rewrite <- Zle_Qle; lia).
  assert (Hb0 : (0 <= inject_Z backup)%Q)
    by (change 0%Q with (inject_Z 0); rewrite <- Zle_Qle; lia).
  assert (Hb2 : (inject_Z backup <= 1000000000 # 1)%Q)
    by (change (1000000000 # 1)%Q with (inject_Z (10 ^ 9)); rewrite <- Zle_Qle; lia).
  set (t := (1 # 1000000000000000)%Q) in *.
  (* compute + storage *)
  assert (Hsum : exists ms es,
             (exists sc, mul_int_float storage (Float.lit 17 2) = Ok sc /\
                         Float.add (S754_finite false mc ec) sc = S754_finite false ms es) /\
             ((fval mc ec + inject_Z storage * (17 # 100) * (1 - t)) * (1 - rel_eps)
                <= fval ms es)%Q /\
             (fval ms es
                <= (fval mc ec + inject_Z storage * (17 # 100) * (1 + t)) * (1 + rel_eps))%Q).
  { destruct (storage_term storage Hs) as [[Hz Hst] | [Hs1 (m & e & Hst & S1 & S2)] ].
    - exists mc, ec. split; [exists (S754_zero false); split; [exact Hst | reflexivity] | ].
      subst storage. change (inject_Z 0) with 0%Q. unfold rel_eps, t. split; lra.
    - destruct (add_term mc ec (S754_finite false m e)
                  (inject_Z storage * (17 # 100) * (1 - t))
                  (inject_Z storage * (17 # 100) * (1 + t)))
        as (ms & es & Hadd & A1 & A2).
      + lra.
      + lra.
      + unfold t. lra.
      + unfold t. lra.
      + right. exists m, e. fold t in S1, S2. auto.
      + exists ms, es. split; [exists (S754_finite false m e); split; assumption | ].
        cbn [positive_finite] in A1, A2. split; assumption. }
  destruct Hsum as (ms & es & (sc & Hst & Hadd1) & A1 & A2).
  rewrite Hst. cbn [bind]. rewrite Hadd1.
  destruct (backup_term backup Hb) as (g & Hg & Hcase). rewrite Hg. cbn [bind].
  unfold rel_eps, t in *.
  destruct Hcase as [[Hz Hmul] | [Hb1 (m & e & Hmul & B1 & B2)] ]; rewrite Hmul.
  - exists ms, es. split; [reflexivity | ].
    subst backup. change (inject_Z 0) with 0%Q. split; lra.
  - destruct (add_term ms es (S754_finite false m e)
                (inject_Z backup * (136 # 10000) * (1 - (2 # 1000000000000000)))
                (inject_Z backup * (136 # 10000) * (1 + (2 # 1000000000000000))))
      as (mr & er & Hadd & R1 & R2).
    + lra.
    + lra.
    + lra.
    + lra.
    + right. exists m, e. auto.
    + exists mr, er. split; [rewrite Hadd; reflexivity | ].
      cbn [positive_finite] in R1, R2. unfold rel_eps in R1, R2. split; lra.
Qed.

End SqlAccuracy.

Lemma cloud_sql_compute_cost (machine_type : string) (m : positive) (k : nat) (ha : bool) :
  In (machine_type, (m, k)) cloud_sql_literals ->
  exists mc ec,
    price "cloud_sql" machine_type = Ok (Float.lit m k) /\
    (if ha then Float.mul (Float.lit m k) float_two else Float.lit m k)
      = S754_finite false mc ec /\
    (fval mc ec == if ha then decimal_Q m k * (2 # 1) else decimal_Q m k)%Q /\
    (15 # 1 <= fval mc ec)%Q /\ (fval mc ec <= 1024 # 1)%Q.
Proof.
  simpl. intros [Hin | [Hin | [Hin | [Hin | [Hin | [] ] ] ] ] ];
    inversion Hin; subst; clear Hin; destruct ha;
    do 2 eexists; (split; [reflexivity | ]); (split; [vm_compute; reflexivity | ]);
    (split; [vm_compute; reflexivity | ]); split; unfold Qle; vm_compute; congruence.
Qed.

Lemma cloud_sql_cost_bounds
    (machine_type : string) (m : positive) (k : nat) (storage_gb : Z) (ha : bool)
    (backup_storage : Z) :
  In (machine_type, (m, k)) cloud_sql_literals ->
  0 <= storage_gb <= 10 ^ 9 -> 0 <= backup_storage <= 10 ^ 9 ->
  exists cost q,
    calculate_cloud_sql_cost machine_type storage_gb ha backup_storage = Ok cost /\
    float_Q cost = Some q /\
    (cloud_sql_exact m k storage_gb ha backup_storage - (1 # 1000000) <= q)%Q /\
    (q <= cloud_sql_exact m k storage_gb ha backup_storage + (1 # 1000000))%Q.
Proof.
  intros Hin Hs Hb.
  destruct (cloud_sql_compute_cost machine_type m k ha Hin)
    as (mc & ec & Hprice & Hc & Hval & Hc1 & Hc2).
  rewrite (cloud_sql_cost_unfold machine_type storage_gb backup_storage ha _ Hprice), Hc.
  destruct (SqlAccuracy.cloud_sql_chain mc ec storage_gb backup_storage)
    as (mr & er & Hr & R1 & R2); try assumption; [lra | ].
  destruct (Exact.float_Q_finite mr er) as (q & Hq & Eq).
  exists (S754_finite false mr er), q. split; [exact Hr | ]. split; [exact Hq | ].
  fold (fval mr er) in Eq. rewrite <- Eq in R1, R2. rewrite Hval in R1, R2.
  unfold cloud_sql_exact. set (P := decimal_Q m k) in *.
  unfold decimal_Q. SqlAccuracy.numerals.
  destruct ha; split; lra.
Qed.

(** X19. For each database machine type of the table, with or without high
    availability, and up to a billion gigabytes of storage and of backup, the
    cost computed in doubles is within a millionth of a dollar of the exact
    decimal sum [price (doubled for HA) + 0.17 * storage_gb
    + 0.17 * 0.08 * backup_storage], [price] being the decimal written in the
    source. *)
Theorem cloud_sql_cost_matches_decimal
    (machine_type : string) (m : positive) (k : nat) (storage_gb : Z) (ha : bool)
    (backup_storage : Z) :
  In (machine_type, (m, k)) cloud_sql_literals ->
  0 <= storage_gb <= 10 ^ 9 -> 0 <= backup_storage <= 10 ^ 9 ->
  price "cloud_sql" machine_type = Ok (Float.lit m k) /\
  exists cost exact,
    calculate_cloud_sql_cost machine_type storage_gb ha backup_storage = Ok cost /\
    float_Q cost = Some exact /\
    (Qabs (exact - cloud_sql_exact m k storage_gb ha backup_storage) <= 1 # 1000000)%Q.
Proof.
  intros Hin Hs Hb. split.
  - destruct (cloud_sql_compute_cost machine_type m k false Hin) as (_ & _ & Hprice & _).
    exact Hprice.
  - destruct (cloud_sql_cost_bounds machine_type m k storage_gb ha backup_storage Hin Hs Hb)
      as (cost & q & Hcost & Hq & B1 & B2).
    exists cost, q. split; [exact Hcost | ]. split; [exact Hq | ].
    apply Qabs_Qle_condition. split; lra.
Qed.

Lemma cloud_sql_cost_matches_decimal_demo :
  In ("db-f1-micro", (1500%positive, 2%nat)) cloud_sql_literals /\
  0 <= 20 <= 10 ^ 9 /\ 0 <= 5 <= 10 ^ 9 /\
  price "cloud_sql" "db-f1-micro" = Ok (Float.lit 1500 2) /\
  exists cost exact,
    calculate_cloud_sql_cost "db-f1-micro" 20 true 5 = Ok cost /\
    float_Q cost = Some exact /\
    (Qabs (exact - cloud_sql_exact 1500 2 20 true 5) <= 1 # 1000000)%Q.
Proof.
  assert (H1 : In ("db-f1-micro", (1500%positive, 2%nat)) cloud_sql_literals)
    by (simpl; tauto).
  assert (H2 : 0 <= 20 <= 10 ^ 9) by (split; vm_compute; congruence).
  assert (H3 : 0 <= 5 <= 10 ^ 9) by (split; vm_compute; congruence).
  split; [exact H1 | split; [exact H2 | split; [exact H3 | ] ] ].
  exact (cloud_sql_cost_matches_decimal "db-f1-micro" 1500 2 20 true 5 H1 H2 H3).
Defined.

(** X20. For each database machine type of the table and up to a billion
    gigabytes of storage and of backup, high availability raises the computed
    cost by the machine's price up to two millionths of a dollar, hence
    strictly. *)
Theorem cloud_sql_ha_adds_price
    (machine_type : string) (m : positive) (k : nat) (storage_gb backup_storage : Z) :
  In (machine_type, (m, k)) cloud_sql_literals ->
  0 <= storage_gb <= 10 ^ 9 -> 0 <= backup_storage <= 10 ^ 9 ->
  exists plain high exact_plain exact_high,
    calculate_cloud_sql_cost machine_type storage_gb false backup_storage = Ok plain /\
    calculate_cloud_sql_cost machine_type storage_gb true backup_storage = Ok high /\
    float_Q plain = Some exact_plain /\
    float_Q high = Some exact_high /\
    (Qabs (exact_high - exact_plain - decimal_Q m k) <= 2 # 1000000)%Q /\
    (exact_plain < exact_high)%Q.
Proof.
  intros Hin Hs Hb.
  destruct (cloud_sql_cost_bounds machine_type m k storage_gb false backup_storage Hin Hs Hb)
    as (plain & qp & Hplain & Hqp & P1 & P2).
  destruct (cloud_sql_cost_bounds machine_type m k storage_gb true backup_storage Hin Hs Hb)
    as (high & qh & Hhigh & Hqh & H1 & H2).
  destruct (cloud_sql_compute_cost machine_type m k false Hin)
    as (mc & ec & _ & _ & Hval & Hc1 & _).
  exists plain, high, qp, qh. do 4 (split; [assumption | ]).
  unfold cloud_sql_exact in *. rewrite Hval in Hc1. set (P := decimal_Q m k) in *.
  split; [apply Qabs_Qle_condition; split | ]; lra.
Qed.

Lemma cloud_sql_ha_adds_price_production :
  In ("db-n1-standard-2", (19000%positive, 2%nat)) cloud_sql_literals /\
  0 <= 100 <= 10 ^ 9 /\ 0 <= 50 <= 10 ^ 9 /\
  exists plain high exact_plain exact_high,
    calculate_cloud_sql_cost "db-n1-standard-2" 100 false 50 = Ok plain /\
    calculate_cloud_sql_cost "db-n1-standard-2" 100 true 50 = Ok high /\
    float_Q plain = Some exact_plain /\
    float_Q high = Some exact_high /\
    (Qabs (exact_high - exact_plain - decimal_Q 19000 2) <= 2 # 1000000)%Q /\
    (exact_plain < exact_high)%Q.
Proof.
  assert (H1 : In ("db-n1-standard-2", (19000%positive, 2%nat)) cloud_sql_literals)
    by (simpl; tauto).
  assert (H2 : 0 <= 100 <= 10 ^ 9) by (split; vm_compute; congruence).
  assert (H3 : 0 <= 50 <= 10 ^ 9) by (split; vm_compute; congruence).
  split; [exact H1 | split; [exact H2 | split; [exact H3 | ] ] ].
  exact (cloud_sql_ha_adds_price "db-n1-standard-2" 19000 2 100 50 H1 H2 H3).
Defined.

(** ** Request handling: accuracy *)

Module Division.

(** The integer quotient the division rounds: at least 53 bits of
    [m1 * 2^s / m2]. *)
Lemma div_core_value (m1 m2 : positive) (e1 e2 : Z) :
  let d := Zdigits2 (Z.pos m1) + e1 - (Zdigits2 (Z.pos m2) + e2) in
  - 1000 <= d <= 1000 ->
  exists q e' l,
    SFdiv_core_binary Float.prec Float.emax (Z.pos m1) e1 (Z.pos m2) e2 = (q, e', l) /\
    e' <= e1 - e2 /\
    2 ^ 52 <= q /\
    q * Z.pos m2 <= Z.pos m1 * 2 ^ (e1 - e2 - e') < (q + 1) * Z.pos m2 /\
    d <= Zdigits2 q + e' <= d + 1.
Proof.
  intros d Hd. unfold SFdiv_core_binary.
  simpl Zdigits2 in *.
  set (d1 := Z.pos (digits2_pos m1)) in *. set (d2 := Z.pos (digits2_pos m2)) in *.
  destruct (FloatFacts.digits2_pos_bounds m1) as [L1 U1].
  destruct (FloatFacts.digits2_pos_bounds m2) as [L2 U2].
  fold d1 in L1, U1. fold d2 in L2, U2.
  assert (Hfexp : fexp Float.prec Float.emax (d1 + e1 - (d2 + e2)) = d - 53)
    by (unfold fexp, emin, Float.prec, Float.emax; subst d; lia).
  rewrite Hfexp.
  set (e' := Z.min (d - 53) (e1 - e2)).
  set (s := e1 - e2 - e').
  assert (Hs : 0 <= s) by (subst s e'; lia).
  assert (Hs' : 53 + d2 - d1 <= s) by (subst s e' d; lia).
  set (m' := match s with Z.pos _ => Z.shiftl (Z.pos m1) s | 0 => Z.pos m1 | Z.neg _ => 0 end).
  assert (Hm' : m' = Z.pos m1 * 2 ^ s).
  { subst m'. destruct s eqn:Es; [simpl; lia | | lia].
    rewrite Z.shiftl_mul_pow2 by lia. reflexivity. }
  pose proof (Z.div_eucl_eq m' (Z.pos m2) ltac:(lia)) as Heq.
  pose proof (Z.mod_pos_bound m' (Z.pos m2) ltac:(lia)) as Hmod.
  unfold Z.modulo in Hmod.
  destruct (Z.div_eucl m' (Z.pos m2)) as [q r].
  exists q, e', (new_location (Z.pos m2) r). split; [reflexivity | ].
  split; [subst e'; lia | ].
  pose proof (Z.pow_pos_nonneg 2 s ltac:(lia) Hs) as Hps.
  assert (Hbr : q * Z.pos m2 <= Z.pos m1 * 2 ^ s < (q + 1) * Z.pos m2) by nia.
  (* the quotient has at least 53 bits *)
  assert (Hd1 : 1 <= d1) by (subst d1; lia).
  assert (Hd2 : 1 <= d2) by (subst d2; lia).
  assert (Hlow : 2 ^ (d1 - 1 + s) <= Z.pos m1 * 2 ^ s).
  { rewrite Z.pow_add_r by lia. nia. }
  assert (Hup : Z.pos m1 * 2 ^ s < 2 ^ (d1 + s)).
  { rewrite Z.pow_add_r by lia. nia. }
  assert (Hq0 : 0 <= q) by nia.
  assert (Hqlow : 2 ^ (d1 - 1 + s - d2) <= q).
  { assert (Hsp : 2 ^ (d1 - 1 + s) = 2 ^ (d1 - 1 + s - d2) * 2 ^ d2).
    { rewrite <- Z.pow_add_r by lia. f_equal. lia. }
    pose proof (Z.pow_pos_nonneg 2 (d1 - 1 + s - d2) ltac:(lia) ltac:(lia)) as Hpp.
    nia. }
  assert (Hqup : q < 2 ^ (d1 + s - d2 + 1)).
  { assert (Hsp : 2 ^ (d1 + s) = 2 ^ (d1 + s - d2 + 1) * 2 ^ (d2 - 1)).
    { rewrite <- Z.pow_add_r by lia. f_equal. lia. }
    pose proof (Z.pow_pos_nonneg 2 (d1 + s - d2 + 1) ltac:(lia) ltac:(lia)) as Hpp.
    pose proof (Z.pow_pos_nonneg 2 (d2 - 1) ltac:(lia) ltac:(lia)) as Hpp2.
    nia. }
  split.
  { eapply Z.le_trans; [ | exact Hqlow]. apply Z.pow_le_mono_r; lia. }
  split; [exact Hbr | ].
  assert (Hdq : d1 + s - d2 <= Zdigits2 q <= d1 + s - d2 + 1).
  { split.
    - destruct (Z_le_gt_dec (d1 + s - d2) (Zdigits2 q)) as [ | Hgt]; [assumption | exfalso].
      pose proof (FloatFacts.Zdigits2_lt q Hq0) as Hlt.
      assert (2 ^ Zdigits2 q <= 2 ^ (d1 - 1 + s - d2)).
      { apply Z.pow_le_mono_r; [lia | ]. lia. }
      lia.
    - apply FloatFacts.Zdigits2_le; lia. }
  subst s d. lia.
Qed.

(** The quotient of two positive doubles (or exact integers): a relative
    error of at most [2^-51], away from overflow and underflow. *)
Lemma div_bounds (m1 m2 : positive) (e1 e2 : Z) :
  - 1000 <= Zdigits2 (Z.pos m1) + e1 - (Zdigits2 (Z.pos m2) + e2) <= 1000 ->
  exists mz ez e',
    SFdiv Float.prec Float.emax (S754_finite false m1 e1) (S754_finite false m2 e2)
      = S754_finite false mz ez /\
    e' <= e1 - e2 /\ e' <= ez /\
    let N := Z.pos m1 * 2 ^ (e1 - e2 - e') in
    let R := Z.pos mz * 2 ^ (ez - e') in
    N * 2 ^ 51 - N <= R * Z.pos m2 * 2 ^ 51 <= N * 2 ^ 51 + N.
Proof.
  intros Hd.
  destruct (div_core_value m1 m2 e1 e2 Hd) as (q & e' & l & Hcore & He' & Hq & Hbr & Hdig).
  unfold SFdiv. cbn [xorb]. rewrite Hcore.
  assert (Hq0 : 0 <= q) by lia.
  set (D := Zdigits2 q) in *.
  assert (HD : 53 <= D).
  { destruct (Z_lt_le_dec D 53) as [Hlt | Hge]; [ | exact Hge].
    pose proof (FloatFacts.Zdigits2_lt q Hq0) as Hlt'. fold D in Hlt'.
    assert (2 ^ D <= 2 ^ 52) by (apply Z.pow_le_mono_r; lia). lia. }
  assert (Hlow : 2 ^ (D - 1) <= q).
  { subst D. destruct q as [ | p | p]; try lia. simpl Zdigits2.
    apply FloatFacts.digits2_pos_bounds. }
  pose proof (Rounding.binary_round_aux_bounds false q e' l Hq0) as Hb. cbv zeta in Hb. fold D in Hb.
  assert (Hk : Z.max 0 (fexp Float.prec Float.emax (D + e') - e') = D - 53)
    by (unfold fexp, emin, Float.prec, Float.emax; lia).
  rewrite Hk in Hb.
  replace (D - 53 + 1) with (D - 52) in Hb by lia.
  assert (Hp1 : 2 ^ (D - 52) * 2 ^ 51 = 2 ^ (D - 1)).
  { rewrite <- Z.pow_add_r by lia. f_equal. lia. }
  assert (Hp2 : 2 ^ (D - 53) * 2 = 2 ^ (D - 52)).
  { replace (D - 52) with (D - 53 + 1) by lia.
    rewrite Z.pow_add_r by lia. reflexivity. }
  pose proof (Z.pow_pos_nonneg 2 (D - 53) ltac:(lia) ltac:(lia)) as Hpos.
  destruct (FloatFacts.binary_round_aux_finite false q e' l Hq0)
    as [Hz | (mz & ez & Hf)]; [lia | fold D; lia | | ].
  - rewrite Hz in Hb. nia.
  - rewrite Hf in Hb. rewrite Hf. exists mz, ez, e'. split; [reflexivity | ].
    destruct Hb as (He & Hlo & Hhi). split; [exact He' | ]. split; [lia | ].
    cbv zeta.
    set (X := Z.pos mz * 2 ^ (ez - e')) in *.
    set (N := Z.pos m1 * 2 ^ (e1 - e2 - e')) in *.
    set (P := 2 ^ (D - 53)) in *. set (b := Z.pos m2) in *.
    assert (Hb0 : 0 < b) by (subst b; lia).
    assert (HP : P * 2 ^ 52 <= q).
    { subst P. rewrite <- Z.pow_add_r by lia.
      replace (D - 53 + 52) with (D - 1) by lia. exact Hlow. }
    change (2 ^ 52) with 4503599627370496 in HP.
    change (2 ^ 51) with 2251799813685248.
    assert (HX1 : q - 2 * P + 1 <= X) by lia.
    assert (HX2 : X <= q + P) by lia.
    split.
    + assert (H1 : N * 2251799813685248 - N
                   <= (q - 2 * P + 1) * b * 2251799813685248) by nia.
      nia.
    + assert (H1 : (q + P) * b * 2251799813685248
                   <= N * 2251799813685248 + N) by nia.
      nia.
Qed.

Lemma div_accuracy (m1 m2 : positive) (e1 e2 : Z) :
  - 1000 <= Zdigits2 (Z.pos m1) + e1 - (Zdigits2 (Z.pos m2) + e2) <= 1000 ->
  exists mz ez,
    SFdiv Float.prec Float.emax (S754_finite false m1 e1) (S754_finite false m2 e2)
      = S754_finite false mz ez /\
    (fval m1 e1 * (1 - rel_eps) <= fval mz ez * fval m2 e2)%Q /\
    (fval mz ez * fval m2 e2 <= fval m1 e1 * (1 + rel_eps))%Q.
Proof.
  intros Hd.
  destruct (div_bounds m1 m2 e1 e2 Hd) as (mz & ez & e' & Hdiv & He1 & He2 & Hb).
  cbv zeta in Hb. exists mz, ez. split; [exact Hdiv | ].
  set (N := Z.pos m1 * 2 ^ (e1 - e2 - e')) in *.
  set (R := Z.pos mz * 2 ^ (ez - e')) in *.
  set (w := two_pow (e' + e2)).
  assert (HA : (fval m1 e1 == inject_Z N * w)%Q).
  { unfold fval, N, w. rewrite inject_Z_mult, (Exact.two_pow_inject (e1 - e2 - e')) by lia.
    rewrite <- Qmult_assoc, <- Exact.two_pow_add.
    replace (e1 - e2 - e' + (e' + e2)) with e1 by lia. reflexivity. }
  assert (HB : (fval mz ez * fval m2 e2 == inject_Z (R * Z.pos m2) * w)%Q).
  { unfold fval, R, w. rewrite !inject_Z_mult, (Exact.two_pow_inject (ez - e')) by lia.
    rewrite !Exact.two_pow_add.
    assert (Hez : (two_pow ez == two_pow (ez - e') * two_pow e')%Q).
    { rewrite <- Exact.two_pow_add. replace (ez - e' + e') with ez by lia. reflexivity. }
    rewrite Hez. ring. }
  rewrite HA, HB.
  destruct Hb as [Hlo Hhi].
  assert (Hlo' : (inject_Z N * inject_Z (2 ^ 51)
                  <= inject_Z (R * Z.pos m2) * inject_Z (2 ^ 51) + inject_Z N)%Q).
  { rewrite <- !inject_Z_mult, <- inject_Z_plus, <- Zle_Qle. lia. }
  assert (Hhi' : (inject_Z (R * Z.pos m2) * inject_Z (2 ^ 51)
                  <= inject_Z N * inject_Z (2 ^ 51) + inject_Z N)%Q).
  { rewrite <- !inject_Z_mult, <- inject_Z_plus, <- Zle_Qle. exact Hhi. }
  change (inject_Z (2 ^ 51)) with (2251799813685248 # 1)%Q in Hlo', Hhi'.
  pose proof (Exact.two_pow_pos (e' + e2)) as Hw. fold w in Hw.
  set (A := inject_Z N) in *. set (B := inject_Z (R * Z.pos m2)) in *.
  unfold rel_eps.
  assert (H1 : (A * (1 - (1 # 2251799813685248)) <= B)%Q) by lra.
  assert (H2 : (B <= A * (1 + (1 # 2251799813685248)))%Q) by lra.
  split.
  - setoid_replace (A * w * (1 - (1 # 2251799813685248)))%Q
      with (A * (1 - (1 # 2251799813685248)) * w)%Q by ring.
    apply Qmult_le_compat_r; [exact H1 | apply Qlt_le_weak; exact Hw].
  - setoid_replace (A * w * (1 + (1 # 2251799813685248)))%Q
      with (A * (1 + (1 # 2251799813685248)) * w)%Q by ring.
    apply Qmult_le_compat_r; [exact H2 | apply Qlt_le_weak; exact Hw].
Qed.

End Division.

Module Approx.

Ltac qcompute :=
  unfold Qle, Qlt; vm_compute; first [reflexivity | congruence].

Lemma shrink_pos (n : nat) : (0 < shrink n)%Q.
Proof.
  induction n as [ | n IH]; simpl; [reflexivity | ].
  apply Qmult_lt_0_compat; [exact IH | reflexivity].
Qed.

Lemma grow_ge_1 (n : nat) : (1 <= grow n)%Q.
Proof.
  induction n as [ | n IH]; simpl; [apply Qle_refl | ].
  unfold rel_eps. lra.
Qed.

Lemma shrink_S_le (n : nat) : (shrink (S n) <= shrink n)%Q.
Proof. simpl. pose proof (shrink_pos n). unfold rel_eps. lra. Qed.

Lemma grow_S_le (n : nat) : (grow n <= grow (S n))%Q.
Proof. simpl. pose proof (grow_ge_1 n). unfold rel_eps. lra. Qed.

Lemma shrink_mono (n n' : nat) : (n <= n')%nat -> (shrink n' <= shrink n)%Q.
Proof.
  induction 1 as [ | k _ IH]; [apply Qle_refl | ].
  eapply Qle_trans; [apply shrink_S_le | exact IH].
Qed.

Lemma grow_mono (n n' : nat) : (n <= n')%nat -> (grow n <= grow n')%Q.
Proof.
  induction 1 as [ | k _ IH]; [apply Qle_refl | ].
  eapply Qle_trans; [exact IH | apply grow_S_le].
Qed.

Lemma shrink_add (n k : nat) : (shrink (n + k) == shrink n * shrink k)%Q.
Proof.
  induction k as [ | k IH].
  - rewrite Nat.add_0_r. simpl. ring.
  - rewrite Nat.add_succ_r. simpl. rewrite IH. ring.
Qed.

Lemma grow_add (n k : nat) : (grow (n + k) == grow n * grow k)%Q.
Proof.
  induction k as [ | k IH].
  - rewrite Nat.add_0_r. simpl. ring.
  - rewrite Nat.add_succ_r. simpl. rewrite IH. ring.
Qed.

Lemma shrink_half (n : nat) : (n <= 16)%nat -> (1 # 2 <= shrink n)%Q.
Proof.
  intros Hn. eapply Qle_trans; [ | apply (shrink_mono n 16 Hn)]. qcompute.
Qed.

Lemma grow_two (n : nat) : (n <= 16)%nat -> (grow n <= 2 # 1)%Q.
Proof.
  intros Hn. eapply Qle_trans; [apply (grow_mono n 16 Hn) | ]. qcompute.
Qed.

Lemma prod_le (a b x y : Q) :
  (0 <= a)%Q -> (a <= x)%Q -> (0 <= b)%Q -> (b <= y)%Q -> (a * b <= x * y)%Q.
Proof. intros. apply Qmult_le_compat_nonneg; split; assumption. Qed.

(** Fewer roundings and a tighter range can be forgotten. *)
Lemma weaken (x : float) (q : Q) (n n' : nat) (lo lo' hi hi' : Q) :
  approximates x q n lo hi ->
  (n <= n')%nat -> (0 <= lo)%Q -> (lo' <= lo)%Q -> (hi <= hi')%Q ->
  approximates x q n' lo' hi'.
Proof.
  destruct x as [ [ | ] | | | [ | ] m e]; cbn [approximates]; try tauto.
  intros (H1 & H2 & H3 & H4) Hn Hlo0 Hlo Hhi.
  assert (Hq : (0 <= q)%Q) by lra.
  pose proof (shrink_mono n n' Hn) as Hs. pose proof (grow_mono n n' Hn) as Hg.
  split; [lra | ]. split; [lra | ]. split.
  - eapply Qle_trans; [ | exact H3].
    apply prod_le; try lra; try apply Qle_refl.
    + apply Qlt_le_weak, shrink_pos.
  - eapply Qle_trans; [exact H4 | ].
    apply prod_le; try lra; try apply Qle_refl.
    pose proof (grow_ge_1 n). lra.
Qed.

Lemma same_amount (x : float) (q q' : Q) (n : nat) (lo hi : Q) :
  approximates x q n lo hi -> (q == q')%Q -> approximates x q' n lo hi.
Proof.
  destruct x as [ [ | ] | | | [ | ] m e]; cbn [approximates]; try tauto.
  - intros H E. rewrite <- E. exact H.
  - intros H E. rewrite <- E. exact H.
Qed.

Lemma two_pow_202_low : (two_pow (-202) == two_pow (-200) * ((1 # 2) * (1 # 2)))%Q.
Proof. reflexivity. Qed.

Lemma two_pow_202_high : (two_pow 202 == two_pow 200 * ((2 # 1) * (2 # 1)))%Q.
Proof. reflexivity. Qed.

Lemma two_pow_201_low : (two_pow (-201) == two_pow (-200) * (1 # 2))%Q.
Proof. reflexivity. Qed.

Lemma two_pow_201_high : (two_pow 201 == two_pow 200 * (2 # 1))%Q.
Proof. reflexivity. Qed.

(** Integers below [2^53] are represented exactly. *)
Lemma of_int_approx (n N : Z) :
  0 <= n <= N -> N < 2 ^ 53 ->
  exists x,
    Float.of_int n = Ok x /\
    approximates x (inject_Z n) 0 1 (inject_Z N) /\
    canonical x.
Proof.
  intros Hn HN. destruct (Z.eq_dec n 0) as [-> | Hnz].
  - exists (S754_zero false). split; [reflexivity | ]. split; [reflexivity | exact I].
  - destruct (Exact.of_int_value n ltac:(lia)) as (mz & ez & Hc & Hez & Hmz & Hval).
    exists (S754_finite false mz ez). split; [exact Hc | ]. split; [ | apply Hmz].
    cbn [approximates shrink grow]. rewrite Hval.
    assert (H1 : (1 <= inject_Z n)%Q)
      by (change 1%Q with (inject_Z 1); rewrite <- Zle_Qle; lia).
    assert (H2 : (inject_Z n <= inject_Z N)%Q) by (rewrite <- Zle_Qle; lia).
    repeat split; lra.
Qed.

(** One multiplication, the second factor with a full mantissa. *)
Lemma mul_approx (x y : float) (q1 q2 : Q) (n1 n2 : nat) (l1 h1 l2 h2 : Q) :
  approximates x q1 n1 l1 h1 -> approximates y q2 n2 l2 h2 -> canonical y ->
  (n1 + n2 <= 15)%nat ->
  (0 < l1)%Q -> (0 < l2)%Q ->
  (two_pow (-200) <= l1 * l2)%Q -> (h1 * h2 <= two_pow 200)%Q ->
  approximates (Float.mul x y) (q1 * q2) (S (n1 + n2)) (l1 * l2) (h1 * h2).
Proof.
  intros Hx Hy Hcan Hn Hl1 Hl2 Hlo Hhi.
  destruct x as [ [ | ] | | | [ | ] mx ex]; cbn [approximates] in Hx; try tauto;
    destruct y as [ [ | ] | | | [ | ] my ey]; cbn [approximates] in Hy; try tauto;
    try (cbn [Float.mul SFmul xorb approximates]; first [rewrite Hx | rewrite Hy]; ring).
  destruct Hx as (X1 & X2 & X3 & X4). destruct Hy as (Y1 & Y2 & Y3 & Y4).
  cbn [canonical] in Hcan.
  pose proof (shrink_pos n1) as S1. pose proof (shrink_pos n2) as S2.
  pose proof (shrink_half n1 ltac:(lia)) as S1h. pose proof (shrink_half n2 ltac:(lia)) as S2h.
  pose proof (grow_two n1 ltac:(lia)) as G1. pose proof (grow_two n2 ltac:(lia)) as G2.
  pose proof (grow_ge_1 n1) as G1'. pose proof (grow_ge_1 n2) as G2'.
  assert (Q1 : (0 < q1)%Q) by lra. assert (Q2 : (0 < q2)%Q) by lra.
  assert (A1 : (0 <= q1 * shrink n1)%Q) by (apply Qmult_le_0_compat; lra).
  assert (A2 : (0 <= q2 * shrink n2)%Q) by (apply Qmult_le_0_compat; lra).
  pose proof (Exact.fval_pos mx ex) as Fx. pose proof (Exact.fval_pos my ey) as Fy.
  assert (Plo : (q1 * shrink n1 * (q2 * shrink n2) <= fval mx ex * fval my ey)%Q)
    by (apply prod_le; assumption).
  assert (Phi : (fval mx ex * fval my ey <= q1 * grow n1 * (q2 * grow n2))%Q)
    by (apply prod_le; lra).
  assert (Rlo : (l1 * (1 # 2) * (l2 * (1 # 2)) <= q1 * shrink n1 * (q2 * shrink n2))%Q).
  { apply prod_le.
    - lra.
    - apply prod_le; lra.
    - lra.
    - apply prod_le; lra. }
  assert (Rhi : (q1 * grow n1 * (q2 * grow n2) <= h1 * (2 # 1) * (h2 * (2 # 1)))%Q).
  { apply prod_le.
    - apply Qmult_le_0_compat; lra.
    - apply prod_le; lra.
    - apply Qmult_le_0_compat; lra.
    - apply prod_le; lra. }
  destruct (Ranges.mul_accuracy_range mx my ex ey (-202) 202) as (mz & ez & Hmul & M1 & M2).
  - assert (0 < Z.pos mx) by lia. nia.
  - lia.
  - lia.
  - rewrite two_pow_202_low. set (T := two_pow (-200)) in *. set (P := (l1 * l2)%Q) in *.
    setoid_replace (l1 * (1 # 2) * (l2 * (1 # 2)))%Q with (P * ((1 # 2) * (1 # 2)))%Q in Rlo
      by (unfold P; ring).
    lra.
  - rewrite two_pow_202_high. set (T := two_pow 200) in *. set (P := (h1 * h2)%Q) in *.
    setoid_replace (h1 * (2 # 1) * (h2 * (2 # 1)))%Q with (P * ((2 # 1) * (2 # 1)))%Q in Rhi
      by (unfold P; ring).
    lra.
  - rewrite Hmul. cbn [approximates].
    split; [apply prod_le; lra | ]. split; [apply prod_le; lra | ].
    simpl shrink. simpl grow. rewrite shrink_add, grow_add.
    set (F := (fval mx ex * fval my ey)%Q) in *.
    set (Lo := (q1 * shrink n1 * (q2 * shrink n2))%Q) in *.
    set (Hi := (q1 * grow n1 * (q2 * grow n2))%Q) in *.
    unfold rel_eps in *. split.
    + setoid_replace (q1 * q2 * (shrink n1 * shrink n2 * (1 - (1 # 2251799813685248))))%Q
        with (Lo * (1 - (1 # 2251799813685248)))%Q by (unfold Lo; ring).
      lra.
    + setoid_replace (q1 * q2 * (grow n1 * grow n2 * (1 + (1 # 2251799813685248))))%Q
        with (Hi * (1 + (1 # 2251799813685248)))%Q by (unfold Hi; ring).
      lra.
Qed.

(** One division by a double that holds the divisor [c] exactly. *)
Lemma div_approx (x : float) (my : positive) (ey : Z) (q c : Q) (n : nat) (lo hi : Q) :
  approximates x q n lo hi ->
  (fval my ey == c)%Q ->
  (n <= 15)%nat ->
  (two_pow (-200) <= lo)%Q -> (hi <= two_pow 200)%Q ->
  (two_pow (-200) <= c)%Q -> (c <= two_pow 200)%Q ->
  approximates (SFdiv Float.prec Float.emax x (S754_finite false my ey))
               (q / c) (S n) (lo / c) (hi / c).
Proof.
  intros Hx Hc Hn Hlo Hhi Hc1 Hc2.
  pose proof (Exact.two_pow_pos (-200)) as T0.
  assert (Hcpos : (0 < c)%Q) by lra.
  destruct x as [ [ | ] | | | [ | ] mx ex]; cbn [approximates] in Hx; try tauto.
  - cbn [SFdiv xorb approximates]. rewrite Hx. unfold Qdiv. ring.
  - destruct Hx as (X1 & X2 & X3 & X4).
    pose proof (shrink_pos n) as S1. pose proof (shrink_half n ltac:(lia)) as S1h.
    pose proof (grow_two n ltac:(lia)) as G1. pose proof (grow_ge_1 n) as G1'.
    assert (Q1 : (0 < q)%Q) by lra.
    assert (Flo : (two_pow (-201) <= fval mx ex)%Q).
    { rewrite two_pow_201_low. eapply Qle_trans; [ | exact X3].
      apply prod_le; lra. }
    assert (Fhi : (fval mx ex <= two_pow 201)%Q).
    { rewrite two_pow_201_high. eapply Qle_trans; [exact X4 | ].
      apply prod_le; lra. }
    pose proof (Ranges.top_bounds mx ex (-201) 201 Flo Fhi) as Tx.
    rewrite <- Hc in Hc1, Hc2.
    pose proof (Ranges.top_bounds my ey (-200) 200 Hc1 Hc2) as Ty.
    destruct (Division.div_accuracy mx my ex ey ltac:(lia)) as (mz & ez & Hdiv & D1 & D2).
    rewrite Hdiv. cbn [approximates]. rewrite Hc in D1, D2.
    split; [apply Qmult_le_compat_r; [exact X1 | apply Qlt_le_weak, Qinv_lt_0_compat, Hcpos] | ].
    split; [apply Qmult_le_compat_r; [exact X2 | apply Qlt_le_weak, Qinv_lt_0_compat, Hcpos] | ].
    simpl shrink. simpl grow. unfold rel_eps in *.
    set (F := fval mx ex) in *. set (Z := fval mz ez) in *.
    split.
    + setoid_replace (q / c * (shrink n * (1 - (1 # 2251799813685248))))%Q
        with (q * shrink n * (1 - (1 # 2251799813685248)) / c)%Q
        by (unfold Qdiv; ring).
      apply Qle_shift_div_r; [exact Hcpos | ].
      eapply Qle_trans; [ | exact D1].
      apply Qmult_le_compat_r; [exact X3 | lra].
    + setoid_replace (q / c * (grow n * (1 + (1 # 2251799813685248))))%Q
        with (q * grow n * (1 + (1 # 2251799813685248)) / c)%Q
        by (unfold Qdiv; ring).
      apply Qle_shift_div_l; [exact Hcpos | ].
      eapply Qle_trans; [exact D2 | ].
      apply Qmult_le_compat_r; [exact X4 | lra].
Qed.

Lemma fval_exact (p : positive) : (fval p 0 == inject_Z (Z.pos p))%Q.
Proof. unfold fval. change (two_pow 0) with 1%Q. ring. Qed.

(** [a / b] on two [int]s, [a] not negative and [b] positive. *)
Lemma int_truediv_approx (a b A : Z) :
  0 <= a <= A -> A < 2 ^ 200 -> 0 < b < 2 ^ 200 ->
  exists x,
    Float.int_truediv a b = Ok x /\
    approximates x (inject_Z a / inject_Z b) 1
                 (1 / inject_Z b) (inject_Z A / inject_Z b).
Proof.
  intros Ha HA Hb.
  destruct b as [ | pb | pb]; try lia.
  assert (Hbq : (0 < inject_Z (Z.pos pb))%Q)
    by (change 0%Q with (inject_Z 0); rewrite <- Zlt_Qlt; lia).
  destruct a as [ | pa | pa]; try lia.
  - exists (S754_zero false). split; [reflexivity | ].
    cbn [approximates]. unfold Qdiv. change (inject_Z 0) with 0%Q. ring.
  - unfold Float.int_truediv, Float.exact.
    change (Z.to_pos (Z.abs (Z.pos pa))) with pa.
    change (Z.to_pos (Z.abs (Z.pos pb))) with pb.
    change (Z.pos pa <? 0) with false. change (Z.pos pb <? 0) with false.
    assert (Da : 1 <= Zdigits2 (Z.pos pa) <= 200).
    { split; [simpl; lia | apply FloatFacts.Zdigits2_le; lia]. }
    assert (Db : 1 <= Zdigits2 (Z.pos pb) <= 200).
    { split; [simpl; lia | apply FloatFacts.Zdigits2_le; lia]. }
    destruct (Division.div_accuracy pa pb 0 0 ltac:(lia)) as (mz & ez & Hdiv & D1 & D2).
    rewrite Hdiv. exists (S754_finite false mz ez). split; [reflexivity | ].
    cbn [approximates]. rewrite !fval_exact in D1, D2.
    assert (H1 : (1 <= inject_Z (Z.pos pa))%Q)
      by (change 1%Q with (inject_Z 1); rewrite <- Zle_Qle; lia).
    assert (H2 : (inject_Z (Z.pos pa) <= inject_Z A)%Q) by (rewrite <- Zle_Qle; lia).
    set (qa := inject_Z (Z.pos pa)) in *. set (qb := inject_Z (Z.pos pb)) in *.
    split; [apply Qmult_le_compat_r; [exact H1 | apply Qlt_le_weak, Qinv_lt_0_compat, Hbq] | ].
    split; [apply Qmult_le_compat_r; [exact H2 | apply Qlt_le_weak, Qinv_lt_0_compat, Hbq] | ].
    simpl shrink. simpl grow. unfold rel_eps in *. split.
    + setoid_replace (qa / qb * (1 * (1 - (1 # 2251799813685248))))%Q
        with (qa * (1 - (1 # 2251799813685248)) / qb)%Q by (unfold Qdiv; ring).
      apply Qle_shift_div_r; [exact Hbq | exact D1].
    + setoid_replace (qa / qb * (1 * (1 + (1 # 2251799813685248))))%Q
        with (qa * (1 + (1 # 2251799813685248)) / qb)%Q by (unfold Qdiv; ring).
      apply Qle_shift_div_l; [exact Hbq | exact D2].
Qed.

(** One addition of two amounts known to the same number of roundings. *)
Lemma add_approx (x y : float) (q1 q2 : Q) (n : nat) (lo l1 h1 l2 h2 : Q) :
  approximates x q1 n l1 h1 -> approximates y q2 n l2 h2 ->
  (n <= 15)%nat ->
  (two_pow (-200) <= lo)%Q -> (lo <= l1)%Q -> (lo <= l2)%Q ->
  (l1 <= h1)%Q -> (l2 <= h2)%Q -> (h1 + h2 <= two_pow 200)%Q ->
  approximates (Float.add x y) (q1 + q2) (S n) lo (h1 + h2).
Proof.
  intros Hx Hy Hn Hlo Hl1 Hl2 Hh1 Hh2 Hhi.
  pose proof (Exact.two_pow_pos (-200)) as T0.
  pose proof (shrink_pos n) as S1. pose proof (shrink_half n ltac:(lia)) as S1h.
  pose proof (grow_two n ltac:(lia)) as G1. pose proof (grow_ge_1 n) as G1'.
  destruct x as [ [ | ] | | | [ | ] mx ex]; cbn [approximates] in Hx; try tauto;
    destruct y as [ [ | ] | | | [ | ] my ey]; cbn [approximates] in Hy; try tauto.
  - cbn [Float.add SFadd approximates]. rewrite Hx, Hy. reflexivity.
  - change (Float.add (S754_zero false) (S754_finite false my ey))
      with (S754_finite false my ey).
    apply (weaken _ _ n (S n) l2 lo h2 (h1 + h2)); try lra; [ | lia].
    apply (same_amount _ q2); [exact Hy | rewrite Hx; ring].
  - change (Float.add (S754_finite false mx ex) (S754_zero false))
      with (S754_finite false mx ex).
    apply (weaken _ _ n (S n) l1 lo h1 (h1 + h2)); try lra; [ | lia].
    apply (same_amount _ q1); [exact Hx | rewrite Hy; ring].
  - destruct Hx as (X1 & X2 & X3 & X4). destruct Hy as (Y1 & Y2 & Y3 & Y4).
    assert (Q1 : (0 < q1)%Q) by lra. assert (Q2 : (0 < q2)%Q) by lra.
    set (fx := fval mx ex) in *. set (fy := fval my ey) in *.
    set (s := shrink n) in *. set (g := grow n) in *.
    assert (L1 : (l1 * (1 # 2) <= q1 * s)%Q) by (apply prod_le; lra).
    assert (L2 : (l2 * (1 # 2) <= q2 * s)%Q) by (apply prod_le; lra).
    assert (U1 : (q1 * g <= h1 * (2 # 1))%Q) by (apply prod_le; lra).
    assert (U2 : (q2 * g <= h2 * (2 # 1))%Q) by (apply prod_le; lra).
    destruct (Ranges.add_accuracy mx my ex ey (-201) 201) as (mz & ez & Hadd & A1 & A2).
    + lia.
    + lia.
    + rewrite two_pow_201_low. fold fx fy. lra.
    + rewrite two_pow_201_high. fold fx fy. lra.
    + rewrite Hadd. cbn [approximates]. fold fx fy in A1, A2.
      split; [lra | ]. split; [lra | ].
      simpl shrink. simpl grow. fold s g. unfold rel_eps in *.
      set (a := (q1 * s)%Q) in *. set (b := (q2 * s)%Q) in *.
      set (c := (q1 * g)%Q) in *. set (d := (q2 * g)%Q) in *.
      split.
      * setoid_replace ((q1 + q2) * (s * (1 - (1 # 2251799813685248))))%Q
          with ((a + b) * (1 - (1 # 2251799813685248)))%Q by (unfold a, b; ring).
        lra.
      * setoid_replace ((q1 + q2) * (g * (1 + (1 # 2251799813685248))))%Q
          with ((c + d) * (1 + (1 # 2251799813685248)))%Q by (unfold c, d; ring).
        lra.
Qed.

End Approx.

Module RunAccuracy.

Import Approx.

Ltac literal :=
  match goal with
  | |- context [Float.lit ?m ?k] =>
    let v := eval vm_compute in (Float.lit m k) in
    replace (Float.lit m k) with v by (vm_compute; reflexivity)
  end;
  cbn [approximates canonical shrink grow]; repeat split; qcompute.

Lemma requests_literal :
  approximates (Float.lit 40 2) (decimal_Q 40 2) 1 (decimal_Q 40 2) (decimal_Q 40 2) /\
  canonical (Float.lit 40 2).
Proof. literal. Qed.

Lemma cpu_time_literal :
  approximates (Float.lit 24 6) (decimal_Q 24 6) 1 (decimal_Q 24 6) (decimal_Q 24 6) /\
  canonical (Float.lit 24 6).
Proof. literal. Qed.

Lemma memory_time_literal :
  approximates (Float.lit 25 7) (decimal_Q 25 7) 1 (decimal_Q 25 7) (decimal_Q 25 7) /\
  canonical (Float.lit 25 7).
Proof. literal. Qed.

Lemma min_instances_literal :
  approximates (Float.lit 876 2) (decimal_Q 876 2) 1 (decimal_Q 876 2) (decimal_Q 876 2) /\
  canonical (Float.lit 876 2).
Proof. literal. Qed.

Ltac side :=
  match goal with
  | |- Qle _ _ => qcompute
  | |- Qlt _ _ => qcompute
  | |- (_ <= _)%nat => cbn [Nat.add]; lia
  | |- _ => first [lia | split; vm_compute; congruence]
  end.

Lemma fval_1024 : (fval 0x10000000000000 (-42) == inject_Z 1024)%Q.
Proof. reflexivity. Qed.

(** The whole computation of [calculate_cloud_run_cost], step by step. *)
Lemma cloud_run_chain (r c mem inst : Z) :
  0 <= r <= 10 ^ 9 -> 0 <= c <= 10 ^ 9 -> 0 <= mem <= 10 ^ 9 -> 0 <= inst <= 10 ^ 9 ->
  exists cost,
    calculate_cloud_run_cost r c mem inst = Ok cost /\
    approximates cost (cloud_run_exact r c mem inst) 7 (two_pow (-100)) (two_pow 103).
Proof.
  intros Hr Hc Hmem Hinst.
  assert (Hrc : 0 <= r * c <= 10 ^ 18).
  { change (10 ^ 18) with (10 ^ 9 * 10 ^ 9). nia. }
  unfold calculate_cloud_run_cost.
  rewrite PriceFacts.requests, PriceFacts.cpu_time, PriceFacts.memory_time,
    PriceFacts.min_instances.
  destruct requests_literal as [Lreq Creq]. destruct cpu_time_literal as [Lcpu Ccpu].
  destruct memory_time_literal as [Lmem Cmem]. destruct min_instances_literal as [Lmin Cmin].
  (* request cost *)
  destruct (int_truediv_approx r 1000000 (10 ^ 9)) as (millions & Hm & Am); try side.
  rewrite Hm. cbn [bind].
  pose proof (mul_approx _ _ _ _ _ _ _ _ _ _ Am Lreq Creq) as Areq.
  specialize (Areq ltac:(side) ltac:(side) ltac:(side) ltac:(side) ltac:(side)).
  (* CPU cost *)
  destruct (int_truediv_approx (r * c) 1000 (10 ^ 18)) as (cpu_seconds & Hs & As); try side.
  rewrite Hs. cbn [bind].
  destruct (of_int_approx 1 1) as (one & Hone & Aone & Cone); try side.
  unfold mul_float_int at 1. rewrite Hone. cbn [bind].
  pose proof (mul_approx _ _ _ _ _ _ _ _ _ _ As Aone Cone) as Avcpu.
  specialize (Avcpu ltac:(side) ltac:(side) ltac:(side) ltac:(side) ltac:(side)).
  pose proof (mul_approx _ _ _ _ _ _ _ _ _ _ Avcpu Lcpu Ccpu) as Acpu.
  specialize (Acpu ltac:(side) ltac:(side) ltac:(side) ltac:(side) ltac:(side)).
  (* memory cost *)
  destruct (of_int_approx mem (10 ^ 9)) as (fmem & Hfm & Afm & Cfm); try side.
  unfold mul_float_int. rewrite Hfm. cbn [bind].
  pose proof (mul_approx _ _ _ _ _ _ _ _ _ _ As Afm Cfm) as Amb.
  specialize (Amb ltac:(side) ltac:(side) ltac:(side) ltac:(side) ltac:(side)).
  rewrite div_float_int_1024. cbn [bind].
  pose proof (div_approx _ _ _ _ _ _ _ _ Amb fval_1024) as Agb.
  specialize (Agb ltac:(side) ltac:(side) ltac:(side) ltac:(side) ltac:(side)).
  pose proof (mul_approx _ _ _ _ _ _ _ _ _ _ Agb Lmem Cmem) as Amem.
  specialize (Amem ltac:(side) ltac:(side) ltac:(side) ltac:(side) ltac:(side)).
  (* minimum instances *)
  destruct (of_int_approx inst (10 ^ 9)) as (count & Hcount & Acount & Ccount); try side.
  unfold mul_int_float. rewrite Hcount. cbn [bind].
  pose proof (mul_approx _ _ _ _ _ _ _ _ _ _ Acount Lmin Cmin) as Amin.
  specialize (Amin ltac:(side) ltac:(side) ltac:(side) ltac:(side) ltac:(side)).
  (* the sum *)
  eexists. split; [reflexivity | ].
  pose proof (weaken _ _ _ 4 _ (two_pow (-100)) _ (two_pow 100) Areq
                ltac:(side) ltac:(side) ltac:(side) ltac:(side)) as W1.
  pose proof (weaken _ _ _ 4 _ (two_pow (-100)) _ (two_pow 100) Acpu
                ltac:(side) ltac:(side) ltac:(side) ltac:(side)) as W2.
  pose proof (add_approx _ _ _ _ _ (two_pow (-100)) _ _ _ _ W1 W2
                ltac:(side) ltac:(side) ltac:(side) ltac:(side) ltac:(side)
                ltac:(side) ltac:(side)) as S1.
  pose proof (weaken _ _ _ 5 _ (two_pow (-100)) _ (two_pow 100 + two_pow 100) Amem
                ltac:(side) ltac:(side) ltac:(side) ltac:(side)) as W3.
  pose proof (add_approx _ _ _ _ _ (two_pow (-100)) _ _ _ _ S1 W3
                ltac:(side) ltac:(side) ltac:(side) ltac:(side) ltac:(side)
                ltac:(side) ltac:(side)) as S2.
  pose proof (weaken _ _ _ 6 _ (two_pow (-100)) _ (two_pow 100) Amin
                ltac:(side) ltac:(side) ltac:(side) ltac:(side)) as W4.
  pose proof (add_approx _ _ _ _ _ (two_pow (-100)) _ _ _ _ S2 W4
                ltac:(side) ltac:(side) ltac:(side) ltac:(side) ltac:(side)
                ltac:(side) ltac:(side)) as S3.
  eapply same_amount; [ | ].
  - eapply weaken; [exact S3 | side ..].
  - unfold cloud_run_exact. change (inject_Z 1) with 1%Q. unfold Qdiv. ring.
Qed.

End RunAccuracy.

Lemma cloud_run_exact_zero (r c mem inst : Z) :
  0 <= r -> 0 <= c -> 0 <= mem -> 0 <= inst ->
  (cloud_run_exact r c mem inst == 0)%Q <-> r = 0 /\ inst = 0.
Proof.
  intros Hr Hc Hmem Hinst. unfold cloud_run_exact.
  assert (Q1 : (0 <= inject_Z r)%Q)
    by (change 0%Q with (inject_Z 0); rewrite <- Zle_Qle; lia).
  assert (Q2 : (0 <= inject_Z (r * c))%Q)
    by (change 0%Q with (inject_Z 0); rewrite <- Zle_Qle; nia).
  assert (Q3 : (0 <= inject_Z mem)%Q)
    by (change 0%Q with (inject_Z 0); rewrite <- Zle_Qle; lia).
  assert (Q4 : (0 <= inject_Z inst)%Q)
    by (change 0%Q with (inject_Z 0); rewrite <- Zle_Qle; lia).
  assert (Q5 : (0 <= inject_Z (r * c) * inject_Z mem)%Q)
    by (apply Qmult_le_0_compat; assumption).
  unfold decimal_Q, Qdiv.
  change (/ inject_Z 1000000)%Q with (1 # 1000000)%Q.
  change (/ inject_Z 1000)%Q with (1 # 1000)%Q.
  change (/ inject_Z 1024)%Q with (1 # 1024)%Q.
  change (Z.to_pos (10 ^ Z.of_nat 2)) with 100%positive.
  change (Z.to_pos (10 ^ Z.of_nat 6)) with 1000000%positive.
  change (Z.to_pos (10 ^ Z.of_nat 7)) with 10000000%positive.
  set (P := (inject_Z (r * c) * inject_Z mem)%Q) in *.
  setoid_replace (inject_Z (r * c) * (1 # 1000) * inject_Z mem * (1 # 1024) * (25 # 10000000))%Q
    with (P * ((1 # 1000) * (1 # 1024) * (25 # 10000000)))%Q by (unfold P; ring).
  split.
  - intros HE.
    assert (E1 : (inject_Z r <= 0)%Q) by lra.
    assert (E2 : (inject_Z inst <= 0)%Q) by lra.
    change 0%Q with (inject_Z 0) in E1, E2. rewrite <- Zle_Qle in E1, E2. lia.
  - intros [-> ->]. unfold P. rewrite Z.mul_0_l. change (inject_Z 0) with 0%Q. ring.
Qed.

(** X21. For up to a billion requests, milliseconds, megabytes and
    instances, none negative, the cost computed in doubles differs from the
    exact decimal value of the source's formula,
    [requests / 1000000 * 0.40 + requests * ms / 1000 * 0.000024
     + requests * ms / 1000 * mb / 1024 * 0.0000025 + instances * 8.76],
    by at most [10^-14] of that value. *)
Theorem cloud_run_cost_matches_exact
    (requests_per_month avg_cpu_time_ms avg_memory_mb min_instances : Z) :
  0 <= requests_per_month <= 10 ^ 9 -> 0 <= avg_cpu_time_ms <= 10 ^ 9 ->
  0 <= avg_memory_mb <= 10 ^ 9 -> 0 <= min_instances <= 10 ^ 9 ->
  exists cost exact,
    calculate_cloud_run_cost requests_per_month avg_cpu_time_ms avg_memory_mb min_instances
      = Ok cost /\
    float_Q cost = Some exact /\
    (Qabs (exact
           - cloud_run_exact requests_per_month avg_cpu_time_ms avg_memory_mb min_instances)
     <= cloud_run_exact requests_per_month avg_cpu_time_ms avg_memory_mb min_instances
        * (1 # 100000000000000))%Q.
Proof.
  intros Hr Hc Hmem Hinst.
  destruct (RunAccuracy.cloud_run_chain _ _ _ _ Hr Hc Hmem Hinst) as (cost & Hcost & A).
  set (E := cloud_run_exact _ _ _ _) in *.
  destruct cost as [ [ | ] | | | [ | ] m e]; cbn [approximates] in A; try tauto.
  - exists (S754_zero false), (inject_Z 0). split; [exact Hcost | ]. split; [reflexivity | ].
    change (inject_Z 0) with 0%Q. apply Qabs_Qle_condition. split; lra.
  - destruct A as (A1 & A2 & A3 & A4).
    destruct (Exact.float_Q_finite m e) as (q & Hq & Eq).
    exists (S754_finite false m e), q. split; [exact Hcost | ]. split; [exact Hq | ].
    fold (fval m e) in Eq. rewrite <- Eq in A3, A4.
    pose proof (Exact.two_pow_pos (-100)) as T0.
    assert (S7 : (1 - (1 # 100000000000000) <= shrink 7)%Q) by Approx.qcompute.
    assert (G7 : (grow 7 <= 1 + (1 # 100000000000000))%Q) by Approx.qcompute.
    assert (L : (E * (1 - (1 # 100000000000000)) <= E * shrink 7)%Q)
      by (apply Approx.prod_le; lra).
    assert (U : (E * grow 7 <= E * (1 + (1 # 100000000000000)))%Q).
    { apply Approx.prod_le; try lra.
      - pose proof (Approx.grow_ge_1 7). lra. }
    set (s := shrink 7) in *. set (g := grow 7) in *.
    set (a := (E * s)%Q) in *. set (b := (E * g)%Q) in *.
    apply Qabs_Qle_condition. split; lra.
Qed.

Lemma cloud_run_cost_matches_exact_demo :
  0 <= 10000 <= 10 ^ 9 /\ 0 <= 200 <= 10 ^ 9 /\ 0 <= 256 <= 10 ^ 9 /\ 0 <= 0 <= 10 ^ 9 /\
  exists cost exact,
    calculate_cloud_run_cost 10000 200 256 0 = Ok cost /\
    float_Q cost = Some exact /\
    (Qabs (exact - cloud_run_exact 10000 200 256 0)
     <= cloud_run_exact 10000 200 256 0 * (1 # 100000000000000))%Q.
Proof.
  assert (H1 : 0 <= 10000 <= 10 ^ 9) by (split; vm_compute; congruence).
  assert (H2 : 0 <= 200 <= 10 ^ 9) by (split; vm_compute; congruence).
  assert (H3 : 0 <= 256 <= 10 ^ 9) by (split; vm_compute; congruence).
  assert (H4 : 0 <= 0 <= 10 ^ 9) by (split; vm_compute; congruence).
  split; [exact H1 | split; [exact H2 | split; [exact H3 | split; [exact H4 | ] ] ] ].
  exact (cloud_run_cost_matches_exact 10000 200 256 0 H1 H2 H3 H4).
Defined.

(** X22. In the same range the cost is [0.0] when there are no requests
    and no minimum instances, and a positive double as soon as there is one
    request or one instance: no term is lost to underflow. *)
Theorem cloud_run_cost_zero_iff
    (requests_per_month avg_cpu_time_ms avg_memory_mb min_instances : Z) :
  0 <= requests_per_month <= 10 ^ 9 -> 0 <= avg_cpu_time_ms <= 10 ^ 9 ->
  0 <= avg_memory_mb <= 10 ^ 9 -> 0 <= min_instances <= 10 ^ 9 ->
  exists cost,
    calculate_cloud_run_cost requests_per_month avg_cpu_time_ms avg_memory_mb min_instances
      = Ok cost /\
    (requests_per_month = 0 /\ min_instances = 0 -> cost = Float.zero) /\
    (1 <= requests_per_month \/ 1 <= min_instances -> positive_finite cost = true).
Proof.
  intros Hr Hc Hmem Hinst.
  destruct (RunAccuracy.cloud_run_chain _ _ _ _ Hr Hc Hmem Hinst) as (cost & Hcost & A).
  pose proof (cloud_run_exact_zero requests_per_month avg_cpu_time_ms avg_memory_mb
                min_instances ltac:(lia) ltac:(lia) ltac:(lia) ltac:(lia)) as Hz.
  pose proof (Exact.two_pow_pos (-100)) as T0.
  exists cost. split; [exact Hcost | ].
  destruct cost as [ [ | ] | | | [ | ] m e]; cbn [approximates] in A; try tauto.
  - split; [reflexivity | ]. intros Hpos. apply Hz in A. lia.
  - destruct A as (A1 & _). split; [ | reflexivity].
    intros H0. apply Hz in H0. lra.
Qed.

Lemma cloud_run_cost_zero_iff_idle :
  0 <= 0 <= 10 ^ 9 /\ 0 <= 200 <= 10 ^ 9 /\ 0 <= 256 <= 10 ^ 9 /\ 0 <= 1 <= 10 ^ 9 /\
  exists cost,
    calculate_cloud_run_cost 0 200 256 1 = Ok cost /\
    (0 = 0 /\ 1 = 0 -> cost = Float.zero) /\
    (1 <= 0 \/ 1 <= 1 -> positive_finite cost = true).
Proof.
  assert (H1 : 0 <= 0 <= 10 ^ 9) by (split; vm_compute; congruence).
  assert (H2 : 0 <= 200 <= 10 ^ 9) by (split; vm_compute; congruence).
  assert (H3 : 0 <= 256 <= 10 ^ 9) by (split; vm_compute; congruence).
  assert (H4 : 0 <= 1 <= 10 ^ 9) by (split; vm_compute; congruence).
  split; [exact H1 | split; [exact H2 | split; [exact H3 | split; [exact H4 | ] ] ] ].
  exact (cloud_run_cost_zero_iff 0 200 256 1 H1 H2 H3 H4).
Defined.
